(* ===== verification/_CoqProject ===== *)
-Q . S2P
Prelude.v
JsValue.v
JsHeap.v
Reify.v
Literal.v
Contract.v
Webpack.v
Idempotence.v
Equivariance.v
Proto.v
Resolution.v
Integrity.v
Hostname.v
Schema.v
NextConfig.v
Host.v
Build.v
Completion.v
Lifecycle.v
