(* ===== verification/Prelude.v ===== *)
(** * Verification of [src/next.config.js]

    The program is the build configuration of a Next.js chat application:
    one CommonJS module that evaluates an object literal ([nextConfig],
    lines 2-21) and publishes it ([module.exports = nextConfig], line 23).
    The literal holds two pieces of static data (the [experimental] flags
    with the compiler-plugin list, lines 3-6, and the allow-list of remote
    image hosts [images.domains], lines 7-13) and one function, the
    [webpack] hook (lines 14-20), which the bundler calls once per
    bundling pass with its own configuration object and a flag telling
    whether the pass targets the server.  On a non-server pass the hook
    assigns a new object [{ fs: false, path: false }] to
    [config.resolve.fallback], mutating the object it was handed, and
    returns that same object.

    ** Files, in the order they depend on each other

    - [Prelude] (this file): the state-and-exception monad [SE] in which
      every JavaScript operation of the model runs, its notation (scope
      [se_scope]), the tactics [se_simpl] and [case_run], the hint
      databases [js] and [js_rw], the predicates [se_preserves] and
      [se_grows] (a property of the state that a computation maintains
      whatever its outcome) with their rules for [let*], the lemmas on
      fresh keys of finite maps that allocation relies on, and on the
      decimal names of array indices.
    - [JsValue]: JavaScript values ([val]: undefined, null, booleans,
      numbers, strings, object references), the ToBoolean conversion
      [to_boolean] behind [!isServer], and [nullish].
    - [JsHeap]: objects ([obj]: a class tag and a finite map of own data
      properties), the heap ([gmap] from locations to objects), the
      exceptions ([exn]), and the primitive operations [alloc], [get_prop]
      (the expression [v.k]), [set_prop] (the statement [v.k = x]),
      [destructure] (the parameter pattern [{ k }]); the well-formedness
      invariant [heap_wf] (no dangling reference) with its preservation
      lemmas.
    - [Reify]: [reify n h v], the structure read from the value [v] in the
      heap [h] down to depth [n], as a finite [tree]; simulations between
      heaps ([heap_sim]) and the equivalence [deep_eq] (written [≈ᵈ]) of
      values that read alike at every depth, under which heaps are
      compared.
    - [Literal]: object, array and function literals ([obj_lit],
      [arr_lit], [fun_lit]) evaluated in the order ECMAScript prescribes
      (create the object, then define the properties left to right); the
      judgment [builds m t d] (in every heap, [m] completes normally, only
      allocates, and yields a new value that reads as the tree [t] at every
      depth from [d] on, also in every later heap that keeps what [m]
      allocated) with one rule per form of literal and the tactic
      [solve_builds]; the judgment [allocs m k] that counts allocations.
    - [Contract]: the class [HookContract] of what the host relies on when
      it calls a hook; [Webpack] declares the instance for the hook of the
      repository and [Host] is proved against the class.
    - [Webpack]: the hook [webpack] (lines 14-20), its run on every input
      ([webpack_run_wf], [webpack_heap_cases]) and its theorems.
    - [Idempotence]: the hook run twice; the simulation between the heap
      after one run and the heap after two.
    - [Equivariance]: the hook on two heaps that differ by a renaming of
      their locations ([partial_bijection], [extend]): a check of the
      model, which must not tell locations apart.
    - [Proto]: the two reads of the hook along the prototype chain: the
      prototype map [proto], the read [chain_get] with fuel for the length
      of the chain, the relation [chain_prop] that says what the chain
      holds, the expression [get_prop_chain], the hook with its read and
      its assignment as parameters ([hook_gen], and [hook_with] when the
      assignment is [set_prop]), and the conditions [acyclic] and
      [unpolluted] under which reading own properties is exact.
    - [Resolution]: the contract of the hook over a pure record of
      resolution settings, in two readings: [adjust_replace] (what the
      code does) and [adjust_merge] (what sections 4.1 and 8.3 of the
      specification describe); the abstraction function [abs], the
      refinement theorem relating the heap-level hook to [adjust_replace],
      and the exact condition under which the two readings agree.
    - [Integrity]: objects that refuse assignments ([integrity]: not
      extensible, sealed, frozen), the assignment [set_prop_in] that
      honours them in sloppy mode, and what they do to the hook.
    - [Hostname]: the syntax of host names (RFC 1123) as a boolean
      checker, used to state the allow-list invariant of the
      specification.
    - [Schema]: structural types over trees, the checker [has_type], the
      annotation of line 1 ([nextConfig_annotation], a reference to a type
      of the framework, resolved by [framework_type]) and the type
      [NextConfig_ty] it names, as far as the file uses it.
    - [NextConfig]: the literal [nextConfig] with its parts
      ([experimental], [swcPlugins], [images], [domains], [webpack_fn]),
      the module [module_body] (lines 2-23), the table [code_body] that
      gives the closure of the hook its code, the tree [nextConfig_tree]
      the configuration reads as, and the theorems on the exported
      object.
    - [Host]: the host's side, modelled from section 6 of the
      specification (it is not code of this repository): the load of a
      CommonJS module ([load_module]), the call of a closure ([call2]), one
      bundling pass ([bundler_pass]) and a sequence of passes
      ([run_passes]), with the lemmas that hold for every table of hooks
      that keep [HookContract].
    - [Build]: the program end to end: [load_config] and [build], and the
      theorems that follow a build from the load of the module to the
      settings the bundler ends with.
    - [Completion]: a build from pass to pass, for settings that share
      objects in any way: the invariant [between] of the heap between two
      passes, the object [written] by a pass and its effect [adjusted],
      the outcome of a build as a function of the initial heap
      ([pass_error], [first_error], [build_result]), and the predicates
      [known], [ready] and [disabled_in] in which the theorems are
      stated.
    - [Lifecycle]: the same lifecycle as a machine that takes one step
      for the load and one per pass: the states [phase] and [mstate], the
      step function [next], the step relation [step], the iteration
      [run], the bound [measure] and the modality [eventually].

    ** Correspondence with the code

    A JavaScript function becomes a computation in [SE heap exn]: a
    function from the heap to a result ([inr v] for a normal completion,
    [inl e] for a thrown exception) and the heap at that point.  Objects
    live in the heap and values refer to them by location, so aliasing and
    in-place mutation are visible: two values are the same object exactly
    when they are the same [VRef l].  A function value is an object of
    class [ClsFunction c] whose code [c] is looked up in [code_body] when
    it is called.  Each definition that models code bears the name the
    code uses and is listed in the map of the manifest with the lines it
    translates.

    ** What the theorems show

    - the hook ([Webpack], [Idempotence], [Equivariance]): its complete
      behaviour on every input (which
      inputs make it throw, what the heap is afterwards, that it returns
      the very object it received), the frame (nothing but the object
      [config.resolve] refers to is written), idempotence up to [≈ᵈ]
      although each client pass allocates a new table, and the bound of
      one allocation per call.  Two facts are kept as lemmas because they
      speak of the model more than of the hook: the heap stays free of
      dangling references ([webpack_preserves_wf_aux], so that [Stuck] is
      never the outcome, [webpack_run_wf]), and the outcome does not
      depend on the names of the locations ([webpack_equivariant]);
    - prototypes ([Proto]): with fuel for as many steps as objects have a
      prototype the read along an acyclic chain finds what the chain
      holds ([chain_get_fuel], [chain_get_complete]), while a chain with
      a cycle never answers ([chain_get_cyclic]); on a client pass the
      hook installs the table in the object found under [resolve],
      however far up the chain ([hook_chain_installs]); when no prototype
      defines [isServer] or [resolve] the hook read along the chain is
      [webpack] ([webpack_chain_agrees]), so that the theorems of the
      development hold of the hook as JavaScript runs it on such heaps;
      when [resolve] is inherited the two differ, and the hook writes
      into the object the prototype shares ([webpack_chain_inherited]);
    - integrity levels ([Integrity]): when the object under [resolve]
      accepts the key [fallback], the hook with reads along the chain and
      the assignment that honours the levels is [webpack]
      ([webpack_adequate]); when it is frozen, or not extensible and
      without a [fallback], a client pass reports success and has changed
      nothing ([webpack_frozen_silent]);
    - the contract ([Resolution]): the hook refines [adjust_replace]; it
      meets [adjust_merge], the reading of the specification, exactly on
      server passes and on fallback tables that hold no key besides [fs]
      and [path]; the example of section 8.3 of the specification, run;
    - the literal ([Literal], [NextConfig]): evaluation completes in every
      heap, only allocates (eight objects), and its value reads as
      [nextConfig_tree] whatever the heap; the allow-list holds the three
      hosts of the source in order, each a valid host name and none twice;
      the plugin list holds the one pair; the value has the type
      [NextConfig_ty], which is the type its annotation refers to
      ([nextConfig_annotated]); a second evaluation yields another object that
      reads alike; an array literal reads back element by element;
    - the module ([NextConfig]): [module.exports] refers to the
      configuration afterwards; a module value that is undefined or null
      makes line 23 throw;
    - the build ([Host], [Build]): the load answers the configuration; the
      function the host calls is the hook of lines 14-20; a pass leaves the
      settings representing [adjust_replace] of what they represented and
      changes nothing else; a client pass over settings without [resolve]
      aborts the build, and a build allocates ten objects and at most two
      per pass.  [Host] also shows what [HookContract] alone gives for
      every hook: passes over settings that are not the [resolve] of one
      another change no other object;
    - builds of any length ([Completion]): the hook of the repository
      writes the [fallback] of an object of the initial heap and nothing
      else, so whatever objects the settings share, the result of a build
      is [build_result] of the initial heap (every settings object handed
      back, or the TypeError of the first client pass whose settings or
      [resolve] are undefined or null), passes never touch the
      configuration, and over ready settings the
      [resolve] of every client pass ends up representing
      [adjust_replace] of what it represented at the start, while no
      other object of the initial heap changes;
    - the lifecycle ([Lifecycle]): [step] is the graph of [next] and is
      deterministic; every step lowers [measure], so no infinite run
      exists and [run] ends in a final state; the runs of the machine end
      in the outcome of [build] and nowhere else; the heap stays well
      formed and the results so far are the settings of the passes that
      ran ([reachable_invariant], by induction on the steps); over ready
      settings every run reaches the state in which all settings are
      handed back and every client fallback is disabled.

    ** Divergences from the specification

    The hook replaces the fallback table instead of overriding two keys in
    it ([spec_example_8_3], [webpack_meets_merge_iff]); it throws on inputs
    although the specification says that it cannot fail
    ([webpack_throws_iff]); the specification is silent on a [resolve]
    that is a primitive, which the code silently ignores
    ([webpack_ignores_primitive_resolve]), on an [isServer] that is not a
    boolean, on a [resolve] that is inherited, which the code updates
    in the prototype ([webpack_chain_inherited]), and on settings that
    are frozen or not extensible, on which the hook reports success
    without installing the table ([webpack_frozen_silent]).

    ** Fuel and bounds

    [reify n] follows references to depth [n] and answers [TCut] below; it
    is total, so heaps with cycles are read too.  Theorems about [reify]
    are stated for every [n]: a value built by a literal reads as the tree
    of the literal cut at depth [n] ([builds_reify]), and cutting at the
    depth of the literal or more cuts nothing ([builds_truncate]).  The
    depth of [nextConfig] is 5 (configuration, [experimental],
    [swcPlugins], the pair, its options object); [nextConfig_depth] shows
    that 5 is enough and 4 is not.  [Lifecycle.run n] takes at most [n]
    steps; [measure] counts the steps a state has left (one for the load,
    one per pass that remains, one to finish), [step_measure] shows that
    every step lowers it, and [run] with fuel [measure s], that is
    [length passes + 2] from the start of a build, ends in a state that
    has no step ([run_final]).  [Proto.chain_get n] follows at most [n]
    prototypes and answers [None] when they were not enough; a chain
    without cycle visits each object that has a prototype at most once,
    so [size proto] is enough ([chain_get_fuel]) and more fuel does not
    change an answer ([chain_get_le]); the theorems on the hook read
    along the chain are stated at every fuel from [size proto] on.  The
    other operations use no
    fuel: each is a total function.  Numbers are the integers
    and NaN: infinities and non-integral doubles, all truthy, are not
    represented, nor are symbols and big integers.

    ** Not modelled

    Accessor properties, proxies, single properties made non-writable,
    and the wrapper prototypes of primitives (a read on a primitive other
    than undefined and null answers undefined): the model reads and
    writes data properties of ordinary objects, which is what the keys
    the program touches ([isServer], [resolve], [fallback], [exports])
    are on the objects the host passes.  Prototype chains are followed in
    [Proto] only, for the two reads of the hook, and objects that refuse
    assignments appear in [Integrity] only, for the assignment of line
    17; the other files read own properties and write unconditionally,
    which [webpack_adequate] shows to be the same thing when no prototype
    defines the key read and the object written accepts the key.  A
    prototype that is no object of the heap ends a chain, as [null]
    does.  The objects the literals create have no entry in [proto] and
    are extensible: their prototypes are the built-in ones, which define
    none of the keys the program reads.  A function value is an object
    that carries the name of its code and no property: the own [length]
    and [name] of a function and the scope it captures (the hook refers
    to none of its free variables) are not represented.  [NextConfig_ty]
    follows the framework in making every field optional, so it
    constrains the fields that are present and not which ones are.
    The enumeration order of properties.  The message text of exceptions
    (only the operation that threw is recorded).  Of the host, only what
    section 6 of the specification says of it is modelled: the bundler,
    the image optimiser, the compiler plugin, file discovery and the other
    arguments a real host passes to the hook are external to the
    repository. *)

From Stdlib Require Import Ascii.
From stdpp Require Import base option gmap fin_maps strings pretty.

(** ** The state-and-exception monad *)

Definition SE (S E A : Type) : Type := S → (E + A) * S.

Definition se_ret {S E A} (x : A) : SE S E A := λ s, (inr x, s).

Definition se_throw {S E A} (e : E) : SE S E A := λ s, (inl e, s).

Definition se_bind {S E A B} (m : SE S E A) (f : A → SE S E B) : SE S E B :=
  λ s, match m s with
       | (inr x, s') => f x s'
       | (inl e, s') => (inl e, s')
       end.

Definition se_get {S E} : SE S E S := λ s, (inr s, s).

Definition se_put {S E} (s : S) : SE S E unit := λ _, (inr tt, s).

Declare Scope se_scope.
Delimit Scope se_scope with se.
Notation "'let*' x := m 'in' k" := (se_bind m (λ x, k))
  (at level 10, x name, m at level 100, k at level 200) : se_scope.
Notation "m1 ;;; m2" := (se_bind m1 (λ _, m2))
  (at level 100, m2 at level 200, right associativity) : se_scope.
Open Scope se_scope.

(** A run is a normal completion. *)
Definition se_ok {S E A} (r : (E + A) * S) : Prop := is_Some (match r.1 with inr x => Some x | inl _ => None end).

Create HintDb js discriminated.
Create Rewrite HintDb js_rw.

(** ** Tactics *)

Ltac se_simpl := unfold se_bind, se_ret, se_throw, se_get, se_put in *; simpl in *.

(** Case analysis on the outcome of the first run that blocks the goal. *)
Ltac case_run :=
  match goal with
  | |- context [match ?m ?s with (_, _) => _ end] =>
      let r := fresh "r" in let s' := fresh "s'" in let E := fresh "Erun" in
      destruct (m s) as [r s'] eqn:E; destruct r
  end.

(** ** Laws of the monad, pointwise *)

Section se_laws.
Context {S E : Type}.

Lemma se_bind_ret_l {A B} (x : A) (f : A → SE S E B) s :
  (let* y := se_ret x in f y) s = f x s.
Proof. reflexivity. Qed.

Lemma se_bind_ret_r {A} (m : SE S E A) s :
  (let* y := m in se_ret y) s = m s.
Proof. se_simpl. by destruct (m s) as [[?|?] ?]. Qed.

Lemma se_bind_assoc {A B C} (m : SE S E A) (f : A → SE S E B) (g : B → SE S E C) s :
  (let* y := (let* x := m in f x) in g y) s = (let* x := m in let* y := f x in g y) s.
Proof. se_simpl. by destruct (m s) as [[?|?] ?]. Qed.

Lemma se_bind_ret_r_snd {A B} (m : SE S E A) (f : A → B) s :
  ((let* y := m in se_ret (f y)) s).2 = (m s).2.
Proof. se_simpl. by destruct (m s) as [[?|?] ?]. Qed.

Lemma se_bind_ret_r_fst {A B} (m : SE S E A) (f : A → B) s :
  ((let* y := m in se_ret (f y)) s).1 = sum_map id f (m s).1.
Proof. se_simpl. by destruct (m s) as [[?|?] ?]. Qed.

Lemma se_bind_inr {A B} (m : SE S E A) (f : A → SE S E B) s x s' :
  m s = (inr x, s') → (let* y := m in f y) s = f x s'.
Proof. intros Hm. se_simpl. by rewrite Hm. Qed.

Lemma se_bind_inl {A B} (m : SE S E A) (f : A → SE S E B) s e s' :
  m s = (inl e, s') → (let* y := m in f y) s = (inl e, s').
Proof. intros Hm. se_simpl. by rewrite Hm. Qed.

Lemma se_bind_inr_inv {A B} (m : SE S E A) (f : A → SE S E B) s y s'' :
  (let* x := m in f x) s = (inr y, s'') →
  ∃ x s', m s = (inr x, s') ∧ f x s' = (inr y, s'').
Proof. se_simpl. destruct (m s) as [[e|x] s']; [done | eauto]. Qed.

Lemma se_bind_inl_inv {A B} (m : SE S E A) (f : A → SE S E B) s e s'' :
  (let* x := m in f x) s = (inl e, s'') →
  m s = (inl e, s'') ∨ ∃ x s', m s = (inr x, s') ∧ f x s' = (inl e, s'').
Proof. se_simpl. destruct (m s) as [[e'|x] s']; [left; congruence | eauto]. Qed.

Lemma se_ok_inr {A} (x : A) (s : S) : se_ok (E := E) (inr x, s).
Proof. by eexists. Qed.

Lemma se_ok_inl {A} (e : E) (s : S) : ¬ se_ok (A := A) (inl e, s).
Proof. by intros [? ?]. Qed.

End se_laws.

(** ** Properties of the state that a computation maintains

    [se_preserves P m]: [m] leaves a state in [P] when it starts in one,
    whether it completes or throws.  [se_grows R m]: the state [m] leaves
    is related by [R] to the state it started in. *)

Definition se_preserves {S E A} (P : S → Prop) (m : SE S E A) : Prop :=
  ∀ s, P s → P (m s).2.

Definition se_grows {S E A} (R : relation S) (m : SE S E A) : Prop :=
  ∀ s, R s (m s).2.

Section se_maintains.
Context {S E : Type} (P : S → Prop) (R : relation S).

Lemma se_preserves_ret {A} (x : A) : se_preserves (E := E) P (se_ret x).
Proof. by intros s. Qed.

Lemma se_preserves_throw {A} (e : E) : se_preserves (A := A) P (se_throw e).
Proof. by intros s. Qed.

Lemma se_preserves_bind {A B} (m : SE S E A) (f : A → SE S E B) :
  se_preserves P m → (∀ x, se_preserves P (f x)) → se_preserves P (let* x := m in f x).
Proof.
  intros Hm Hf s Hs. specialize (Hm s Hs). unfold se_bind.
  destruct (m s) as [[e|x] s']; [done | by apply Hf].
Qed.

Lemma se_grows_ret `{!Reflexive R} {A} (x : A) : se_grows (E := E) R (se_ret x).
Proof. by intros s. Qed.

Lemma se_grows_bind `{!Transitive R} {A B} (m : SE S E A) (f : A → SE S E B) :
  se_grows R m → (∀ x, se_grows R (f x)) → se_grows R (let* x := m in f x).
Proof.
  intros Hm Hf s. specialize (Hm s). unfold se_bind.
  destruct (m s) as [[e|x] s']; [done|]. etrans; [done | apply Hf].
Qed.

End se_maintains.

#[export] Hint Resolve se_ok_inr : js.
#[export] Hint Rewrite @se_bind_ret_l @se_bind_ret_r @se_bind_assoc : js_rw.

(** ** Fresh keys of a finite map *)

Section fresh.
Context {V : Type}.
Implicit Types (m : gmap positive V).

Lemma lookup_fresh m : m !! fresh (dom m) = None.
Proof. apply not_elem_of_dom, is_fresh. Qed.

Lemma fresh_ne m l : is_Some (m !! l) → l ≠ fresh (dom m).
Proof. intros [v Hl] ->. by rewrite lookup_fresh in Hl. Qed.

Lemma insert_fresh_subseteq m v : m ⊆ <[fresh (dom m) := v]> m.
Proof. apply insert_subseteq, lookup_fresh. Qed.

Lemma lookup_insert_fresh_old m v l w :
  m !! l = Some w → <[fresh (dom m) := v]> m !! l = Some w.
Proof. intros Hl. rewrite lookup_insert_ne; [done | apply not_eq_sym, fresh_ne; eauto]. Qed.

End fresh.

#[export] Hint Resolve lookup_fresh insert_fresh_subseteq lookup_insert_fresh_old : js.

(** ** Decimal names of indices *)

(** The decimal notation of a number does not start with a character that
    is not a digit. *)
Lemma pretty_N_go_head (c : ascii) x s s' :
  (∀ d, pretty_N_char d ≠ c) → s ≠ String c s' → pretty_N_go x s ≠ String c s'.
Proof.
  intros Hc. revert s. induction (N.lt_wf_0 x) as [x _ IH]; intros s Hs.
  assert (x = 0 ∨ 0 < x)%N as [->|Hx] by lia; [by rewrite pretty_N_go_0|].
  rewrite pretty_N_go_step by done. apply IH; [by apply N.div_lt|].
  intros [= Hd _]. by apply Hc in Hd.
Qed.

Lemma pretty_nat_head (c : ascii) (n : nat) s :
  (∀ d, pretty_N_char d ≠ c) → pretty n ≠ String c s.
Proof.
  intros Hc. unfold pretty, pretty_nat, pretty, pretty_N. case_decide.
  - intros [= Hd _]. by apply (Hc 0%N).
  - by apply pretty_N_go_head.
Qed.

Lemma pretty_nat_ne_length (n : nat) : pretty n ≠ "length".
Proof. apply pretty_nat_head. intros d. unfold pretty_N_char. by repeat case_match. Qed.

#[export] Hint Resolve pretty_nat_ne_length : js.
