(* ===== verification/JsValue.v ===== *)
(** * JavaScript values

    The values the program handles: the primitives and references to heap
    objects.  [to_boolean] is the ToBoolean conversion of ECMAScript, which
    the condition [!isServer] of the hook applies to whatever the bundler
    passes; [nullish] tells the two values on which a property access
    throws. *)

From stdpp Require Import base decidable strings numbers list.
From S2P Require Import Prelude.

(** Locations of heap objects. *)
Abbreviation loc := positive (only parsing).

(** Numbers: the integers and NaN (see the header of [Prelude] for what is
    left out). *)
Inductive number :=
| NInt (z : Z)
| NNaN.

Inductive val :=
| VUndefined
| VNull
| VBool (b : bool)
| VNum (n : number)
| VStr (s : string)
| VRef (l : loc).

#[export] Instance number_eq_dec : EqDecision number.
Proof. solve_decision. Defined.

#[export] Instance val_eq_dec : EqDecision val.
Proof. solve_decision. Defined.

#[export] Instance val_inhabited : Inhabited val := populate VUndefined.

(** ToBoolean (ECMA-262, 7.1.2): undefined, null, false, 0, NaN and the
    empty string are falsy; every other value, every object included, is
    truthy. *)
Definition to_boolean (v : val) : bool :=
  match v with
  | VUndefined | VNull => false
  | VBool b => b
  | VNum (NInt z) => negb (Z.eqb z 0)
  | VNum NNaN => false
  | VStr s => negb (String.eqb s "")
  | VRef _ => true
  end.

(** The values on which [v.k] and [{ k } = v] throw a TypeError. *)
Definition nullish (v : val) : bool :=
  match v with
  | VUndefined | VNull => true
  | _ => false
  end.

Definition is_ref (v : val) : bool :=
  match v with
  | VRef _ => true
  | _ => false
  end.

(** The falsy values, as a list. *)
Definition falsy_values : list val :=
  [VUndefined; VNull; VBool false; VNum (NInt 0); VNum NNaN; VStr ""].

(** ** Lemmas *)

Lemma to_boolean_false_iff v : to_boolean v = false ↔ v ∈ falsy_values.
Proof.
  unfold falsy_values. rewrite !elem_of_cons, elem_of_nil. split.
  - destruct v as [| |[|]|[z|]|s|l]; simpl; try naive_solver.
    + rewrite negb_false_iff, Z.eqb_eq. naive_solver.
    + rewrite negb_false_iff, String.eqb_eq. naive_solver.
  - intros [->|[->|[->|[->|[->|[->|[]]]]]]]; reflexivity.
Qed.

Lemma to_boolean_ref l : to_boolean (VRef l) = true.
Proof. reflexivity. Qed.

Lemma nullish_falsy v : nullish v = true → to_boolean v = false.
Proof. by destruct v. Qed.

Lemma nullish_true_iff v : nullish v = true ↔ v = VUndefined ∨ v = VNull.
Proof. destruct v; naive_solver. Qed.

Lemma nullish_ref l : nullish (VRef l) = false.
Proof. reflexivity. Qed.

Lemma is_ref_true_iff v : is_ref v = true ↔ ∃ l, v = VRef l.
Proof. destruct v; naive_solver. Qed.

Lemma is_ref_not_nullish v : is_ref v = true → nullish v = false.
Proof. by destruct v. Qed.

#[export] Hint Resolve nullish_falsy is_ref_not_nullish : js.
#[export] Hint Rewrite to_boolean_ref nullish_ref : js_rw.
