(* ===== verification/JsHeap.v ===== *)
(** * Objects, the heap and the primitive operations

    An object is a class tag and a finite map of own data properties; the
    heap maps locations to objects.  The operations are those the program
    performs on objects: allocation (every literal), property read
    ([config.resolve]), property assignment ([... .fallback = ...],
    [module.exports = ...]) and the destructuring of a parameter
    ([{ isServer }]).  Each runs in [SE heap exn] and returns the heap with
    its result, so that a thrown exception carries the heap at the point of
    the throw.

    [heap_wf] says that no reference dangles; under it the operations never
    answer [Stuck], the result the model gives to a read or write through a
    location that holds no object (which no JavaScript program can reach). *)

From stdpp Require Import base option gmap fin_maps strings.
From S2P Require Import Prelude JsValue.

(** ** Data *)

Inductive obj_class :=
| ClsObject
| ClsArray
| ClsFunction (code : string).

Record obj := Obj {
  obj_class_of : obj_class;
  obj_props : gmap string val;
}.

Abbreviation heap := (gmap loc obj).

(** The operation that threw. *)
Inductive reason :=
| ReadOfNullish (k : string)
| WriteOfNullish (k : string)
| DestructureOfNullish
| NotCallable.

Inductive exn :=
| TypeError (r : reason)
| Stuck.

Abbreviation JS := (SE heap exn).

#[export] Instance obj_class_eq_dec : EqDecision obj_class.
Proof. solve_decision. Defined.

#[export] Instance obj_eq_dec : EqDecision obj.
Proof. solve_decision. Defined.

#[export] Instance reason_eq_dec : EqDecision reason.
Proof. solve_decision. Defined.

#[export] Instance exn_eq_dec : EqDecision exn.
Proof. solve_decision. Defined.

(** ** Operations on one object *)

(** Reading an own property; an absent property reads as [undefined]. *)
Definition obj_get (o : obj) (k : string) : val :=
  default VUndefined (obj_props o !! k).

Definition obj_set (k : string) (x : val) (o : obj) : obj :=
  Obj (obj_class_of o) (<[k := x]> (obj_props o)).

(** ** Operations on the heap *)

(** A new object at a location the heap does not use. *)
Definition alloc (o : obj) : JS val :=
  λ h, let l := fresh (dom h) in (inr (VRef l), <[l := o]> h).

(** [v.k]: a TypeError on undefined and null, [undefined] on the other
    primitives, the own property on an object. *)
Definition get_prop (v : val) (k : string) : JS val :=
  λ h, match v with
       | VUndefined | VNull => (inl (TypeError (ReadOfNullish k)), h)
       | VRef l =>
           match h !! l with
           | Some o => (inr (obj_get o k), h)
           | None => (inl Stuck, h)
           end
       | _ => (inr VUndefined, h)
       end.

(** [v.k = x] in sloppy mode (the module has no "use strict" directive): a
    TypeError on undefined and null, silently nothing on the other
    primitives, the property written in place on an object. *)
Definition set_prop (v : val) (k : string) (x : val) : JS unit :=
  λ h, match v with
       | VUndefined | VNull => (inl (TypeError (WriteOfNullish k)), h)
       | VRef l =>
           match h !! l with
           | Some o => (inr tt, <[l := obj_set k x o]> h)
           | None => (inl Stuck, h)
           end
       | _ => (inr tt, h)
       end.

(** The binding pattern [{ k }] applied to [v]: a TypeError when [v] is
    undefined or null, the property [k] of [v] otherwise. *)
Definition destructure (v : val) (k : string) : JS val :=
  if nullish v then se_throw (TypeError DestructureOfNullish) else get_prop v k.

(** What [v.k] evaluates to when it does not throw, as a function of the
    heap. *)
Definition peek (h : heap) (v : val) (k : string) : val :=
  match v with
  | VRef l => from_option (λ o, obj_get o k) VUndefined (h !! l)
  | _ => VUndefined
  end.

(** ** Well-formedness: no dangling reference *)

Definition val_wf (h : heap) (v : val) : Prop :=
  match v with
  | VRef l => is_Some (h !! l)
  | _ => True
  end.

Definition obj_wf (h : heap) (o : obj) : Prop :=
  map_Forall (λ _ v, val_wf h v) (obj_props o).

Definition heap_wf (h : heap) : Prop :=
  map_Forall (λ _ o, obj_wf h o) h.

#[export] Instance val_wf_dec h v : Decision (val_wf h v).
Proof. destruct v; simpl; apply _. Defined.

#[export] Instance obj_wf_dec h o : Decision (obj_wf h o).
Proof. unfold obj_wf. apply _. Defined.

#[export] Instance heap_wf_dec h : Decision (heap_wf h).
Proof. unfold heap_wf. apply _. Defined.

(** A heap that holds an object wherever another does. *)
Definition dom_le (h h' : heap) : Prop := dom h ⊆ dom h'.

#[export] Instance dom_le_preorder : PreOrder dom_le.
Proof. unfold dom_le. split; [by intros h | intros h1 h2 h3; set_solver]. Qed.

(** An object all of whose properties are primitives. *)
Definition obj_flat (o : obj) : Prop :=
  map_Forall (λ _ v, is_ref v = false) (obj_props o).

#[export] Instance obj_flat_dec o : Decision (obj_flat o).
Proof. unfold obj_flat. apply _. Defined.

(** ** Lemmas: one object *)

Lemma obj_get_set_eq k x o : obj_get (obj_set k x o) k = x.
Proof. unfold obj_get, obj_set. simpl. by rewrite lookup_insert_eq. Qed.

Lemma obj_get_set_ne k k' x o : k ≠ k' → obj_get (obj_set k x o) k' = obj_get o k'.
Proof. intros. unfold obj_get, obj_set. simpl. by rewrite lookup_insert_ne. Qed.

Lemma obj_class_of_set k x o : obj_class_of (obj_set k x o) = obj_class_of o.
Proof. reflexivity. Qed.

Lemma obj_set_set k x y o : obj_set k y (obj_set k x o) = obj_set k y o.
Proof. unfold obj_set. simpl. by rewrite insert_insert_eq. Qed.

#[export] Hint Rewrite obj_get_set_eq obj_class_of_set obj_set_set : js_rw.
#[export] Hint Rewrite obj_get_set_ne using congruence : js_rw.

(** ** Lemmas: runs of the operations *)

Section runs.
Implicit Types (h : heap) (o : obj) (v x : val) (k : string) (l : loc).

Lemma alloc_run o h :
  alloc o h = (inr (VRef (fresh (dom h))), <[fresh (dom h) := o]> h).
Proof. reflexivity. Qed.

Lemma get_prop_ref l k h o :
  h !! l = Some o → get_prop (VRef l) k h = (inr (obj_get o k), h).
Proof. intros Hl. unfold get_prop. by rewrite Hl. Qed.

Lemma get_prop_nullish v k h :
  nullish v = true → get_prop v k h = (inl (TypeError (ReadOfNullish k)), h).
Proof. by destruct v. Qed.

Lemma get_prop_prim v k h :
  nullish v = false → is_ref v = false → get_prop v k h = (inr VUndefined, h).
Proof. by destruct v. Qed.

Lemma set_prop_ref l k x h o :
  h !! l = Some o → set_prop (VRef l) k x h = (inr tt, <[l := obj_set k x o]> h).
Proof. intros Hl. unfold set_prop. by rewrite Hl. Qed.

Lemma set_prop_nullish v k x h :
  nullish v = true → set_prop v k x h = (inl (TypeError (WriteOfNullish k)), h).
Proof. by destruct v. Qed.

Lemma set_prop_prim v k x h :
  nullish v = false → is_ref v = false → set_prop v k x h = (inr tt, h).
Proof. by destruct v. Qed.

Lemma destructure_nullish v k h :
  nullish v = true → destructure v k h = (inl (TypeError DestructureOfNullish), h).
Proof. intros Hv. unfold destructure. by rewrite Hv. Qed.

Lemma destructure_get v k h :
  nullish v = false → destructure v k h = get_prop v k h.
Proof. intros Hv. unfold destructure. by rewrite Hv. Qed.

Lemma get_prop_peek v k h :
  nullish v = false → val_wf h v → get_prop v k h = (inr (peek h v k), h).
Proof. destruct v; try done. simpl. by intros _ [o ->]. Qed.

Lemma destructure_peek v k h :
  nullish v = false → val_wf h v → destructure v k h = (inr (peek h v k), h).
Proof. intros Hv Hw. rewrite destructure_get by done. by apply get_prop_peek. Qed.

Lemma peek_ref l k h o : h !! l = Some o → peek h (VRef l) k = obj_get o k.
Proof. intros Hl. simpl. by rewrite Hl. Qed.

Lemma peek_insert_fresh h v k o :
  val_wf h v → peek (<[fresh (dom h) := o]> h) v k = peek h v k.
Proof.
  destruct v as [| | | | |l]; try done. intros Hl. simpl.
  by rewrite lookup_insert_ne by by apply not_eq_sym, fresh_ne.
Qed.

(** Reading never changes the heap. *)
Lemma get_prop_heap v k h r h' : get_prop v k h = (r, h') → h' = h.
Proof. unfold get_prop. repeat case_match; congruence. Qed.

Lemma destructure_heap v k h r h' : destructure v k h = (r, h') → h' = h.
Proof.
  unfold destructure. destruct (nullish v); [se_simpl; congruence | apply get_prop_heap].
Qed.

End runs.

(** ** Lemmas: well-formedness *)

Section wf.
Implicit Types (h : heap) (o : obj) (v x : val) (k : string) (l : loc).

Lemma val_wf_mono h h' v : dom h ⊆ dom h' → val_wf h v → val_wf h' v.
Proof.
  intros Hd. destruct v; simpl; try done.
  rewrite <-!elem_of_dom. set_solver.
Qed.

Lemma obj_wf_mono h h' o : dom h ⊆ dom h' → obj_wf h o → obj_wf h' o.
Proof. intros Hd Ho k v Hk. eapply val_wf_mono; [done | by eapply Ho]. Qed.

Lemma obj_wf_flat h o : obj_flat o → obj_wf h o.
Proof. intros Ho k v Hk. apply Ho in Hk. by destruct v. Qed.

Lemma obj_wf_set h k x o : obj_wf h o → val_wf h x → obj_wf h (obj_set k x o).
Proof. intros Ho Hx. unfold obj_wf, obj_set. simpl. by apply map_Forall_insert_2. Qed.

Lemma obj_wf_get h k o : obj_wf h o → val_wf h (obj_get o k).
Proof.
  intros Ho. unfold obj_get. destruct (obj_props o !! k) as [v|] eqn:Hk; [|done].
  by eapply Ho.
Qed.

Lemma val_wf_peek h v k : heap_wf h → val_wf h (peek h v k).
Proof.
  intros Hh. destruct v as [| | | | |l]; try done. simpl.
  destruct (h !! l) as [o|] eqn:Hl; [|done]. apply obj_wf_get. by eapply Hh.
Qed.

Lemma heap_wf_lookup h l o : heap_wf h → h !! l = Some o → obj_wf h o.
Proof. intros Hh Hl. by eapply Hh. Qed.

Lemma heap_wf_empty : heap_wf ∅.
Proof. apply map_Forall_empty. Qed.

(** Writing an object, new or old, whose references are allocated. *)
Lemma heap_wf_insert h l o :
  heap_wf h → obj_wf (<[l := o]> h) o → heap_wf (<[l := o]> h).
Proof.
  intros Hh Ho. apply map_Forall_insert_2; [done|].
  intros l' o' Hl'. eapply obj_wf_mono; [|by eapply Hh].
  rewrite dom_insert. set_solver.
Qed.

Lemma heap_wf_alloc h o : heap_wf h → obj_wf h o → heap_wf (<[fresh (dom h) := o]> h).
Proof.
  intros Hh Ho. apply heap_wf_insert; [done|].
  eapply obj_wf_mono; [|done]. rewrite dom_insert. set_solver.
Qed.

Lemma heap_wf_set h l k x o :
  heap_wf h → h !! l = Some o → val_wf h x → heap_wf (<[l := obj_set k x o]> h).
Proof.
  intros Hh Hl Hx. apply heap_wf_insert; [done|].
  eapply obj_wf_mono; [|apply obj_wf_set; [by eapply heap_wf_lookup | done]].
  rewrite dom_insert. set_solver.
Qed.

Lemma val_wf_fresh h o : val_wf (<[fresh (dom h) := o]> h) (VRef (fresh (dom h))).
Proof. simpl. rewrite lookup_insert_eq. by eexists. Qed.

End wf.

#[export] Hint Resolve heap_wf_empty heap_wf_alloc heap_wf_set heap_wf_lookup
  obj_wf_flat obj_wf_set obj_wf_get val_wf_fresh val_wf_peek : js.
