(* ===== verification/Reify.v ===== *)
(** * Reading values structurally, and comparing heaps by what can be read

    Locations are not observable in JavaScript: a program sees the
    properties of an object and, through them, further objects.  [reify n h
    v] is the structure seen from [v] in [h] down to depth [n], as a finite
    tree; below that depth a reference reads as [TCut].  It is total, so
    cyclic heaps are read too.

    Two heaps present the same structure when a relation on locations is a
    simulation between them ([heap_sim]); [reify_sim] shows that related
    values then reify alike at every depth.  [deep_eq] is equality of all
    reifications, the equivalence under which the idempotence of the hook
    and the repeatability of the configuration literal hold. *)

From stdpp Require Import base option gmap fin_maps strings pretty list.
From S2P Require Import Prelude JsValue JsHeap.

(** ** Trees *)

#[warnings="-register-all"]
Inductive tree :=
| TUndefined
| TNull
| TBool (b : bool)
| TNum (n : number)
| TStr (s : string)
| TObject (c : obj_class) (fs : gmap string tree)
| TCut
| TDangling.

Fixpoint reify (n : nat) (h : heap) (v : val) : tree :=
  match v with
  | VUndefined => TUndefined
  | VNull => TNull
  | VBool b => TBool b
  | VNum x => TNum x
  | VStr s => TStr s
  | VRef l =>
      match n with
      | 0 => TCut
      | S n' =>
          match h !! l with
          | Some o => TObject (obj_class_of o) (reify n' h <$> obj_props o)
          | None => TDangling
          end
      end
  end.

(** The property [k] of a tree; absent properties read as [undefined], as
    they do on objects. *)
Definition tree_get (t : tree) (k : string) : tree :=
  match t with
  | TObject _ fs => default TUndefined (fs !! k)
  | _ => TUndefined
  end.

(** Following a path of property names. *)
Definition tree_path (t : tree) (ks : list string) : tree :=
  foldl tree_get t ks.

(** The elements of the tree of an array, in order. *)
Definition tree_elems (t : tree) : option (list tree) :=
  match t with
  | TObject ClsArray fs =>
      match fs !! "length" with
      | Some (TNum (NInt z)) =>
          Some ((λ i : nat, default TUndefined (fs !! pretty i)) <$> seq 0 (Z.to_nat z))
      | _ => None
      end
  | _ => None
  end.

(** The string a tree is, if it is one. *)
Definition tree_str (t : tree) : option string :=
  match t with
  | TStr s => Some s
  | _ => None
  end.

(** A tree cut at depth [n]. *)
Fixpoint truncate (n : nat) (t : tree) : tree :=
  match t with
  | TObject c fs =>
      match n with
      | 0 => TCut
      | S n' => TObject c (truncate n' <$> fs)
      end
  | TDangling =>
      match n with
      | 0 => TCut
      | S _ => TDangling
      end
  | _ => t
  end.

(** Equality of everything that can be read from a value. *)
Definition deep_eq (x y : heap * val) : Prop :=
  ∀ n, reify n x.1 x.2 = reify n y.1 y.2.

Infix "≈ᵈ" := deep_eq (at level 70, no associativity) : stdpp_scope.

#[export] Instance deep_eq_equivalence : Equivalence deep_eq.
Proof.
  split.
  - by intros x n.
  - by intros x y Hxy n.
  - intros x y z Hxy Hyz n. by rewrite Hxy.
Qed.

#[export] Instance reify_proper n :
  Proper (deep_eq ==> (=)) (λ x : heap * val, reify n x.1 x.2).
Proof. by intros x y Hxy. Qed.

(** ** Simulations between heaps *)

Section sim.
Context (R : loc → loc → Prop).

Definition val_rel (v1 v2 : val) : Prop :=
  match v1, v2 with
  | VRef l1, VRef l2 => R l1 l2
  | VRef _, _ | _, VRef _ => False
  | _, _ => v1 = v2
  end.

Definition obj_rel (o1 o2 : obj) : Prop :=
  obj_class_of o1 = obj_class_of o2 ∧
  ∀ k, option_Forall2 val_rel (obj_props o1 !! k) (obj_props o2 !! k).

Definition heap_sim (h1 h2 : heap) : Prop :=
  ∀ l1 l2, R l1 l2 → option_Forall2 obj_rel (h1 !! l1) (h2 !! l2).

Lemma val_rel_prim v : is_ref v = false → val_rel v v.
Proof. by destruct v. Qed.

Lemma obj_rel_set k x1 x2 o1 o2 :
  obj_rel o1 o2 → val_rel x1 x2 → obj_rel (obj_set k x1 o1) (obj_set k x2 o2).
Proof.
  intros [Hc Hp] Hx. split; [done|]. intros k'. unfold obj_set. simpl.
  destruct (decide (k = k')) as [->|Hne].
  - rewrite !lookup_insert_eq. by constructor.
  - rewrite !lookup_insert_ne by done. apply Hp.
Qed.

(** An object is related to itself when its references are. *)
Lemma obj_rel_diag o :
  (∀ k l, obj_props o !! k = Some (VRef l) → R l l) → obj_rel o o.
Proof.
  intros Ho. split; [done|]. intros k.
  destruct (obj_props o !! k) as [v|] eqn:Hk; constructor.
  destruct v; try done. simpl. eauto.
Qed.

Lemma obj_rel_flat o : obj_flat o → obj_rel o o.
Proof. intros Ho. apply obj_rel_diag. intros k l Hk. by apply Ho in Hk. Qed.

Lemma val_rel_nullish v1 v2 : val_rel v1 v2 → nullish v1 = nullish v2.
Proof. destruct v1, v2; simpl; intros; by simplify_eq. Qed.

Lemma val_rel_to_boolean v1 v2 : val_rel v1 v2 → to_boolean v1 = to_boolean v2.
Proof. destruct v1, v2; simpl; intros; by simplify_eq. Qed.

(** Related objects have related properties; an absent property reads as
    [undefined] on both sides. *)
Lemma obj_rel_get o1 o2 k : obj_rel o1 o2 → val_rel (obj_get o1 k) (obj_get o2 k).
Proof. intros [_ Hp]. unfold obj_get. by destruct (Hp k). Qed.

Lemma peek_rel h1 h2 v1 v2 k :
  heap_sim h1 h2 → val_rel v1 v2 → val_rel (peek h1 v1 k) (peek h2 v2 k).
Proof.
  intros Hsim Hv. destruct v1 as [| | | | |l1], v2 as [| | | | |l2]; try done. simpl.
  destruct (Hsim l1 l2 Hv) as [o1 o2 Ho|]; [by apply obj_rel_get | done].
Qed.

Lemma val_wf_rel h1 h2 v1 v2 :
  heap_sim h1 h2 → val_rel v1 v2 → val_wf h1 v1 → val_wf h2 v2.
Proof.
  intros Hsim Hv. destruct v1 as [| | | | |l1], v2 as [| | | | |l2]; try done. simpl.
  destruct (Hsim l1 l2 Hv); [by eexists | by intros [? ?]].
Qed.

(** Related values of similar heaps reify alike, at every depth. *)
Lemma reify_sim h1 h2 :
  heap_sim h1 h2 → ∀ n v1 v2, val_rel v1 v2 → reify n h1 v1 = reify n h2 v2.
Proof.
  intros Hsim n. induction n as [|n IH]; intros v1 v2 Hv;
    destruct v1 as [| | | | |l1], v2 as [| | | | |l2]; simpl in *; try by simplify_eq.
  destruct (Hsim l1 l2 Hv) as [o1 o2 [Hc Hp]|]; [|done].
  rewrite Hc. f_equal. apply map_eq. intros k. rewrite !lookup_fmap.
  destruct (Hp k) as [x1 x2 Hx|]; simpl; [|done]. f_equal. by apply IH.
Qed.

End sim.

(** ** Reading through unchanged objects *)

Section agree.
Implicit Types (h : heap) (v : val).

(** A heap that keeps the objects of a well-formed heap reads the same from
    every value of that heap. *)
Lemma reify_agree h h' v n :
  heap_wf h → (∀ l o, h !! l = Some o → h' !! l = Some o) → val_wf h v →
  reify n h' v = reify n h v.
Proof.
  intros Hh Hk Hv.
  apply (reify_sim (λ l1 l2, l1 = l2 ∧ is_Some (h !! l1))).
  - intros l ? [<- [o Hl]]. rewrite Hl, (Hk _ _ Hl). constructor.
    apply obj_rel_diag. intros k l' Hk'. split; [done|].
    by apply (heap_wf_lookup _ _ _ Hh Hl k (VRef l')).
  - by destruct v.
Qed.

Lemma reify_subseteq h h' v n :
  heap_wf h → h ⊆ h' → val_wf h v → reify n h' v = reify n h v.
Proof. intros Hh Hsub. apply reify_agree; [done|]. intros l o Hl. by eapply lookup_weaken. Qed.

Lemma deep_eq_subseteq h h' v : heap_wf h → h ⊆ h' → val_wf h v → (h', v) ≈ᵈ (h, v).
Proof. intros Hh Hsub Hv n. by apply reify_subseteq. Qed.

Lemma reify_prim n h v : is_ref v = false → reify n h v = reify 0 ∅ v.
Proof. by destruct v, n. Qed.

(** The reading of an object whose properties are primitives. *)
Lemma reify_flat n h l o :
  h !! l = Some o → obj_flat o →
  reify (S n) h (VRef l) = TObject (obj_class_of o) (reify 0 ∅ <$> obj_props o).
Proof.
  intros Hl Ho. simpl. rewrite Hl. f_equal. apply map_fmap_ext.
  intros k v Hk. apply reify_prim. by eapply Ho.
Qed.

End agree.

(** ** Depth *)

(** Reading to a smaller depth is cutting a deeper reading. *)
Lemma reify_truncate n m h v : n ≤ m → truncate n (reify m h v) = reify n h v.
Proof.
  revert m v. induction n as [|n IH]; intros m v Hnm.
  - destruct v as [| | | | |l], m as [|m]; simpl; try done. by destruct (h !! l).
  - destruct m as [|m]; [lia|]. destruct v as [| | | | |l]; simpl; try done.
    destruct (h !! l) as [o|]; [|done]. f_equal.
    rewrite <-map_fmap_compose. apply map_fmap_ext. intros k x _. apply IH. lia.
Qed.

(** Readings that agree from some depth on agree at every depth. *)
Lemma deep_eq_from_depth d x y :
  (∀ n, d ≤ n → reify n x.1 x.2 = reify n y.1 y.2) → x ≈ᵈ y.
Proof.
  intros Hd n. destruct (decide (d ≤ n)) as [Hn|Hn]; [by apply Hd|].
  rewrite <-(reify_truncate n d x.1), <-(reify_truncate n d y.1) by lia.
  by rewrite Hd.
Qed.

(** ** Reading properties of a reified object *)

Lemma tree_get_reify n h l o k :
  h !! l = Some o → tree_get (reify (S n) h (VRef l)) k = reify n h (obj_get o k).
Proof.
  intros Hl. simpl. rewrite Hl. simpl. rewrite lookup_fmap. unfold obj_get.
  destruct (obj_props o !! k); [done | by destruct n].
Qed.

Lemma tree_get_reify_peek n h v k :
  val_wf h v → tree_get (reify (S n) h v) k = reify n h (peek h v k).
Proof.
  destruct v as [| | | | |l]; try by destruct n. intros [o Hl].
  rewrite (tree_get_reify _ _ _ _ _ Hl). simpl. by rewrite Hl.
Qed.

(** A value that reads as an object is a reference to an object of that
    class. *)
Lemma reify_object_inv n h v c fs :
  reify n h v = TObject c fs →
  ∃ l o, v = VRef l ∧ h !! l = Some o ∧ obj_class_of o = c.
Proof.
  destruct v as [| | | | |l], n as [|n]; try done. simpl.
  destruct (h !! l) as [o|] eqn:Hl; [|done]. intros [= <- _]. by exists l, o.
Qed.

#[export] Hint Resolve val_rel_prim obj_rel_flat obj_rel_set : js.
