(* ===== verification/Literal.v ===== *)
(** * Object, array and function literals

    A literal is evaluated the way ECMAScript prescribes: the object is
    created first, then the property definitions are evaluated from left to
    right and each value is stored in the object as soon as it is computed
    (13.2.5.4, 13.2.4.1).  A later definition of a key overrides an earlier
    one.  An array is an object of class [ClsArray] whose elements are the
    properties named by the decimal indices and whose [length] is kept one
    above the last index defined.

    Two judgments describe what a literal does in every heap: [builds m t
    d] (the value reads as the tree [t] from depth [d] on) and [allocs m k]
    (the heap grows by [k] objects).  Each has one rule per form of
    literal, and a tactic that applies them along the literal. *)

From stdpp Require Import base option gmap fin_maps strings pretty list.
From S2P Require Import Prelude JsValue JsHeap Reify.

(** ** Evaluation *)

(** The property definitions of a literal, stored into [l] in order. *)
Fixpoint define_fields (l : val) (fields : list (string * JS val)) : JS unit :=
  match fields with
  | [] => se_ret tt
  | (k, m) :: fs => let* v := m in set_prop l k v ;;; define_fields l fs
  end.

Definition make_object (c : obj_class) (init : gmap string val)
    (fields : list (string * JS val)) : JS val :=
  let* l := alloc (Obj c init) in
  define_fields l fields ;;;
  se_ret l.

(** [{ k1: e1, ..., kn: en }] *)
Definition obj_lit (fields : list (string * JS val)) : JS val :=
  make_object ClsObject ∅ fields.

(** The property definitions an array literal amounts to, from index [i]. *)
Fixpoint arr_fields (i : nat) (elems : list (JS val)) : list (string * JS val) :=
  match elems with
  | [] => []
  | m :: ms =>
      (pretty i, m) :: ("length", se_ret (VNum (NInt (Z.of_nat (S i))))) :: arr_fields (S i) ms
  end.

(** [[e0, ..., en]] *)
Definition arr_lit (elems : list (JS val)) : JS val :=
  make_object ClsArray {["length" := VNum (NInt 0)]} (arr_fields 0 elems).

(** A function expression: an object of class [ClsFunction] that names its
    code. *)
Definition fun_lit (code : string) : JS val :=
  alloc (Obj (ClsFunction code) ∅).

(** Property definitions whose values are constants. *)
Definition const_fields (kvs : list (string * val)) : list (string * JS val) :=
  (λ kv, (kv.1, se_ret kv.2)) <$> kvs.

(** The object after the definitions [kvs] have been stored into [o]. *)
Definition obj_set_all (kvs : list (string * val)) (o : obj) : obj :=
  foldl (λ o kv, obj_set kv.1 kv.2 o) o kvs.

(** ** Literals of constants *)

Section const.
Implicit Types (h : heap) (o : obj) (l : loc) (kvs : list (string * val)).

Lemma obj_class_of_set_all kvs o : obj_class_of (obj_set_all kvs o) = obj_class_of o.
Proof. revert o. induction kvs as [|[k v] kvs IH]; intros o; [done|]. apply (IH (obj_set k v o)). Qed.

Lemma obj_flat_set_all kvs o :
  obj_flat o → Forall (λ kv, is_ref kv.2 = false) kvs → obj_flat (obj_set_all kvs o).
Proof.
  revert o. induction kvs as [|[k v] kvs IH]; intros o Ho Hk; [done|].
  inv Hk. apply (IH (obj_set k v o)); [|done].
  unfold obj_flat, obj_set. simpl. by apply map_Forall_insert_2.
Qed.

Lemma define_fields_const l kvs h o :
  h !! l = Some o →
  define_fields (VRef l) (const_fields kvs) h = (inr tt, <[l := obj_set_all kvs o]> h).
Proof.
  revert h o. induction kvs as [|[k v] kvs IH]; intros h o Hl; simpl.
  - unfold se_ret. by rewrite insert_id.
  - rewrite se_bind_ret_l. erewrite se_bind_inr; [|by apply set_prop_ref].
    erewrite IH; [|by rewrite lookup_insert_eq]. by rewrite insert_insert_eq.
Qed.

Lemma make_object_const c init kvs h :
  make_object c init (const_fields kvs) h =
  (inr (VRef (fresh (dom h))), <[fresh (dom h) := obj_set_all kvs (Obj c init)]> h).
Proof.
  unfold make_object. erewrite se_bind_inr; [|apply alloc_run].
  erewrite se_bind_inr; [|by apply define_fields_const, lookup_insert_eq].
  unfold se_ret. by rewrite insert_insert_eq.
Qed.

End const.

(** ** What a literal builds

    [builds m t d]: in every heap, [m] completes normally, keeps every
    object of the heap, preserves well-formedness, and returns a value that
    reads as the tree [t] at every depth from [d] on, in the heap it leaves
    and in every heap that keeps the objects [m] allocated. *)

Definition keeps_new (h h' h'' : heap) : Prop :=
  ∀ l o, h !! l = None → h' !! l = Some o → h'' !! l = Some o.

Definition builds (m : JS val) (t : tree) (d : nat) : Prop :=
  ∀ h, ∃ v h',
    m h = (inr v, h') ∧ h ⊆ h' ∧ (heap_wf h → heap_wf h') ∧ val_wf h' v ∧
    (is_ref v = true → val_wf h v → False) ∧
    ∀ h'' n, d ≤ n → keeps_new h h' h'' → reify n h'' v = t.

Definition field_builds (d : nat) (f : string * JS val) (s : string * tree) : Prop :=
  f.1 = s.1 ∧ builds f.2 s.2 d.

(** The properties of the tree of a literal, from those of its fields. *)
Definition tree_set_all (specs : list (string * tree)) (fs : gmap string tree) : gmap string tree :=
  foldl (λ fs s, <[s.1 := s.2]> fs) fs specs.

(** The fields of the tree of an array literal, from index [i]. *)
Fixpoint arr_specs (i : nat) (ts : list tree) : list (string * tree) :=
  match ts with
  | [] => []
  | t :: ts => (pretty i, t) :: ("length", TNum (NInt (Z.of_nat (S i)))) :: arr_specs (S i) ts
  end.

(** The tree of an array whose elements are [ts]. *)
Definition array_tree (ts : list tree) : tree :=
  TObject ClsArray (tree_set_all (arr_specs 0 ts) {["length" := TNum (NInt 0)]}).

(** ** The tree of an array holds its elements, in order *)

Section array_tree.
Implicit Types (ts : list tree) (fs : gmap string tree) (i j : nat).

Lemma tree_set_all_arr ts i fs :
  fs !! "length" = Some (TNum (NInt (Z.of_nat i))) →
  let fs' := tree_set_all (arr_specs i ts) fs in
  fs' !! "length" = Some (TNum (NInt (Z.of_nat (i + length ts)))) ∧
  (∀ j, j < i → fs' !! pretty j = fs !! pretty j) ∧
  (∀ j, j < length ts → fs' !! pretty (i + j) = ts !! j).
Proof.
  revert i fs. induction ts as [|t ts IH]; intros i fs Hlen; simpl.
  { rewrite Nat.add_0_r. split_and!; [done.. | lia]. }
  destruct (IH (S i) (<["length" := TNum (NInt (Z.of_nat (S i)))]> (<[pretty i := t]> fs)))
    as (Hl & Hlow & Hup); [by rewrite lookup_insert_eq|].
  assert (∀ j, j ≠ i → pretty j ≠@{string} pretty i) as Hinj by (intros j Hj Heq; by apply (inj pretty) in Heq).
  split_and!.
  - rewrite Hl. do 3 f_equal. lia.
  - intros j Hj. rewrite Hlow by lia.
    rewrite lookup_insert_ne by (apply not_eq_sym, pretty_nat_ne_length).
    rewrite lookup_insert_ne; [done|]. apply not_eq_sym, Hinj. lia.
  - intros [|j] Hj.
    + rewrite Nat.add_0_r, Hlow by lia.
      rewrite lookup_insert_ne by (apply not_eq_sym, pretty_nat_ne_length).
      by rewrite lookup_insert_eq.
    + replace (i + S j) with (S i + j) by lia. apply Hup. lia.
Qed.

Lemma tree_elems_array_tree ts : tree_elems (array_tree ts) = Some ts.
Proof.
  unfold array_tree, tree_elems.
  destruct (tree_set_all_arr ts 0 {["length" := TNum (NInt 0)]}) as (Hl & _ & Hup);
    [by rewrite lookup_singleton_eq|].
  rewrite Hl. f_equal. rewrite Nat2Z.id. apply list_eq. intros j.
  rewrite list_lookup_fmap. destruct (decide (j < length ts)) as [Hj|Hj].
  - rewrite lookup_seq_lt by done. specialize (Hup j Hj).
    cbn [Nat.add fmap option_fmap option_map] in *. rewrite Hup.
    by destruct (lookup_lt_is_Some_2 ts j Hj) as [t ->].
  - rewrite lookup_seq_ge, lookup_ge_None_2 by lia. done.
Qed.

End array_tree.

Section builds.
Implicit Types (h : heap) (m : JS val) (t : tree) (d : nat).

Lemma keeps_new_refl h h' : keeps_new h h' h'.
Proof. by intros l o. Qed.

Lemma builds_weaken m t t' d d' : builds m t d → t = t' → d ≤ d' → builds m t' d'.
Proof.
  intros Hm <- Hd h. destruct (Hm h) as (v & h' & ? & ? & ? & ? & ? & Hre).
  exists v, h'. split_and!; try done. intros h'' n Hn. apply Hre. lia.
Qed.

Lemma builds_ret v d : is_ref v = false → builds (se_ret v) (reify 0 ∅ v) d.
Proof.
  intros Hv h. exists v, h. split_and!; try done.
  - by destruct v.
  - by rewrite Hv.
  - intros h'' n _ _. by apply reify_prim.
Qed.

Lemma builds_fun_lit code d :
  builds (fun_lit code) (TObject (ClsFunction code) ∅) (S d).
Proof.
  intros h. eexists _, _. split_and!; [apply alloc_run | eauto with js.. | |].
  - intros Hh. apply heap_wf_alloc; [done|]. apply map_Forall_empty.
  - intros _ [o Hl]. by rewrite lookup_fresh in Hl.
  - intros h'' [|n] Hn Hk; [lia|]. simpl.
    erewrite Hk; [|apply lookup_fresh|apply lookup_insert_eq].
    cbn [obj_class_of obj_props]. by rewrite fmap_empty.
Qed.

Lemma field_builds_intro k m t d : builds m t d → field_builds d (k, m) (k, t).
Proof. by split. Qed.

(** The definitions of a literal, stored into an object of the heap. *)
Lemma define_fields_builds d fields specs :
  Forall2 (field_builds d) fields specs →
  ∀ h l o, h !! l = Some o →
  ∃ h' o',
    define_fields (VRef l) fields h = (inr tt, h') ∧
    h' !! l = Some o' ∧ obj_class_of o' = obj_class_of o ∧
    (∀ l' o'', l' ≠ l → h !! l' = Some o'' → h' !! l' = Some o'') ∧
    (heap_wf h → heap_wf h') ∧
    ∀ h'' n, d ≤ n → keeps_new h h' h'' →
      reify n h'' <$> obj_props o' = tree_set_all specs (reify n h'' <$> obj_props o).
Proof.
  induction 1 as [|[k m] [k' t] fields specs [Hk Hm] _ IH]; intros h l o Hl.
  { exists h, o. by split_and!. }
  simpl in Hk, Hm. subst k'.
  destruct (Hm h) as (v & h1 & Hrun & Hsub & Hwf & Hv & _ & Hre).
  pose proof (lookup_weaken _ _ _ _ Hl Hsub) as Hl1.
  destruct (IH (<[l := obj_set k v o]> h1) l _ (lookup_insert_eq _ _ _))
    as (h' & o' & Hrun' & Hl' & Hc' & Hkeep & Hwf' & Hre').
  assert (∀ l' o'', l' ≠ l → h1 !! l' = Some o'' → h' !! l' = Some o'') as Hkeep1.
  { intros l' o'' Hne Hl1'. apply Hkeep; [done|]. by rewrite lookup_insert_ne. }
  exists h', o'. split_and!; try done.
  - simpl. erewrite se_bind_inr by done. by erewrite se_bind_inr by by apply set_prop_ref.
  - intros l' o'' Hne Hl0. eauto using lookup_weaken.
  - eauto with js.
  - intros h'' n Hn Hnew. rewrite Hre'; [|done|]; last first.
    { intros l' o'' Hnone. apply Hnew.
      destruct (decide (l' = l)) as [->|Hne]; [by rewrite lookup_insert_eq in Hnone|].
      rewrite lookup_insert_ne in Hnone by done.
      destruct (h !! l') eqn:Hl0; [|done]. by rewrite (lookup_weaken _ _ _ _ Hl0 Hsub) in Hnone. }
    simpl. rewrite fmap_insert. f_equal. f_equal. apply Hre; [done|].
    intros l' o'' Hnone Hl1'. apply Hnew; [done|]. apply Hkeep1; [|done].
    intros ->. by rewrite Hl in Hnone.
Qed.

Lemma builds_make_object c init fields specs d :
  obj_flat (Obj c init) → Forall2 (field_builds d) fields specs →
  builds (make_object c init fields)
         (TObject c (tree_set_all specs (reify 0 ∅ <$> init))) (S d).
Proof.
  intros Hinit Hfields h. set (l := fresh (dom h)).
  destruct (define_fields_builds d fields specs Hfields (<[l := Obj c init]> h) l _
              (lookup_insert_eq _ _ _)) as (h' & o' & Hrun & Hl' & Hc' & Hkeep & Hwf & Hre).
  assert (h ⊆ h') as Hsub.
  { apply map_subseteq_spec. intros l' o'' Hl0. apply Hkeep.
    - by apply fresh_ne.
    - by apply lookup_insert_fresh_old. }
  exists (VRef l), h'. split_and!; [|done|eauto with js|by simpl; eauto| |].
  - unfold make_object. erewrite se_bind_inr by apply alloc_run.
    by erewrite se_bind_inr by done.
  - intros _ [o Hl]. unfold l in Hl. by rewrite lookup_fresh in Hl.
  - intros h'' [|n] Hn Hnew; [lia|]. simpl.
    rewrite (Hnew l o' (lookup_fresh h) Hl'), Hc'. simpl. f_equal.
    rewrite Hre; [|lia|].
    + f_equal. apply map_fmap_ext. intros k v Hk. apply reify_prim. by eapply Hinit.
    + intros l' o'' Hnone. apply Hnew.
      destruct (h !! l') eqn:Hl0; [|done].
      by rewrite (lookup_insert_fresh_old _ _ _ _ Hl0) in Hnone.
Qed.

Lemma builds_obj_lit fields specs d :
  Forall2 (field_builds d) fields specs →
  builds (obj_lit fields) (TObject ClsObject (tree_set_all specs ∅)) (S d).
Proof.
  intros Hf. eapply builds_weaken; [by apply builds_make_object | by rewrite fmap_empty | done].
Qed.

Lemma arr_fields_builds d elems ts i :
  Forall2 (λ m t, builds m t d) elems ts →
  Forall2 (field_builds d) (arr_fields i elems) (arr_specs i ts).
Proof.
  intros H. revert i. induction H as [|m t elems ts Hm _ IH]; intros i; simpl; [done|].
  repeat constructor; [done.. | | apply IH].
  by apply (builds_ret (VNum _)).
Qed.

Lemma builds_arr_lit elems ts d :
  Forall2 (λ m t, builds m t d) elems ts →
  builds (arr_lit elems) (array_tree ts) (S d).
Proof.
  intros He. eapply builds_weaken;
    [apply builds_make_object, arr_fields_builds, He | by rewrite map_fmap_singleton | done].
  unfold obj_flat. simpl. by apply map_Forall_singleton.
Qed.

(** What a run of a literal tells, from what it builds. *)
Lemma builds_inv m t d h v h' :
  builds m t d → m h = (inr v, h') →
  h ⊆ h' ∧ (heap_wf h → heap_wf h') ∧ val_wf h' v ∧ (is_ref v = true → ¬ val_wf h v) ∧
  ∀ h'' n, d ≤ n → keeps_new h h' h'' → reify n h'' v = t.
Proof.
  intros Hm Hrun. destruct (Hm h) as (v0 & h0 & Hrun0 & H). rewrite Hrun in Hrun0.
  by simplify_eq.
Qed.

Lemma builds_total m t d h : builds m t d → ∃ v, (m h).1 = inr v.
Proof. intros Hm. destruct (Hm h) as (v & h' & -> & _). by exists v. Qed.

(** The value reads as the tree at every depth, cut where the depth ends. *)
Lemma builds_reify m t d h v h' h'' n :
  builds m t d → m h = (inr v, h') → keeps_new h h' h'' → reify n h'' v = truncate n t.
Proof.
  intros Hm Hrun Hk. destruct (builds_inv _ _ _ _ _ _ Hm Hrun) as (_ & _ & _ & _ & Hre).
  rewrite <-(reify_truncate n (n `max` d)) by lia. f_equal. apply Hre; [lia|done].
Qed.

(** Cutting the tree below the depth of the literal cuts nothing. *)
Lemma builds_truncate m t d n : builds m t d → d ≤ n → truncate n t = t.
Proof.
  intros Hm Hn. destruct (Hm ∅) as (v & h' & Hrun & _ & _ & _ & _ & Hre).
  rewrite <-(Hre h' n Hn (keeps_new_refl _ _)). by apply reify_truncate.
Qed.

(** Evaluating a literal a second time gives a value that reads as the
    first does, and another object when the first is one. *)
Lemma builds_twice m t d h :
  builds m t d →
  ∃ v1 h1 v2 h2,
    m h = (inr v1, h1) ∧ m h1 = (inr v2, h2) ∧ h1 ⊆ h2 ∧
    (h2, v2) ≈ᵈ (h2, v1) ∧ (is_ref v1 = true → v1 ≠ v2).
Proof.
  intros Hm. destruct (Hm h) as (v1 & h1 & Hrun1 & _ & _ & Hv1 & _ & Hre1).
  destruct (Hm h1) as (v2 & h2 & Hrun2 & Hsub & _ & _ & Hfresh & Hre2).
  exists v1, h1, v2, h2. split_and!; try done.
  - apply (deep_eq_from_depth d). intros n Hn. simpl.
    rewrite Hre2 by eauto using keeps_new_refl. symmetry. apply Hre1; [done|].
    intros l o _ Hl. by eapply lookup_weaken.
  - intros Hr ->. by apply Hfresh.
Qed.

(** A value that reads as an object is a reference. *)
Lemma reify_object_is_ref n h v c fs : reify n h v = TObject c fs → is_ref v = true.
Proof. by destruct v, n. Qed.

End builds.

(** Decomposes a goal [builds m _ _] along the literal [m]. *)
Ltac solve_builds :=
  repeat first
    [ apply builds_ret; reflexivity
    | apply builds_fun_lit
    | eapply builds_obj_lit
    | eapply builds_arr_lit
    | apply Forall2_nil_2
    | apply Forall2_cons_2
    | apply field_builds_intro ].

(** ** How many objects a literal allocates

    [allocs m k]: in every heap, [m] completes normally, keeps every object
    of the heap and leaves a heap of [k] more objects. *)

Definition allocs (m : JS val) (k : nat) : Prop :=
  ∀ h, ∃ v h', m h = (inr v, h') ∧ h ⊆ h' ∧ size h' = size h + k.

(** The allocations of the property definitions of an array literal. *)
Fixpoint arr_counts (ks : list nat) : list nat :=
  match ks with
  | [] => []
  | k :: ks => k :: 0 :: arr_counts ks
  end.

Section allocs.
Implicit Types (h : heap) (m : JS val) (k : nat) (ks : list nat).

Lemma allocs_ret v : allocs (se_ret v) 0.
Proof. intros h. exists v, h. split_and!; [done..|lia]. Qed.

Lemma allocs_fun_lit code : allocs (fun_lit code) 1.
Proof.
  intros h. eexists _, _. split_and!; [apply alloc_run | apply insert_fresh_subseteq|].
  rewrite map_size_insert_None by apply lookup_fresh. lia.
Qed.

Lemma allocs_weaken m k k' : allocs m k → k = k' → allocs m k'.
Proof. by intros Hm <-. Qed.

Lemma define_fields_allocs fields ks :
  Forall2 (λ f k, allocs f.2 k) fields ks →
  ∀ h l o, h !! l = Some o →
  ∃ h' o',
    define_fields (VRef l) fields h = (inr tt, h') ∧ h' !! l = Some o' ∧
    (∀ l' o'', l' ≠ l → h !! l' = Some o'' → h' !! l' = Some o'') ∧
    size h' = size h + sum_list ks.
Proof.
  induction 1 as [|[k m] n fields ks Hm _ IH]; intros h l o Hl.
  { exists h, o. simpl. split_and!; [done..|lia]. }
  destruct (Hm h) as (v & h1 & Hrun & Hsub & Hsz).
  pose proof (lookup_weaken _ _ _ _ Hl Hsub) as Hl1.
  destruct (IH (<[l := obj_set k v o]> h1) l _ (lookup_insert_eq _ _ _))
    as (h' & o' & Hrun' & Hl' & Hkeep & Hsz').
  exists h', o'. split_and!; [|done| |].
  - simpl. erewrite se_bind_inr by done. by erewrite se_bind_inr by by apply set_prop_ref.
  - intros l' o'' Hne Hl0. apply Hkeep; [done|]. rewrite lookup_insert_ne by done.
    by eapply lookup_weaken.
  - rewrite Hsz', map_size_insert_Some by eauto. simpl. lia.
Qed.

Lemma allocs_make_object c init fields ks :
  Forall2 (λ f k, allocs f.2 k) fields ks →
  allocs (make_object c init fields) (S (sum_list ks)).
Proof.
  intros Hf h.
  destruct (define_fields_allocs fields ks Hf (<[fresh (dom h) := Obj c init]> h) _ _
              (lookup_insert_eq _ _ _)) as (h' & o' & Hrun & Hl' & Hkeep & Hsz).
  exists (VRef (fresh (dom h))), h'. split_and!.
  - unfold make_object. erewrite se_bind_inr by apply alloc_run. by erewrite se_bind_inr by done.
  - apply map_subseteq_spec. intros l' o'' Hl0.
    apply Hkeep; [by apply fresh_ne | by apply lookup_insert_fresh_old].
  - rewrite Hsz, map_size_insert_None by apply lookup_fresh. lia.
Qed.

Lemma allocs_obj_lit fields ks :
  Forall2 (λ f k, allocs f.2 k) fields ks → allocs (obj_lit fields) (S (sum_list ks)).
Proof. apply allocs_make_object. Qed.

Lemma arr_fields_allocs elems ks i :
  Forall2 allocs elems ks →
  Forall2 (λ f k, allocs f.2 k) (arr_fields i elems) (arr_counts ks).
Proof.
  intros H. revert i. induction H as [|m k elems ks Hm _ IH]; intros i; [constructor|].
  repeat constructor; [done | apply allocs_ret | apply IH].
Qed.

Lemma sum_list_arr_counts ks : sum_list (arr_counts ks) = sum_list ks.
Proof. induction ks as [|k ks IH]; [done|]. simpl in *. lia. Qed.

Lemma allocs_arr_lit elems ks :
  Forall2 allocs elems ks → allocs (arr_lit elems) (S (sum_list ks)).
Proof.
  intros He. rewrite <-sum_list_arr_counts. by apply allocs_make_object, arr_fields_allocs.
Qed.

End allocs.

(** Decomposes a goal [allocs m _] along the literal [m]. *)
Ltac solve_allocs :=
  repeat first
    [ apply allocs_ret
    | apply allocs_fun_lit
    | eapply allocs_obj_lit
    | eapply allocs_arr_lit
    | apply Forall2_nil_2
    | apply Forall2_cons_2 ].

(** ** Theorems *)

(** An array literal can be read back.  The elements of the value of
    [[e0, ..., en]], read by index up to its [length], are what the
    element expressions built, in the order of the literal: no index is
    overwritten by another or by [length]. *)
Theorem arr_lit_roundtrip elems ts d h v h' n :
  Forall2 (λ m t, builds m t d) elems ts →
  arr_lit elems h = (inr v, h') → S d ≤ n →
  tree_elems (reify n h' v) = Some ts.
Proof.
  intros He Hrun Hn.
  destruct (builds_inv _ _ _ _ _ _ (builds_arr_lit _ _ _ He) Hrun) as (_ & _ & _ & _ & Hre).
  rewrite Hre by eauto using keeps_new_refl. apply tree_elems_array_tree.
Qed.

Lemma arr_lit_roundtrip_witness :
  tree_elems (reify 1 (arr_lit [se_ret (VStr "a"); se_ret (VStr "b")] ∅).2 (VRef 1)) =
  Some [TStr "a"; TStr "b"].
Proof.
  apply (arr_lit_roundtrip [se_ret (VStr "a"); se_ret (VStr "b")] [TStr "a"; TStr "b"] 0 ∅);
    [repeat constructor; by apply (builds_ret (VStr _)) | by vm_compute | lia].
Defined.
