(* ===== verification/Contract.v ===== *)
(** * The contract between the bundler and a configuration hook

    The host calls the function stored under [webpack] in the configuration
    once per bundling pass, with its resolution settings and an options
    object, and goes on with the value the function returns.  What it
    relies on is stated here as a class over hooks, so that the properties
    of the host are proved for every hook that keeps the contract and the
    hook of this repository is one instance. *)

From stdpp Require Import base option gmap fin_maps strings.
From S2P Require Import Prelude JsValue JsHeap.

Class HookContract (hook : val → val → JS val) : Prop := {
  (** the hook hands back the settings object it was given *)
  hook_returns_config config opts h v h' :
    hook config opts h = (inr v, h') → v = config;
  (** it leaves no dangling reference *)
  hook_preserves_wf config opts h :
    heap_wf h → heap_wf (hook config opts h).2;
  (** it removes no object *)
  hook_keeps_dom config opts h :
    dom h ⊆ dom (hook config opts h).2;
  (** what it throws is an exception of the language *)
  hook_never_stuck config opts h :
    heap_wf h → val_wf h config → val_wf h opts → (hook config opts h).1 ≠ inl Stuck;
  (** it allocates at most one object *)
  hook_allocates config opts h :
    size (hook config opts h).2 ≤ size h + 1;
  (** it changes no object but the resolution settings of its argument *)
  hook_frame config opts h l o :
    h !! l = Some o → peek h config "resolve" ≠ VRef l →
    (hook config opts h).2 !! l = Some o;
}.

(** The hook that does nothing: what the host runs for a configuration
    that gives no reason to adjust the settings. *)
Definition no_hook (config opts : val) : JS val := se_ret config.

#[export] Instance no_hook_contract : HookContract no_hook.
Proof. split; unfold no_hook, se_ret; simpl; intros; first [lia | by simplify_eq]. Qed.

Section contract.
Context (hook : val → val → JS val) `{!HookContract hook}.
Implicit Types (h : heap) (v config opts : val).

Lemma hook_val_wf config opts h v : val_wf h v → val_wf (hook config opts h).2 v.
Proof. apply val_wf_mono, hook_keeps_dom. Qed.

(** A hook that keeps the contract cannot change a settings object whose
    [resolve] is another object. *)
Lemma hook_keeps_settings lc o_c opts h :
  h !! lc = Some o_c → obj_get o_c "resolve" ≠ VRef lc →
  (hook (VRef lc) opts h).2 !! lc = Some o_c.
Proof. intros Hc Hr. apply hook_frame; [done|]. simpl. by rewrite Hc. Qed.

End contract.
