(* ===== verification/Webpack.v ===== *)
(** * The [webpack] hook ([src/next.config.js], lines 14-20)

    [webpack] is the arrow function [(config, { isServer }) => { ... }].
    Binding its second parameter reads the property [isServer] of the
    options object; the body tests [!isServer], assigns a new object
    [{ fs: false, path: false }] to [config.resolve.fallback] when the test
    holds, and returns [config].

    The assignment is evaluated in the order the engines follow: the object
    [config.resolve] is read, the literal on the right is allocated, and the
    store comes last, so that a store into undefined or null throws after
    the literal has been allocated.  The allocated object is then
    unreachable: an evaluation that checks the base of the assignment
    before the right-hand side, as earlier editions of ECMA-262 prescribe,
    differs from this model by that unreachable object only. *)

From stdpp Require Import base option gmap fin_maps strings.
From S2P Require Import Prelude JsValue JsHeap Reify Literal Contract.

(** ** The code *)

(** [{ fs: false, path: false }] (line 17) *)
Definition fallback_literal : JS val :=
  obj_lit [("fs", se_ret (VBool false)); ("path", se_ret (VBool false))].

(** The body of the hook (lines 15-19), with [isServer] bound. *)
Definition webpack_body (config isServer : val) : JS val :=
  (if negb (to_boolean isServer) then
     let* resolve := get_prop config "resolve" in
     let* fb := fallback_literal in
     set_prop resolve "fallback" fb
   else se_ret tt) ;;;
  se_ret config.

(** The hook (line 14): the parameter pattern, then the body. *)
Definition webpack (config opts : val) : JS val :=
  let* isServer := destructure opts "isServer" in
  webpack_body config isServer.

(** ** Vocabulary of the statements *)

(** The object the literal of line 17 denotes. *)
Definition fallback_obj : obj :=
  Obj ClsObject {["fs" := VBool false; "path" := VBool false]}.

(** The heap after the assignment of line 17, when [config.resolve] is the
    object [o_r] at [lr]. *)
Definition install (h : heap) (lr : loc) (o_r : obj) : heap :=
  <[lr := obj_set "fallback" (VRef (fresh (dom h))) o_r]>
    (<[fresh (dom h) := fallback_obj]> h).

(** The pass is a server pass: the [isServer] the options carry is truthy. *)
Definition is_server (h : heap) (opts : val) : bool :=
  to_boolean (peek h opts "isServer").

(** The exception the hook throws, if any, as a function of its inputs:
    the parameter pattern fails on undefined and null options; on a client
    pass the read [config.resolve] fails on an undefined or null [config],
    and the store fails when [config.resolve] is undefined or null. *)
Definition throw_reason (h : heap) (config opts : val) : option reason :=
  if nullish opts then Some DestructureOfNullish
  else if is_server h opts then None
  else if nullish config then Some (ReadOfNullish "resolve")
  else if nullish (peek h config "resolve") then Some (WriteOfNullish "fallback")
  else None.

(** The heap the hook leaves, as a function of its inputs. *)
Definition final_heap (h : heap) (config opts : val) : heap :=
  if nullish opts || is_server h opts || nullish config then h
  else match peek h config "resolve" with
       | VRef lr => from_option (install h lr) h (h !! lr)
       | _ => <[fresh (dom h) := fallback_obj]> h
       end.

(** ** A concrete heap: the example of section 8.3 of the specification

    [1] is the bundler's configuration, [2] its [resolve] settings, [3] the
    fallback table [{ fs: true, path: true, other: true }]; [4] and [5] are
    the options of a client and of a server pass. *)
Definition ex_heap : heap :=
  {[ 1%positive := Obj ClsObject {["resolve" := VRef 2]};
     2%positive := Obj ClsObject {["fallback" := VRef 3]};
     3%positive := Obj ClsObject {["fs" := VBool true; "path" := VBool true; "other" := VBool true]};
     4%positive := Obj ClsObject {["isServer" := VBool false]};
     5%positive := Obj ClsObject {["isServer" := VBool true]} ]}.

(** ** Runs of the parts *)

Section runs.
Implicit Types (h : heap) (config opts isServer : val) (lc lr : loc).

Lemma fallback_literal_run h :
  fallback_literal h = (inr (VRef (fresh (dom h))), <[fresh (dom h) := fallback_obj]> h).
Proof.
  change fallback_literal
    with (make_object ClsObject ∅ (const_fields [("fs", VBool false); ("path", VBool false)])).
  rewrite make_object_const. by do 2 f_equal.
Qed.

Lemma fallback_obj_flat : obj_flat fallback_obj.
Proof. unfold obj_flat, fallback_obj. simpl. by repeat apply map_Forall_insert_2. Qed.

Lemma webpack_body_server config isServer h :
  to_boolean isServer = true → webpack_body config isServer h = (inr config, h).
Proof. intros Hs. unfold webpack_body. by rewrite Hs. Qed.

Lemma webpack_body_nullish config isServer h :
  to_boolean isServer = false → nullish config = true →
  webpack_body config isServer h = (inl (TypeError (ReadOfNullish "resolve")), h).
Proof.
  intros Hs Hc. unfold webpack_body. rewrite Hs. simpl.
  erewrite se_bind_inl; [done|]. by erewrite se_bind_inl; [|apply get_prop_nullish].
Qed.

(** The client pass in general: the literal is allocated, then the store
    into whatever [config.resolve] is decides the outcome. *)
Lemma webpack_body_client config isServer h :
  to_boolean isServer = false → nullish config = false → val_wf h config →
  webpack_body config isServer h =
  (let* _ := set_prop (peek h config "resolve") "fallback" (VRef (fresh (dom h))) in
   se_ret config) (<[fresh (dom h) := fallback_obj]> h).
Proof.
  intros Hs Hc Hw. unfold webpack_body. rewrite Hs. simpl.
  unfold se_bind at 1 2. rewrite get_prop_peek by done.
  unfold se_bind at 1. by rewrite fallback_literal_run.
Qed.

Lemma webpack_body_install lc lr isServer h o_c o_r :
  to_boolean isServer = false →
  h !! lc = Some o_c → obj_get o_c "resolve" = VRef lr → h !! lr = Some o_r →
  webpack_body (VRef lc) isServer h = (inr (VRef lc), install h lr o_r).
Proof.
  intros Hs Hc Hr Hlr. rewrite webpack_body_client; [|done|done|by simpl; eauto].
  rewrite (peek_ref _ _ _ _ Hc), Hr.
  erewrite se_bind_inr; [done|]. apply set_prop_ref. eauto with js.
Qed.

Lemma webpack_nullish_opts config opts h :
  nullish opts = true → webpack config opts h = (inl (TypeError DestructureOfNullish), h).
Proof. intros Ho. unfold webpack. by erewrite se_bind_inl; [|apply destructure_nullish]. Qed.

Lemma webpack_bound config opts h :
  nullish opts = false → val_wf h opts →
  webpack config opts h = webpack_body config (peek h opts "isServer") h.
Proof. intros Ho Hw. unfold webpack. by erewrite se_bind_inr; [|apply destructure_peek]. Qed.

Lemma webpack_dangling_opts config l h :
  h !! l = None → webpack config (VRef l) h = (inl Stuck, h).
Proof.
  intros Hl. unfold webpack. erewrite se_bind_inl; [done|].
  rewrite destructure_get by done. unfold get_prop. by rewrite Hl.
Qed.

End runs.

(** ** The heap [install] builds *)

Section install.
Context (h : heap) (lr : loc) (o_r : obj) (Hlr : h !! lr = Some o_r).

Lemma install_lookup_resolve :
  install h lr o_r !! lr = Some (obj_set "fallback" (VRef (fresh (dom h))) o_r).
Proof. unfold install. by rewrite lookup_insert_eq. Qed.

Lemma install_lookup_fresh : install h lr o_r !! fresh (dom h) = Some fallback_obj.
Proof using Hlr.
  unfold install. rewrite lookup_insert_ne, lookup_insert_eq; [done|].
  apply fresh_ne. eauto.
Qed.

Lemma install_lookup_ne l : l ≠ lr → is_Some (h !! l) → install h lr o_r !! l = h !! l.
Proof.
  intros Hne Hl. unfold install. rewrite !lookup_insert_ne; [done|..|done].
  by apply not_eq_sym, fresh_ne.
Qed.

Lemma install_peek_fallback :
  peek (install h lr o_r) (VRef lr) "fallback" = VRef (fresh (dom h)).
Proof. erewrite peek_ref; [|apply install_lookup_resolve]. apply obj_get_set_eq. Qed.

Lemma install_peek_other k :
  k ≠ "fallback" → peek (install h lr o_r) (VRef lr) k = peek h (VRef lr) k.
Proof using Hlr.
  intros Hk. erewrite !peek_ref; [|done|apply install_lookup_resolve].
  by apply obj_get_set_ne.
Qed.

Lemma install_peek_key v k :
  k ≠ "fallback" → val_wf h v → peek (install h lr o_r) v k = peek h v k.
Proof using Hlr.
  intros Hk Hv. destruct v as [| | | | |l]; try done.
  destruct (decide (l = lr)) as [->|Hne]; [by apply install_peek_other|].
  simpl. by rewrite install_lookup_ne.
Qed.

Lemma install_subseteq_dom : dom h ⊆ dom (install h lr o_r).
Proof. unfold install. rewrite !dom_insert. set_solver. Qed.

Lemma heap_wf_install : heap_wf h → heap_wf (install h lr o_r).
Proof using Hlr.
  intros Hh. unfold install. apply heap_wf_set.
  - apply heap_wf_alloc; [done|]. apply obj_wf_flat, fallback_obj_flat.
  - by apply lookup_insert_fresh_old.
  - apply val_wf_fresh.
Qed.

End install.

(** The properties of the table the hook installs. *)
Lemma fallback_obj_get k :
  obj_get fallback_obj k = if bool_decide (k ∈ ["fs"; "path"]) then VBool false else VUndefined.
Proof.
  unfold obj_get, fallback_obj. simpl.
  destruct (decide (k = "fs")) as [->|Hfs]; [done|].
  destruct (decide (k = "path")) as [->|Hpath]; [done|].
  rewrite lookup_insert_ne, lookup_singleton_ne by done. simpl.
  rewrite bool_decide_eq_false_2; [done|]. set_solver.
Qed.

(** ** Inversion of a normal completion *)

Lemma webpack_body_inr config isServer h v h' :
  webpack_body config isServer h = (inr v, h') → v = config.
Proof.
  unfold webpack_body. intros (_ & h1 & _ & Hret)%se_bind_inr_inv.
  unfold se_ret in Hret. congruence.
Qed.

Lemma webpack_inr config opts h v h' :
  webpack config opts h = (inr v, h') → v = config.
Proof.
  unfold webpack. intros (s & h1 & _ & Hb)%se_bind_inr_inv.
  by eapply webpack_body_inr.
Qed.

(** ** The outcome on every well-formed input *)

Section outcome.
Context (h : heap) (config opts : val).
Context (Hh : heap_wf h) (Hc : val_wf h config) (Ho : val_wf h opts).

Lemma wf_resolve_lookup lr :
  peek h config "resolve" = VRef lr → is_Some (h !! lr).
Proof. intros Hr. pose proof (val_wf_peek h config "resolve" Hh) as Hw. by rewrite Hr in Hw. Qed.

(** The run of a client pass whose [config] is not undefined or null. *)
Lemma webpack_client_run :
  nullish opts = false → is_server h opts = false → nullish config = false →
  webpack config opts h =
  match peek h config "resolve" with
  | VRef lr => (inr config, from_option (install h lr) h (h !! lr))
  | VUndefined | VNull => (inl (TypeError (WriteOfNullish "fallback")), <[fresh (dom h) := fallback_obj]> h)
  | _ => (inr config, <[fresh (dom h) := fallback_obj]> h)
  end.
Proof using Hh Hc Ho.
  intros Hn Hs Hcn. rewrite webpack_bound, webpack_body_client by done.
  destruct (peek h config "resolve") as [| | | | |lr] eqn:Hr; try done.
  destruct (wf_resolve_lookup lr Hr) as [o_r Hlr]. rewrite Hlr. simpl.
  erewrite se_bind_inr; [done|]. apply set_prop_ref. eauto with js.
Qed.

Lemma webpack_run_wf :
  webpack config opts h =
  (match throw_reason h config opts with
   | Some r => inl (TypeError r)
   | None => inr config
   end, final_heap h config opts).
Proof using Hh Hc Ho.
  unfold throw_reason, final_heap.
  destruct (nullish opts) eqn:Hn; [by apply webpack_nullish_opts|].
  destruct (is_server h opts) eqn:Hs; [by rewrite webpack_bound, webpack_body_server|].
  destruct (nullish config) eqn:Hcn; [by rewrite webpack_bound, webpack_body_nullish|].
  rewrite webpack_client_run by done. simpl.
  by destruct (peek h config "resolve").
Qed.

(** C4: the inputs on which the hook throws.  In a well-formed heap the
    hook throws exactly when the options are undefined or null, or the pass
    is a client pass and [config] or [config.resolve] is undefined or
    null. *)
Theorem webpack_throws_iff :
  (∃ e h', webpack config opts h = (inl e, h')) ↔
  nullish opts = true ∨
  (is_server h opts = false ∧
   (nullish config = true ∨ nullish (peek h config "resolve") = true)).
Proof using Hh Hc Ho.
  rewrite webpack_run_wf. unfold throw_reason.
  destruct (nullish opts), (is_server h opts), (nullish config),
    (nullish (peek h config "resolve")); naive_solver.
Qed.

End outcome.

Lemma ex_heap_wf : heap_wf ex_heap.
Proof. by apply (bool_decide_unpack _); vm_compute. Qed.

Lemma webpack_throws_iff_witness :
  (∃ e h', webpack (VRef 2) (VRef 4) ex_heap = (inl e, h')) ↔
  nullish (VRef 4) = true ∨
  (is_server ex_heap (VRef 4) = false ∧
   (nullish (VRef 2) = true ∨ nullish (peek ex_heap (VRef 2) "resolve") = true)).
Proof. apply webpack_throws_iff; [apply ex_heap_wf | by eexists..]. Defined.

(** ** The heap after a run, on every input *)

Lemma webpack_heap_cases config opts h r h' :
  webpack config opts h = (r, h') →
  let lf := fresh (dom h) in
  h' = h ∨ h' = <[lf := fallback_obj]> h ∨
  ∃ lr o_r, r = inr config ∧
            peek h config "resolve" = VRef lr ∧ (<[lf := fallback_obj]> h) !! lr = Some o_r ∧
            h' = <[lr := obj_set "fallback" (VRef lf) o_r]> (<[lf := fallback_obj]> h).
Proof.
  intros Hrun lf. subst lf. unfold webpack, webpack_body, destructure in Hrun.
  destruct (nullish opts); [left; se_simpl; congruence|]. unfold se_bind at 1 in Hrun.
  destruct (get_prop opts "isServer" h) as [[e|s] h0] eqn:Hg;
    apply get_prop_heap in Hg as ->; [left; congruence|].
  destruct (to_boolean s); [left; se_simpl; congruence|]. simpl in Hrun.
  unfold se_bind at 1 2 3 in Hrun.
  destruct (get_prop config "resolve" h) as [[e|res] h0] eqn:Hg;
    pose proof (get_prop_heap _ _ _ _ _ Hg) as ->; [left; congruence|].
  rewrite fallback_literal_run in Hrun.
  destruct res as [| | | | |lr]; simpl in Hrun; try (right; left; se_simpl; congruence).
  destruct (<[fresh (dom h):=fallback_obj]> h !! lr) as [o_r|] eqn:Hlr;
    [|right; left; congruence].
  right; right. exists lr, o_r. split_and!; [se_simpl; congruence| |done|se_simpl; congruence].
  destruct config as [| | | | |lc]; simpl in *; try done.
  destruct (h !! lc); simpl; congruence.
Qed.

Lemma webpack_preserves_wf_aux h config opts :
  heap_wf h → heap_wf (webpack config opts h).2.
Proof.
  intros Hh. destruct (webpack config opts h) as [r h'] eqn:Hrun. simpl.
  pose proof fallback_obj_flat.
  destruct (webpack_heap_cases _ _ _ _ _ Hrun) as [->|[->|(lr & o_r & _ & _ & Hlr & ->)]];
    [done | eauto with js |].
  apply heap_wf_set; eauto with js.
Qed.

Lemma webpack_client_installs_aux h lc lr o_c o_r opts :
  nullish opts = false → val_wf h opts → is_server h opts = false →
  h !! lc = Some o_c → obj_get o_c "resolve" = VRef lr → h !! lr = Some o_r →
  webpack (VRef lc) opts h = (inr (VRef lc), install h lr o_r).
Proof.
  intros Hn Ho Hs Hc Hr Hlr. rewrite webpack_bound by done.
  by eapply webpack_body_install.
Qed.

Lemma webpack_server_unchanged_aux h config opts :
  nullish opts = false → val_wf h opts → is_server h opts = true →
  webpack config opts h = (inr config, h).
Proof. intros Hn Ho Hs. rewrite webpack_bound by done. by apply webpack_body_server. Qed.

Lemma webpack_frame_aux h config opts l o :
  h !! l = Some o → peek h config "resolve" ≠ VRef l →
  (webpack config opts h).2 !! l = Some o.
Proof.
  intros Hl Hne. destruct (webpack config opts h) as [r h'] eqn:Hrun. simpl.
  destruct (webpack_heap_cases _ _ _ _ _ Hrun) as [->|[->|(lr & o_r & _ & Hr & _ & ->)]].
  - done.
  - by apply lookup_insert_fresh_old.
  - rewrite lookup_insert_ne by congruence. by apply lookup_insert_fresh_old.
Qed.

Lemma webpack_dom_aux h config opts : dom h ⊆ dom (webpack config opts h).2.
Proof.
  destruct (webpack config opts h) as [r h'] eqn:Hrun. simpl.
  destruct (webpack_heap_cases _ _ _ _ _ Hrun) as [->|[->|(lr & o_r & _ & _ & _ & ->)]];
    rewrite ?dom_insert; set_solver.
Qed.

Lemma webpack_not_stuck_aux h config opts :
  heap_wf h → val_wf h config → val_wf h opts → (webpack config opts h).1 ≠ inl Stuck.
Proof.
  intros Hh Hc Ho. rewrite webpack_run_wf by done. simpl.
  by destruct (throw_reason h config opts).
Qed.

Lemma webpack_size_aux h config opts :
  size h ≤ size (webpack config opts h).2 ≤ size h + 1.
Proof.
  destruct (webpack config opts h) as [r h'] eqn:Hrun. simpl.
  destruct (webpack_heap_cases _ _ _ _ _ Hrun) as [->|[->|(lr & o_r & _ & _ & Hlr & ->)]];
    rewrite ?(map_size_insert_Some lr) by eauto;
    rewrite ?map_size_insert_None by apply lookup_fresh; lia.
Qed.

(** The hook completes normally when [config.resolve] is an object. *)
Lemma webpack_ok h lc lr o_c opts :
  heap_wf h → nullish opts = false → val_wf h opts →
  h !! lc = Some o_c → obj_get o_c "resolve" = VRef lr →
  (webpack (VRef lc) opts h).1 = inr (VRef lc).
Proof.
  intros Hh Hn Ho Hc Hr. rewrite webpack_run_wf by (done || by eexists).
  unfold throw_reason. simpl. rewrite Hn, Hc. simpl. rewrite Hr. simpl.
  by destruct (is_server h opts).
Qed.

(** The hook keeps the contract the host relies on. *)
#[export] Instance webpack_hook_contract : HookContract webpack.
Proof.
  split; eauto using webpack_inr, webpack_preserves_wf_aux, webpack_dom_aux,
    webpack_not_stuck_aux, webpack_frame_aux.
  intros config opts h. apply webpack_size_aux.
Qed.

(** ** Theorems *)

(** C1: on a client pass (the options carry a falsy [isServer]) over a
    configuration object whose [resolve] property is an object, the hook
    completes normally, returns the configuration object itself, and leaves
    the heap in which a newly allocated object [{ fs: false, path: false }]
    is the [fallback] property of the [resolve] object; every other
    property and object is as before. *)
Theorem webpack_client_installs h lc lr o_c o_r opts :
  nullish opts = false → val_wf h opts → is_server h opts = false →
  h !! lc = Some o_c → obj_get o_c "resolve" = VRef lr → h !! lr = Some o_r →
  webpack (VRef lc) opts h = (inr (VRef lc), install h lr o_r).
Proof. apply webpack_client_installs_aux. Qed.

Lemma webpack_client_installs_witness :
  webpack (VRef 1) (VRef 4) ex_heap =
  (inr (VRef 1), install ex_heap 2 (Obj ClsObject {["fallback" := VRef 3]})).
Proof.
  apply (webpack_client_installs ex_heap 1 2 (Obj ClsObject {["resolve" := VRef 2]}));
    first [reflexivity | by eexists].
Defined.

(** C2: on a server pass (the options carry a truthy [isServer]) the hook
    returns its argument and the heap is exactly the heap it started in. *)
Theorem webpack_server_unchanged h config opts :
  nullish opts = false → val_wf h opts → is_server h opts = true →
  webpack config opts h = (inr config, h).
Proof. apply webpack_server_unchanged_aux. Qed.

Lemma webpack_server_unchanged_witness :
  webpack (VRef 1) (VRef 5) ex_heap = (inr (VRef 1), ex_heap).
Proof. apply webpack_server_unchanged; first [reflexivity | by eexists]. Defined.

(** C3: the assignment replaces the fallback table, it does not update it:
    after a client pass the table reads [false] at [fs] and [path] and
    [undefined] at every other key, whatever the table held before. *)
Theorem webpack_replaces_fallback h lc lr o_c o_r opts k :
  nullish opts = false → val_wf h opts → is_server h opts = false →
  h !! lc = Some o_c → obj_get o_c "resolve" = VRef lr → h !! lr = Some o_r →
  let h' := (webpack (VRef lc) opts h).2 in
  peek h' (peek h' (VRef lr) "fallback") k =
  if bool_decide (k ∈ ["fs"; "path"]) then VBool false else VUndefined.
Proof.
  intros Hn Ho Hs Hc Hr Hlr h'. subst h'. rewrite webpack_bound by done.
  erewrite webpack_body_install by done. cbn [snd].
  rewrite install_peek_fallback. erewrite peek_ref by by apply install_lookup_fresh.
  apply fallback_obj_get.
Qed.

Lemma webpack_replaces_fallback_witness :
  peek ex_heap (peek ex_heap (VRef 2) "fallback") "other" = VBool true ∧
  let h' := (webpack (VRef 1) (VRef 4) ex_heap).2 in
  peek h' (peek h' (VRef 2) "fallback") "other" = VUndefined.
Proof.
  split; [reflexivity|].
  apply (webpack_replaces_fallback ex_heap 1 2 (Obj ClsObject {["resolve" := VRef 2]})
           (Obj ClsObject {["fallback" := VRef 3]}) (VRef 4) "other");
    first [reflexivity | by eexists].
Defined.

(** C19: whenever the hook completes normally, the value it returns is the
    configuration it was given: the same reference, not a copy. *)
Theorem webpack_returns_config config opts h v :
  (webpack config opts h).1 = inr v → v = config.
Proof.
  destruct (webpack config opts h) as [r h'] eqn:Hrun. simpl. intros ->.
  by eapply webpack_inr.
Qed.

Lemma webpack_returns_config_witness : VRef 1 = VRef 1.
Proof. apply (webpack_returns_config (VRef 1) (VRef 4) ex_heap). reflexivity. Defined.

(** C15: the frame of the hook.  Whatever the inputs and whatever the
    outcome, every object of the heap other than the one [config.resolve]
    refers to is unchanged; in particular the table that was the fallback
    before the call is still there for whoever else holds it. *)
Theorem webpack_frame h config opts l o :
  h !! l = Some o → peek h config "resolve" ≠ VRef l →
  (webpack config opts h).2 !! l = Some o.
Proof. apply webpack_frame_aux. Qed.

Lemma webpack_frame_witness :
  (webpack (VRef 1) (VRef 4) ex_heap).2 !! 3%positive =
  Some (Obj ClsObject {["fs" := VBool true; "path" := VBool true; "other" := VBool true]}).
Proof. apply webpack_frame; [reflexivity | discriminate]. Defined.

(** C16: what the hook reads.  The exception thrown or the value returned
    depends on the heap through two facts only: whether the [isServer] of
    the options is truthy and whether [config.resolve] is undefined or
    null.  Two well-formed heaps that agree on these give the same
    outcome, whatever else they hold: the hook consults no other property
    of the options, of the configuration or of any other object. *)
Theorem webpack_reads_only h1 h2 config opts :
  heap_wf h1 → heap_wf h2 →
  val_wf h1 config → val_wf h2 config → val_wf h1 opts → val_wf h2 opts →
  is_server h1 opts = is_server h2 opts →
  nullish (peek h1 config "resolve") = nullish (peek h2 config "resolve") →
  (webpack config opts h1).1 = (webpack config opts h2).1.
Proof.
  intros Hh1 Hh2 Hc1 Hc2 Ho1 Ho2 Hs Hr.
  rewrite (webpack_run_wf h1), (webpack_run_wf h2) by done.
  unfold throw_reason. by rewrite Hs, Hr.
Qed.

Lemma webpack_reads_only_witness :
  (webpack (VRef 1) (VRef 4) ex_heap).1 =
  (webpack (VRef 1) (VRef 4)
     (<[2%positive := Obj ClsObject {["alias" := VRef 3]}]>
        (<[4%positive := Obj ClsObject ∅]> ex_heap))).1.
Proof.
  apply webpack_reads_only;
    first [by apply (bool_decide_unpack _); vm_compute | by eexists | reflexivity].
Defined.

(** C26: an exception leaves every object as it was: when the hook throws,
    the heap it leaves extends the heap it started in (by at most the
    unreachable literal). *)
Theorem webpack_throw_keeps_heap h config opts e h' :
  webpack config opts h = (inl e, h') → h ⊆ h'.
Proof.
  intros Hrun.
  destruct (webpack_heap_cases _ _ _ _ _ Hrun) as [->|[->|(lr & o_r & Hr & _)]];
    [done | apply insert_fresh_subseteq | done].
Qed.

Lemma webpack_throw_keeps_heap_witness :
  ex_heap ⊆ <[fresh (dom ex_heap) := fallback_obj]> ex_heap.
Proof.
  apply (webpack_throw_keeps_heap ex_heap (VRef 2) (VRef 4) (TypeError (WriteOfNullish "fallback"))).
  reflexivity.
Defined.

(** C27: a [resolve] that is a primitive other than undefined and null is
    silently left alone: the hook completes normally, but the store of
    line 17 has no effect, and [config.resolve.fallback] still reads
    [undefined] afterwards. *)
Theorem webpack_ignores_primitive_resolve h lc o_c opts :
  nullish opts = false → val_wf h opts → is_server h opts = false →
  h !! lc = Some o_c →
  is_ref (obj_get o_c "resolve") = false → nullish (obj_get o_c "resolve") = false →
  webpack (VRef lc) opts h = (inr (VRef lc), <[fresh (dom h) := fallback_obj]> h) ∧
  let h' := (webpack (VRef lc) opts h).2 in
  peek h' (peek h' (VRef lc) "resolve") "fallback" = VUndefined.
Proof.
  intros Hn Ho Hs Hc Hp Hnn.
  assert (webpack (VRef lc) opts h = (inr (VRef lc), <[fresh (dom h) := fallback_obj]> h)) as ->.
  { rewrite webpack_bound, webpack_body_client; [|done|done|by simpl; eauto|done..].
    rewrite (peek_ref _ _ _ _ Hc). erewrite se_bind_inr; [done|]. by apply set_prop_prim. }
  split; [done|]. simpl. rewrite lookup_insert_ne by by apply not_eq_sym, fresh_ne.
  rewrite Hc. simpl. by destruct (obj_get o_c "resolve").
Qed.

Lemma webpack_ignores_primitive_resolve_witness :
  let h := <[1%positive := Obj ClsObject {["resolve" := VBool true]}]> ex_heap in
  webpack (VRef 1) (VRef 4) h = (inr (VRef 1), <[fresh (dom h) := fallback_obj]> h) ∧
  let h' := (webpack (VRef 1) (VRef 4) h).2 in
  peek h' (peek h' (VRef 1) "resolve") "fallback" = VUndefined.
Proof.
  apply (webpack_ignores_primitive_resolve _ 1 (Obj ClsObject {["resolve" := VBool true]}));
    first [reflexivity | by eexists].
Defined.

(** The hook allocates at most one object per call, the fallback
    table, and removes none, on every input and outcome. *)
Theorem webpack_allocates h config opts :
  size h ≤ size (webpack config opts h).2 ≤ size h + 1.
Proof. apply webpack_size_aux. Qed.
