(* ===== verification/Idempotence.v ===== *)
(** * Running the hook twice

    The specification asks the hook to be idempotent.  The heaps after one
    and after two runs differ, since each client pass allocates a new
    fallback table; what can be read from any value is the same.  The
    proof is a simulation between the two heaps that relates the table of
    the second run to the table of the first. *)

From stdpp Require Import base option gmap fin_maps strings.
From S2P Require Import Prelude JsValue JsHeap Reify Literal Contract Webpack.

(** Installing a second table over the first changes nothing that can be
    read: the new table has the content of the old one. *)
Lemma install_again_reify h lr o_r v n :
  heap_wf h → h !! lr = Some o_r →
  (∃ lf, obj_props o_r !! "fallback" = Some (VRef lf) ∧ h !! lf = Some fallback_obj) →
  val_wf h v → reify n (install h lr o_r) v = reify n h v.
Proof.
  intros Hh Hlr (lf & Hfb & Hlf) Hv.
  set (R := λ l1 l2 : loc, (l1 = l2 ∧ is_Some (h !! l1)) ∨ (l1 = fresh (dom h) ∧ l2 = lf)).
  assert (∀ o, obj_wf h o → obj_rel R o o) as Hdiag.
  { intros o Ho. apply obj_rel_diag. intros k l Hk. left. split; [done|]. apply (Ho k _ Hk). }
  apply (reify_sim R); [|destruct v; try done; by left].
  intros l1 l2 [[<- Hl]|[-> ->]].
  - destruct (decide (l1 = lr)) as [->|Hne].
    + rewrite install_lookup_resolve, Hlr. constructor.
      replace o_r with (obj_set "fallback" (VRef lf) o_r) at 2
        by (destruct o_r; unfold obj_set; simpl in *; by rewrite insert_id).
      apply obj_rel_set; [eauto with js|by right].
    + rewrite install_lookup_ne by done. destruct Hl as [o Hl]. rewrite Hl.
      constructor. eauto with js.
  - rewrite install_lookup_fresh, Hlf by done. constructor.
    apply obj_rel_flat, fallback_obj_flat.
Qed.

Section twice.
Context (h : heap) (config opts : val).
Context (Hh : heap_wf h) (Hc : val_wf h config) (Ho : val_wf h opts).

Lemma final_heap_dom : dom h ⊆ dom (final_heap h config opts).
Proof.
  unfold final_heap. destruct (_ || _); [done|].
  destruct (peek h config "resolve") as [| | | | |lr];
    try apply subseteq_dom, insert_fresh_subseteq.
  destruct (h !! lr) eqn:Hlr; simpl; [by apply install_subseteq_dom | done].
Qed.

Lemma final_heap_wf : heap_wf (final_heap h config opts).
Proof using Hh Hc Ho.
  pose proof (webpack_run_wf h config opts Hh Hc Ho) as Hrun.
  pose proof (webpack_preserves_wf_aux h config opts Hh) as Hwf.
  by rewrite Hrun in Hwf.
Qed.

(** The hook writes the property [fallback] only. *)
Lemma final_heap_peek v k :
  k ≠ "fallback" → val_wf h v → peek (final_heap h config opts) v k = peek h v k.
Proof.
  intros Hk Hv. unfold final_heap. destruct (_ || _); [done|].
  destruct (peek h config "resolve") as [| | | | |lr]; try by apply peek_insert_fresh.
  destruct (h !! lr) as [o_r|] eqn:Hlr; [|done]. by apply install_peek_key.
Qed.

Lemma final_heap_throw_reason :
  throw_reason (final_heap h config opts) config opts = throw_reason h config opts.
Proof using Hc Ho.
  unfold throw_reason, is_server. by rewrite !final_heap_peek.
Qed.

(** What can be read after a second run is what could be read after the
    first. *)
Lemma final_heap_again_reify v n :
  let h1 := final_heap h config opts in
  val_wf h1 v → reify n (final_heap h1 config opts) v = reify n h1 v.
Proof using Hh Hc Ho.
  intros h1 Hv. pose proof final_heap_wf as Hwf1. fold h1 in Hwf1.
  unfold final_heap at 1. fold h1. unfold is_server.
  subst h1. rewrite !final_heap_peek by done. fold (is_server h opts).
  destruct (nullish opts || is_server h opts || nullish config) eqn:Hb; [done|].
  destruct (peek h config "resolve") as [| | | | |lr] eqn:Hr;
    try (apply reify_subseteq; [done | apply insert_fresh_subseteq | done]).
  destruct (wf_resolve_lookup h config Hh lr Hr) as [o_r Hlr].
  assert (final_heap h config opts = install h lr o_r) as Hh1.
  { unfold final_heap. by rewrite Hb, Hr, Hlr. }
  rewrite Hh1 in *. rewrite install_lookup_resolve. cbn [from_option].
  apply install_again_reify; [done | apply install_lookup_resolve | | done].
  exists (fresh (dom h)). split; [apply lookup_insert_eq | by apply install_lookup_fresh].
Qed.

End twice.

(** C13: the hook is idempotent up to what can be read.  In a well-formed
    heap a second run on the same arguments has the outcome of the first
    (the same exception, or the same returned reference), and every value
    of the heap left by the first run reads the same, at every depth,
    after the second. *)
Theorem webpack_idempotent h config opts :
  heap_wf h → val_wf h config → val_wf h opts →
  let run1 := webpack config opts h in
  let run2 := webpack config opts run1.2 in
  run2.1 = run1.1 ∧ ∀ v, val_wf run1.2 v → (run2.2, v) ≈ᵈ (run1.2, v).
Proof.
  intros Hh Hc Ho run1 run2. subst run1 run2.
  rewrite (webpack_run_wf h) by done. cbn [fst snd].
  pose proof (final_heap_dom h config opts) as Hdom.
  rewrite webpack_run_wf by eauto using final_heap_wf, val_wf_mono.
  rewrite final_heap_throw_reason by done. split; [done|].
  intros v Hv n. by apply final_heap_again_reify.
Qed.

Lemma webpack_idempotent_witness :
  let run1 := webpack (VRef 1) (VRef 4) ex_heap in
  let run2 := webpack (VRef 1) (VRef 4) run1.2 in
  run2.1 = run1.1 ∧ ∀ v, val_wf run1.2 v → (run2.2, v) ≈ᵈ (run1.2, v).
Proof. apply webpack_idempotent; [apply ex_heap_wf | by eexists..]. Defined.

(** C31: idempotence does not hold of the heaps themselves: a second client
    pass allocates a second table, so [config.resolve.fallback] is a
    different object after each run. *)
Theorem webpack_twice_allocates h lc lr o_c o_r opts :
  nullish opts = false → val_wf h opts → is_server h opts = false →
  h !! lc = Some o_c → obj_get o_c "resolve" = VRef lr → h !! lr = Some o_r →
  let run1 := webpack (VRef lc) opts h in
  let run2 := webpack (VRef lc) opts run1.2 in
  peek run2.2 (VRef lr) "fallback" ≠ peek run1.2 (VRef lr) "fallback".
Proof.
  intros Hn Ho Hs Hc Hr Hlr run1 run2. subst run1 run2.
  rewrite (webpack_client_installs_aux h lc lr o_c o_r) by done. cbn [snd].
  assert (val_wf h (VRef lc)) as Hlc by (simpl; eauto).
  assert (peek (install h lr o_r) (VRef lc) "resolve" = VRef lr) as Hpeek.
  { rewrite install_peek_key by done. by rewrite (peek_ref _ _ _ _ Hc). }
  simpl in Hpeek.
  destruct (install h lr o_r !! lc) as [o_c'|] eqn:Hc'; [|discriminate Hpeek].
  erewrite (webpack_client_installs_aux _ lc lr o_c'); first last.
  - apply install_lookup_resolve.
  - exact Hpeek.
  - done.
  - unfold is_server. by rewrite install_peek_key.
  - eapply val_wf_mono; [by apply install_subseteq_dom | done].
  - done.
  - cbn [snd]. rewrite !install_peek_fallback. intros [= Heq].
    apply (fresh_ne (install h lr o_r) (fresh (dom h))); [|done].
    rewrite install_lookup_fresh by done. eauto.
Qed.

Lemma webpack_twice_allocates_witness :
  let run1 := webpack (VRef 1) (VRef 4) ex_heap in
  let run2 := webpack (VRef 1) (VRef 4) run1.2 in
  peek run2.2 (VRef 2) "fallback" ≠ peek run1.2 (VRef 2) "fallback".
Proof.
  apply (webpack_twice_allocates ex_heap 1 2 (Obj ClsObject {["resolve" := VRef 2]})
           (Obj ClsObject {["fallback" := VRef 3]}));
    first [reflexivity | by eexists].
Defined.
