(* ===== verification/Equivariance.v ===== *)
(** * The hook does not observe locations

    Locations are names: a JavaScript program cannot tell two heaps apart
    that differ by a renaming of their locations.  The model keeps that
    promise for the hook.  On two heaps related by a partial bijection [R]
    of their locations, with related arguments, the hook has the same
    outcome, and the heaps it leaves are related by [R] extended with the
    pair of the tables it allocated.

    The relation has to be a bijection: the hook writes in place, so a
    settings object that is one object in a heap and two copies in the
    other is not the same input. *)

From stdpp Require Import base option gmap fin_maps strings.
From S2P Require Import Prelude JsValue JsHeap Reify Literal Contract Webpack.

(** ** Definitions *)

(** A relation that pairs each location with at most one other. *)
Definition partial_bijection (R : loc → loc → Prop) : Prop :=
  (∀ l1 l2 l2', R l1 l2 → R l1 l2' → l2 = l2') ∧
  (∀ l1 l1' l2, R l1 l2 → R l1' l2 → l1 = l1').

(** [R] on the objects of [h1], with the locations the next allocations
    take paired. *)
Definition extend (R : loc → loc → Prop) (h1 h2 : heap) (l1 l2 : loc) : Prop :=
  (R l1 l2 ∧ is_Some (h1 !! l1)) ∨ (l1 = fresh (dom h1) ∧ l2 = fresh (dom h2)).

(** Outcomes are the same exception, or related values. *)
Definition outcome_rel (R : loc → loc → Prop) (r1 r2 : exn + val) : Prop :=
  match r1, r2 with
  | inl e1, inl e2 => e1 = e2
  | inr v1, inr v2 => val_rel R v1 v2
  | _, _ => False
  end.

(** ** Writes and allocations on related heaps *)

Section sim_update.
Context (R : loc → loc → Prop) (HR : partial_bijection R).
Implicit Types (h g : heap) (o : obj) (v x : val).

Lemma heap_sim_lookup h1 h2 l1 l2 o1 :
  heap_sim R h1 h2 → R l1 l2 → h1 !! l1 = Some o1 →
  ∃ o2, h2 !! l2 = Some o2 ∧ obj_rel R o1 o2.
Proof. intros Hsim Hl Hl1. destruct (Hsim l1 l2 Hl); simplify_eq. eauto. Qed.

(** A write through related references keeps the heaps related. *)
Lemma heap_sim_set h1 h2 l1 l2 o1 o2 k x1 x2 :
  heap_sim R h1 h2 → R l1 l2 → h1 !! l1 = Some o1 → h2 !! l2 = Some o2 →
  val_rel R x1 x2 →
  heap_sim R (<[l1 := obj_set k x1 o1]> h1) (<[l2 := obj_set k x2 o2]> h2).
Proof using HR.
  intros Hsim Hl Hl1 Hl2 Hx a b Hab. destruct HR as [Hfun Hinj].
  destruct (decide (a = l1)) as [->|Hne].
  - rewrite (Hfun _ _ _ Hab Hl), !lookup_insert_eq. constructor.
    apply obj_rel_set; [|done]. destruct (Hsim l1 l2 Hl); by simplify_eq.
  - rewrite !lookup_insert_ne; [by apply Hsim | | done].
    intros ->. by rewrite (Hinj _ _ _ Hab Hl) in Hne.
Qed.

End sim_update.

Section extend.
Context (R : loc → loc → Prop) (h1 h2 : heap).
Context (HR : partial_bijection R) (Hh1 : heap_wf h1) (Hsim : heap_sim R h1 h2).
Implicit Types (o : obj) (v : val).

Lemma val_rel_extend v1 v2 : val_wf h1 v1 → val_rel R v1 v2 → val_rel (extend R h1 h2) v1 v2.
Proof. destruct v1, v2; try done. simpl. by left. Qed.

Lemma obj_rel_extend o1 o2 : obj_wf h1 o1 → obj_rel R o1 o2 → obj_rel (extend R h1 h2) o1 o2.
Proof.
  intros Hw [Hc Hp]. split; [done|]. intros k. specialize (Hp k).
  destruct (obj_props o1 !! k) as [x1|] eqn:Hk1; inv Hp; constructor.
  apply val_rel_extend; [by eapply Hw | done].
Qed.

Lemma extend_bijection : partial_bijection (extend R h1 h2).
Proof using HR Hsim.
  destruct HR as [Hfun Hinj].
  assert (∀ l1 l2, R l1 l2 → is_Some (h1 !! l1) → l1 ≠ fresh (dom h1) ∧ l2 ≠ fresh (dom h2)) as Hold.
  { intros l1 l2 Hl [o1 Hl1]. destruct (heap_sim_lookup R _ _ _ _ _ Hsim Hl Hl1) as (o2 & Hl2 & _).
    split; apply fresh_ne; eauto. }
  split; intros a b c [[Hab Ha]|[-> ->]] [[Hac Hc]|[? ?]]; simplify_eq; eauto;
    by edestruct Hold as [? ?].
Qed.

(** The heaps are related by the extended relation, before and after the
    allocation of related objects. *)
Lemma heap_sim_extend : heap_sim (extend R h1 h2) h1 h2.
Proof using Hh1 Hsim.
  intros l1 l2 [[Hl [o1 Hl1]]|[-> ->]]; [|rewrite !lookup_fresh; constructor].
  destruct (heap_sim_lookup R _ _ _ _ _ Hsim Hl Hl1) as (o2 & Hl2 & Ho). rewrite Hl1, Hl2.
  constructor. apply obj_rel_extend; [by eapply heap_wf_lookup | done].
Qed.

Lemma heap_sim_alloc o1 o2 :
  obj_rel (extend R h1 h2) o1 o2 →
  heap_sim (extend R h1 h2) (<[fresh (dom h1) := o1]> h1) (<[fresh (dom h2) := o2]> h2).
Proof using Hh1 Hsim.
  intros Ho l1 l2 Hl. pose proof (heap_sim_extend l1 l2 Hl) as Hs.
  destruct Hl as [[Hl [o Hl1]]|[-> ->]]; [|rewrite !lookup_insert_eq; by constructor].
  destruct (heap_sim_lookup R _ _ _ _ _ Hsim Hl Hl1) as (o' & Hl2 & _).
  by rewrite (lookup_insert_fresh_old _ _ _ _ Hl1), (lookup_insert_fresh_old _ _ _ _ Hl2), <-Hl1, <-Hl2.
Qed.

End extend.

(** ** The hook on related heaps *)

Section webpack_sim.
Context (R : loc → loc → Prop) (h1 h2 : heap) (c1 c2 o1 o2 : val).
Context (HR : partial_bijection R) (Hh1 : heap_wf h1) (Hsim : heap_sim R h1 h2).
Context (Hc : val_rel R c1 c2) (Ho : val_rel R o1 o2).

Lemma is_server_rel : is_server h1 o1 = is_server h2 o2.
Proof using Hsim Ho. by apply (val_rel_to_boolean R), peek_rel. Qed.

Lemma throw_reason_rel : throw_reason h1 c1 o1 = throw_reason h2 c2 o2.
Proof using Hsim Hc Ho.
  unfold throw_reason.
  by rewrite (val_rel_nullish R o1 o2), is_server_rel, (val_rel_nullish R c1 c2),
    (val_rel_nullish R (peek h1 c1 "resolve") (peek h2 c2 "resolve")) by eauto using peek_rel.
Qed.

Lemma final_heap_sim :
  heap_sim (extend R h1 h2) (final_heap h1 c1 o1) (final_heap h2 c2 o2).
Proof using HR Hh1 Hsim Hc Ho.
  unfold final_heap.
  rewrite <-(val_rel_nullish R o1 o2), <-is_server_rel, <-(val_rel_nullish R c1 c2) by done.
  destruct (nullish o1 || is_server h1 o1 || nullish c1); [by apply heap_sim_extend|].
  pose proof (peek_rel R h1 h2 c1 c2 "resolve" Hsim Hc) as Hres.
  pose proof (val_wf_peek h1 c1 "resolve" Hh1) as Hw.
  assert (obj_rel (extend R h1 h2) fallback_obj fallback_obj) as Hfb
    by apply obj_rel_flat, fallback_obj_flat.
  destruct (peek h1 c1 "resolve") as [| | | | |lr1], (peek h2 c2 "resolve") as [| | | | |lr2];
    try done; try by apply heap_sim_alloc.
  destruct Hw as [or1 Hl1]. destruct (heap_sim_lookup R _ _ _ _ _ Hsim Hres Hl1) as (or2 & Hl2 & Hor).
  rewrite Hl1, Hl2. simpl. unfold install.
  eapply heap_sim_set; [by apply extend_bijection | by apply heap_sim_alloc | left; eauto
                       | by apply lookup_insert_fresh_old.. | by right].
Qed.

End webpack_sim.

(** ** Theorems *)

(** The hook is equivariant.  On heaps related by a partial bijection
    of their locations and on related arguments, two runs of the hook end
    alike (the same exception, or related values), leave heaps related by
    the bijection extended with the pair of the tables allocated, and so
    every pair of related values reads alike afterwards, at every depth. *)
Theorem webpack_equivariant R h1 h2 c1 c2 o1 o2 :
  partial_bijection R → heap_wf h1 → heap_wf h2 → heap_sim R h1 h2 →
  val_wf h1 c1 → val_wf h1 o1 → val_rel R c1 c2 → val_rel R o1 o2 →
  outcome_rel (extend R h1 h2) (webpack c1 o1 h1).1 (webpack c2 o2 h2).1 ∧
  heap_sim (extend R h1 h2) (webpack c1 o1 h1).2 (webpack c2 o2 h2).2 ∧
  ∀ n v1 v2, val_wf h1 v1 → val_rel R v1 v2 →
    reify n (webpack c1 o1 h1).2 v1 = reify n (webpack c2 o2 h2).2 v2.
Proof.
  intros HR Hh1 Hh2 Hsim Hc1 Ho1 Hc Ho.
  pose proof (final_heap_sim R h1 h2 c1 c2 o1 o2 HR Hh1 Hsim Hc Ho) as Hfin.
  rewrite !webpack_run_wf by eauto using val_wf_rel. cbn [fst snd].
  rewrite <-(throw_reason_rel R h1 h2 c1 c2 o1 o2) by done. split_and!; [|done|].
  - destruct (throw_reason h1 c1 o1); [done | by apply val_rel_extend].
  - intros n v1 v2 Hv1 Hv. eapply reify_sim; [done | by apply val_rel_extend].
Qed.

Lemma webpack_equivariant_witness :
  outcome_rel (extend eq ex_heap ex_heap)
    (webpack (VRef 1) (VRef 4) ex_heap).1 (webpack (VRef 1) (VRef 4) ex_heap).1 ∧
  heap_sim (extend eq ex_heap ex_heap)
    (webpack (VRef 1) (VRef 4) ex_heap).2 (webpack (VRef 1) (VRef 4) ex_heap).2 ∧
  ∀ n v1 v2, val_wf ex_heap v1 → val_rel eq v1 v2 →
    reify n (webpack (VRef 1) (VRef 4) ex_heap).2 v1 =
    reify n (webpack (VRef 1) (VRef 4) ex_heap).2 v2.
Proof.
  apply (webpack_equivariant eq); try apply ex_heap_wf; try done; try by eexists.
  - split; intros; congruence.
  - intros l ? <-. destruct (ex_heap !! l) as [o|] eqn:Hl; constructor.
    apply obj_rel_diag. by intros.
Defined.
