(* ===== verification/Proto.v ===== *)
(** * Prototype chains: where reading own properties is exact

    The operations of [JsHeap] read the own properties of an object.  In
    JavaScript the read [v.k] goes on, when [v] has no own property [k],
    with the prototype of [v], and so on along the chain of prototypes.
    The hook reads two properties, [isServer] (line 14) and [resolve]
    (line 17).  This file gives the read along the chain and says when the
    difference matters:

    - [proto] is the prototype of each object that has one (the internal
      slot of the object, which the program never changes); [chain_get]
      is the read along the chain, with fuel for the length of the chain,
      and [get_prop_chain] the expression [v.k] read that way;
    - [chain_prop] says what a chain holds under a key, without fuel;
    - [hook_gen] is the hook with the property read and the assignment
      as parameters, [hook_with] the hook with the assignment of
      [JsHeap], so that [webpack] is [hook_with get_prop];
    - chains are acyclic in JavaScript ([acyclic]); the fuel [size proto]
      is then enough to find what the chain holds, whatever the chain
      ([chain_get_fuel], [chain_get_complete]), and more fuel gives the
      same answer ([chain_get_le]);
    - on a client pass the hook installs the table in the object found
      under [resolve], however far up the chain ([hook_chain_installs]);
    - when no prototype defines [isServer] or [resolve] ([unpolluted]),
      the hook read along the chain is the hook of [Webpack]: every
      theorem of the development holds of it;
    - when [resolve] is inherited, the hook writes into the [resolve]
      object of the prototype, which every object with that prototype
      shares, where the own-property reading throws.

    Writes need no chain: an assignment to a data property defines or
    updates an own property of the object written to, which is what
    [set_prop] does; [Integrity] treats the objects that refuse it. *)

From stdpp Require Import base option gmap fin_maps strings list relations.
From S2P Require Import Prelude JsValue JsHeap Reify Literal Contract Webpack.

(** ** Definitions *)

(** The hook of lines 14 to 20, with the property read and the assignment
    as parameters. *)
Definition hook_gen (get : val → string → JS val) (set : val → string → val → JS unit)
    (config opts : val) : JS val :=
  let* isServer :=
    (if nullish opts then se_throw (TypeError DestructureOfNullish)
     else get opts "isServer") in
  (if negb (to_boolean isServer) then
     let* resolve := get config "resolve" in
     let* fb := fallback_literal in
     set resolve "fallback" fb
   else se_ret tt) ;;;
  se_ret config.

(** The hook with the property read as a parameter and the assignment of
    [JsHeap]. *)
Definition hook_with (get : val → string → JS val) (config opts : val) : JS val :=
  hook_gen get set_prop config opts.

(** The prototype of [l] is [p]. *)
Definition parent (proto : gmap loc loc) : relation loc :=
  λ l p, proto !! l = Some p.

(** No chain of prototypes comes back to an object. *)
Definition acyclic (proto : gmap loc loc) : Prop :=
  ∀ l, sn (parent proto) l.

(** The property [k] of the object at [l], read along at most [n]
    prototypes: the own property when there is one, what the prototype
    answers otherwise, [undefined] at the end of the chain.  [None] when
    [n] prototypes were not enough. *)
Fixpoint chain_get (proto : gmap loc loc) (n : nat) (h : heap) (l : loc) (k : string) :
    option val :=
  match h !! l with
  | None => Some VUndefined
  | Some o =>
      match obj_props o !! k, proto !! l, n with
      | Some v, _, _ => Some v
      | None, None, _ => Some VUndefined
      | None, Some p, S n' => chain_get proto n' h p k
      | None, Some _, 0 => None
      end
  end.

(** What the read along the chain answers, without fuel: the own
    property of the first object of the chain that has one, [undefined]
    when the chain ends first.  A prototype that is no object of the heap
    ends the chain, as [null] does. *)
Inductive chain_prop (proto : gmap loc loc) (h : heap) (k : string) : loc → val → Prop :=
| chain_own l o v :
    h !! l = Some o → obj_props o !! k = Some v → chain_prop proto h k l v
| chain_up l o p v :
    h !! l = Some o → obj_props o !! k = None → proto !! l = Some p →
    chain_prop proto h k p v → chain_prop proto h k l v
| chain_end l o :
    h !! l = Some o → obj_props o !! k = None → proto !! l = None →
    chain_prop proto h k l VUndefined
| chain_null l :
    h !! l = None → chain_prop proto h k l VUndefined.

(** [v.k], read along the chain. *)
Definition get_prop_chain (proto : gmap loc loc) (n : nat) (v : val) (k : string) : JS val :=
  λ h, match v with
       | VRef l =>
           match h !! l with
           | Some _ => (from_option inr (inl Stuck) (chain_get proto n h l k), h)
           | None => (inl Stuck, h)
           end
       | _ => get_prop v k h
       end.

(** No prototype defines [k]. *)
Definition unpolluted (proto : gmap loc loc) (h : heap) (k : string) : Prop :=
  ∀ l p o, proto !! l = Some p → h !! p = Some o → obj_props o !! k = None.

(** The heap of the example: [1] is a configuration with no property of
    its own, [2] its prototype, which carries [resolve], [3] the settings
    under [resolve], [4] the options of a client pass, and [5] another
    configuration with the same prototype. *)
Definition inherited_heap : heap :=
  {[ 1%positive := Obj ClsObject ∅;
     2%positive := Obj ClsObject {["resolve" := VRef 3]};
     3%positive := Obj ClsObject ∅;
     4%positive := Obj ClsObject {["isServer" := VBool false]};
     5%positive := Obj ClsObject ∅ ]}.

Definition inherited_proto : gmap loc loc :=
  {[ 1%positive := 2%positive; 5%positive := 2%positive ]}.

(** ** The hook and its parameter *)

Lemma hook_with_get_prop config opts : hook_with get_prop config opts = webpack config opts.
Proof. reflexivity. Qed.

(** Two reads that agree in [h] and leave it as it is give the same
    hook in [h]. *)
Lemma hook_with_ext get get' config opts h :
  (∀ v k, get v k h = get' v k h) → (∀ v k, (get' v k h).2 = h) →
  hook_with get config opts h = hook_with get' config opts h.
Proof.
  intros Hext Hpure. unfold hook_with, hook_gen, se_bind.
  destruct (nullish opts); [done|]. rewrite Hext.
  pose proof (Hpure opts "isServer") as Hh.
  destruct (get' opts "isServer" h) as [[e|s] h1]; [done|]. simpl in Hh. subst h1.
  destruct (negb (to_boolean s)); [|done]. by rewrite Hext.
Qed.

(** ** The read along the chain *)

Section chain.
Context (proto : gmap loc loc) (h : heap).
Implicit Types (l p : loc) (k : string) (n : nat) (v : val) (o : obj).

Lemma chain_get_own n l o k v :
  h !! l = Some o → obj_props o !! k = Some v → chain_get proto n h l k = Some v.
Proof. intros Hl Hk. destruct n; simpl; by rewrite Hl, Hk. Qed.

(** More fuel does not change an answer. *)
Lemma chain_get_S n l k v :
  chain_get proto n h l k = Some v → chain_get proto (S n) h l k = Some v.
Proof.
  revert l. induction n as [|n IH]; intros l; simpl;
    destruct (h !! l) as [o|]; try done;
    destruct (obj_props o !! k); try done; destruct (proto !! l) as [p|]; try done.
  apply IH.
Qed.

Lemma chain_get_le n m l k v :
  n ≤ m → chain_get proto n h l k = Some v → chain_get proto m h l k = Some v.
Proof. induction 1; [done|]. intros Hn. by apply chain_get_S, IHle. Qed.

(** Reading does not change the heap. *)
Lemma get_prop_chain_heap n v k : (get_prop_chain proto n v k h).2 = h.
Proof.
  unfold get_prop_chain. destruct v as [| | | | |l]; try done.
  by destruct (h !! l).
Qed.

(** The read of a property that no prototype defines: whatever the
    chain, what is answered is the own property. *)
Lemma chain_get_proto_undefined n l p k v :
  unpolluted proto h k → proto !! l = Some p →
  chain_get proto n h p k = Some v → v = VUndefined.
Proof.
  intros Hun. revert l p. induction n as [|n IH]; intros l p Hp; simpl;
    destruct (h !! p) as [o|] eqn:Ho; try congruence;
    rewrite (Hun l p o Hp Ho); destruct (proto !! p) as [q|] eqn:Hq; try congruence.
  by apply (IH p q).
Qed.

Lemma chain_get_unpolluted n l o k v :
  unpolluted proto h k → h !! l = Some o →
  chain_get proto n h l k = Some v → v = obj_get o k.
Proof.
  intros Hun Hl. unfold obj_get. destruct n as [|n]; simpl; rewrite Hl;
    destruct (obj_props o !! k); cbn [from_option id]; try congruence;
    destruct (proto !! l) as [p|] eqn:Hp; try congruence.
  by apply chain_get_proto_undefined with l.
Qed.

End chain.

(** ** Enough fuel *)

Lemma sn_no_cycle {A} (R : relation A) x : sn R x → ¬ tc R x x.
Proof.
  induction 1 as [x _ IH]. intros Htc.
  assert (∃ y, R x y ∧ rtc R y x) as (y & Hxy & Hyx)
    by (inversion Htc; subst; eauto using tc_rtc).
  apply (IH y Hxy). by eapply tc_rtc_l, tc_once.
Qed.

Lemma parent_delete proto l x y : parent (delete l proto) x y → parent proto x y.
Proof. unfold parent. by intros [_ ?]%lookup_delete_Some. Qed.

Lemma sn_parent_delete proto l x : sn (parent proto) x → sn (parent (delete l proto)) x.
Proof.
  induction 1 as [x _ IH]. constructor. intros y Hy. apply IH. by eapply parent_delete.
Qed.

(** The chain from [p] does not see the prototype of an object it does
    not reach. *)
Lemma chain_get_delete proto l n h p k :
  ¬ rtc (parent proto) p l →
  chain_get (delete l proto) n h p k = chain_get proto n h p k.
Proof.
  revert p. induction n as [|n IH]; intros p Hp; simpl;
    (rewrite lookup_delete_ne by (intros ->; by apply Hp));
    destruct (h !! p) as [o|]; try done;
    destruct (obj_props o !! k); try done; destruct (proto !! p) as [q|] eqn:Hq; try done.
  apply IH. intros Hq'. apply Hp. by eapply rtc_l.
Qed.

(** As many steps as objects have a prototype are enough. *)
Lemma chain_get_fuel proto n h l k :
  sn (parent proto) l → size proto ≤ n → is_Some (chain_get proto n h l k).
Proof.
  revert proto l. induction n as [|n IH]; intros proto l Hsn Hn.
  { assert (proto = ∅) as -> by (apply map_size_empty_inv; lia). simpl.
    destruct (h !! l) as [o|]; [|done]. rewrite lookup_empty. by destruct (obj_props o !! k). }
  simpl. destruct (h !! l) as [o|]; [|done]. destruct (obj_props o !! k); [done|].
  destruct (proto !! l) as [p|] eqn:Hp; [|done].
  rewrite <-(chain_get_delete proto l).
  - apply IH; [by eapply sn_parent_delete, sn_step | rewrite map_size_delete_Some by done; lia].
  - intros Hpl. apply (sn_no_cycle _ _ Hsn). by eapply tc_rtc_r; [apply tc_once|].
Qed.

(** A prototype map along which a rank decreases has no cycle. *)
Lemma acyclic_ranked proto (rank : loc → nat) :
  (∀ l p, proto !! l = Some p → rank p < rank l) → acyclic proto.
Proof.
  intros Hrank l. remember (rank l) as n eqn:Hn. revert l Hn.
  induction (lt_wf n) as [n _ IH]. intros l ->.
  constructor. intros p Hp. eapply IH; [by apply Hrank | done].
Qed.

(** ** The read with fuel and the read without *)

Section spec.
Context (proto : gmap loc loc) (h : heap) (k : string).

Lemma chain_get_sound n l v : chain_get proto n h l k = Some v → chain_prop proto h k l v.
Proof.
  revert l. induction n as [|n IH]; intros l; cbn [chain_get];
    (destruct (h !! l) as [o|] eqn:Hl; [|intros [= <-]; by apply chain_null]);
    (destruct (obj_props o !! k) eqn:Hk; [intros [= <-]; by eapply chain_own|]);
    (destruct (proto !! l) as [p|] eqn:Hp; [|intros [= <-]; by eapply chain_end]);
    [done | intros Hv; eapply chain_up; eauto].
Qed.

Lemma chain_prop_det l v v' : chain_prop proto h k l v → chain_prop proto h k l v' → v = v'.
Proof. induction 1; inversion 1; simplify_eq; eauto. Qed.

(** On a chain without cycle, fuel for every object that has a prototype
    finds what the chain holds. *)
Lemma chain_get_complete n l v :
  sn (parent proto) l → size proto ≤ n →
  chain_prop proto h k l v → chain_get proto n h l k = Some v.
Proof.
  intros Hsn Hn Hv. destruct (chain_get_fuel proto n h l k Hsn Hn) as [v' Hv'].
  rewrite Hv'. f_equal. eauto using chain_prop_det, chain_get_sound.
Qed.

Lemma chain_prop_ref l lr : chain_prop proto h k l (VRef lr) → is_Some (h !! l).
Proof. inversion 1; eauto. Qed.

Lemma get_prop_chain_spec n l v :
  acyclic proto → size proto ≤ n → is_Some (h !! l) → chain_prop proto h k l v →
  get_prop_chain proto n (VRef l) k h = (inr v, h).
Proof.
  intros Hacyclic Hn [o Hl] Hv. unfold get_prop_chain.
  by rewrite Hl, (chain_get_complete n l v) by done.
Qed.

End spec.

(** ** Where the two reads agree *)

Section agree.
Context (proto : gmap loc loc) (h : heap) (n : nat).
Context (Hacyclic : acyclic proto) (Hn : size proto ≤ n).

Lemma get_prop_chain_own v k :
  unpolluted proto h k → get_prop_chain proto n v k h = get_prop v k h.
Proof using Hacyclic Hn.
  intros Hun. destruct v as [| | | | |l]; try done. unfold get_prop_chain, get_prop.
  destruct (h !! l) as [o|] eqn:Hl; [|done].
  destruct (chain_get_fuel proto n h l k (Hacyclic l) Hn) as [v Hv]. rewrite Hv. simpl.
  by rewrite (chain_get_unpolluted proto h n l o k v Hun Hl Hv).
Qed.

Lemma hook_with_chain_own config opts :
  unpolluted proto h "isServer" → unpolluted proto h "resolve" →
  hook_with (get_prop_chain proto n) config opts h = webpack config opts h.
Proof using Hacyclic Hn.
  intros Hs Hr. unfold hook_with, hook_gen, webpack, destructure, webpack_body, se_bind.
  destruct (nullish opts); [done|]. rewrite get_prop_chain_own by done.
  destruct (get_prop opts "isServer" h) as [[e|s] h1] eqn:Hg; [done|].
  apply get_prop_heap in Hg as ->. destruct (negb (to_boolean s)); [|done].
  by rewrite get_prop_chain_own.
Qed.

End agree.

(** ** The example *)

Lemma inherited_proto_acyclic : acyclic inherited_proto.
Proof.
  apply (acyclic_ranked _ (λ l, if decide (l = 2%positive) then 0 else 1)).
  unfold inherited_proto.
  intros l p [[<- <-]|[_ [<- <-]%lookup_singleton_Some]]%lookup_insert_Some;
    vm_compute; lia.
Qed.

(** The heap of section 8.3 of the specification, where the table [3] is
    also the prototype of the configuration [1]: it defines neither
    [isServer] nor [resolve]. *)
Lemma ex_proto_acyclic : acyclic {[ 1%positive := 3%positive ]}.
Proof.
  apply (acyclic_ranked _ (λ l, if decide (l = 3%positive) then 0 else 1)).
  intros l p [<- <-]%lookup_singleton_Some. vm_compute. lia.
Qed.

Lemma ex_proto_unpolluted k :
  k ≠ "fs" → k ≠ "path" → k ≠ "other" → unpolluted {[ 1%positive := 3%positive ]} ex_heap k.
Proof.
  intros ??? l p o [<- <-]%lookup_singleton_Some Ho.
  change (ex_heap !! 3%positive) with
    (Some (Obj ClsObject {["fs" := VBool true; "path" := VBool true; "other" := VBool true]})) in Ho.
  injection Ho as <-. cbn [obj_props]. by rewrite !lookup_insert_ne, lookup_singleton_ne.
Qed.

(** After the pass over the configuration [1], the configuration [5],
    which has the same prototype, reads the new table along the chain. *)
Example inherited_shared :
  let h' := (hook_with (get_prop_chain inherited_proto 1) (VRef 1) (VRef 4) inherited_heap).2 in
  chain_get inherited_proto 1 h' 5 "resolve" = Some (VRef 3) ∧
  chain_get inherited_proto 1 h' 3 "fallback" = Some (VRef 6) ∧
  h' !! 6%positive = Some fallback_obj.
Proof. by vm_compute. Qed.

(** A chain with a cycle that does not define the key never answers. *)
Example chain_get_cyclic n :
  chain_get {[ 1%positive := 1%positive ]} n {[ 1%positive := Obj ClsObject ∅ ]} 1 "resolve" = None.
Proof.
  induction n as [|n IH]; cbn [chain_get]; rewrite !lookup_singleton_eq; cbn [obj_props];
    by rewrite lookup_empty.
Qed.

(** ** Theorems *)

(** C30: a client pass, read along the chain.  When the chains have no
    cycle and the fuel is the number of objects that have a prototype,
    however far up the chain of the options a falsy [isServer] is found
    (or when no object of the chain has one), and however far up the chain
    of the configuration [resolve] is found to be an object, the hook
    returns the configuration and installs a new table under [fallback]
    in that object. *)
Theorem hook_chain_installs proto n h lc lo lr o_r s :
  acyclic proto → size proto ≤ n → is_Some (h !! lo) →
  chain_prop proto h "isServer" lo s → to_boolean s = false →
  chain_prop proto h "resolve" lc (VRef lr) → h !! lr = Some o_r →
  hook_with (get_prop_chain proto n) (VRef lc) (VRef lo) h = (inr (VRef lc), install h lr o_r).
Proof.
  intros Hacyclic Hn Hlo Hs Hfalse Hr Hlr. unfold hook_with, hook_gen, se_bind. cbn [nullish].
  rewrite (get_prop_chain_spec proto h "isServer" n lo s) by done.
  rewrite Hfalse. cbn [negb].
  rewrite (get_prop_chain_spec proto h "resolve" n lc (VRef lr)) by eauto using chain_prop_ref.
  rewrite fallback_literal_run.
  by rewrite (set_prop_ref lr _ _ _ o_r) by by apply lookup_insert_fresh_old.
Qed.

Lemma hook_chain_installs_witness :
  hook_with (get_prop_chain inherited_proto 2) (VRef 5) (VRef 4) inherited_heap =
    (inr (VRef 5), install inherited_heap 3 (Obj ClsObject ∅)).
Proof.
  apply (hook_chain_installs inherited_proto 2 inherited_heap 5 4 3 (Obj ClsObject ∅) (VBool false));
    [apply inherited_proto_acyclic | by vm_compute | by eexists
    | by eapply chain_own | done
    | eapply chain_up; [reflexivity..|by eapply chain_own] | reflexivity].
Defined.

(** C17: reading own properties is exact for the hook when no prototype
    defines [isServer] or [resolve].  Whatever the prototypes of the
    objects, as long as their chains have no cycle, the hook that reads
    along the chain with fuel for as many steps as objects have a
    prototype does what [webpack] does: the same result and the same
    heap, on every input. *)
Theorem webpack_chain_agrees proto n h config opts :
  acyclic proto → size proto ≤ n →
  unpolluted proto h "isServer" → unpolluted proto h "resolve" →
  hook_with (get_prop_chain proto n) config opts h = webpack config opts h.
Proof. intros. by apply hook_with_chain_own. Qed.

Lemma webpack_chain_agrees_witness :
  hook_with (get_prop_chain {[ 1%positive := 3%positive ]} 1) (VRef 1) (VRef 4) ex_heap =
  webpack (VRef 1) (VRef 4) ex_heap.
Proof.
  apply (webpack_chain_agrees {[ 1%positive := 3%positive ]} 1 ex_heap (VRef 1) (VRef 4));
    [apply ex_proto_acyclic | by rewrite map_size_singleton
    | by apply ex_proto_unpolluted | by apply ex_proto_unpolluted].
Defined.

(** C28: where the two differ.  On a client pass over a configuration
    that has no [resolve] of its own and inherits one from its prototype,
    the hook read along the chain completes and installs the table in the
    [resolve] object of the prototype, which the objects with that
    prototype share; read as own properties, the same call throws. *)
Theorem webpack_chain_inherited proto n h lc p lr lo o_c o_p o_r o_o s :
  proto !! lc = Some p →
  h !! lc = Some o_c → obj_props o_c !! "resolve" = None →
  h !! p = Some o_p → obj_props o_p !! "resolve" = Some (VRef lr) → h !! lr = Some o_r →
  h !! lo = Some o_o → obj_props o_o !! "isServer" = Some s → to_boolean s = false →
  hook_with (get_prop_chain proto (S n)) (VRef lc) (VRef lo) h =
    (inr (VRef lc), install h lr o_r) ∧
  webpack (VRef lc) (VRef lo) h =
    (inl (TypeError (WriteOfNullish "fallback")), <[fresh (dom h) := fallback_obj]> h).
Proof.
  intros Hp Hc Hcr Hpo Hpr Hlr Ho Hos Hs. split.
  - unfold hook_with, hook_gen, se_bind, get_prop_chain. cbn [nullish]. rewrite Ho.
    rewrite (chain_get_own proto h _ lo o_o "isServer" s) by done. cbn [from_option].
    rewrite Hs. cbn [negb]. cbv beta. rewrite Hc. cbn [chain_get]. rewrite Hc, Hcr, Hp.
    rewrite (chain_get_own proto h _ p o_p "resolve" (VRef lr)) by done. cbn [from_option].
    rewrite fallback_literal_run.
    by rewrite (set_prop_ref lr _ _ _ o_r) by by apply lookup_insert_fresh_old.
  - rewrite webpack_bound, webpack_body_client by
      (done || by eexists || by rewrite (peek_ref _ _ _ _ Ho); unfold obj_get; rewrite Hos).
    rewrite (peek_ref _ _ _ _ Hc). unfold obj_get. rewrite Hcr. cbn [from_option].
    by erewrite se_bind_inl by by apply set_prop_nullish.
Qed.

Lemma webpack_chain_inherited_witness :
  hook_with (get_prop_chain inherited_proto 1) (VRef 1) (VRef 4) inherited_heap =
    (inr (VRef 1), install inherited_heap 3 (Obj ClsObject ∅)) ∧
  webpack (VRef 1) (VRef 4) inherited_heap =
    (inl (TypeError (WriteOfNullish "fallback")),
     <[fresh (dom inherited_heap) := fallback_obj]> inherited_heap).
Proof.
  apply (webpack_chain_inherited inherited_proto 0 inherited_heap 1 2 3 4
           (Obj ClsObject ∅) (Obj ClsObject {["resolve" := VRef 3]}) (Obj ClsObject ∅)
           (Obj ClsObject {["isServer" := VBool false]}) (VBool false)); reflexivity.
Defined.
