(* ===== verification/Resolution.v ===== *)
(** * The contract of the hook over resolution settings

    The specification describes the hook as an operation
    [adjustResolution(settings, isServerTarget)] on the bundler's
    module-resolution settings: a value with an overridable fallback table
    and otherwise opaque fields.  This file states that contract on a pure
    record, in the two readings that the specification and the code give
    of it, and relates the heap-level hook to it:

    - [adjust_replace]: on a non-server target the fallback table becomes
      [{ fs: false, path: false }] (what line 17 does);
    - [adjust_merge]: on a non-server target the entries [fs] and [path] of
      the existing table are forced to [false] and every other entry is
      kept (sections 4.1 and 8.3 of the specification).

    [abs h lr] is the abstraction function: the settings that the object at
    [lr] represents in the heap [h]. *)

From stdpp Require Import base option gmap fin_maps strings.
From S2P Require Import Prelude JsValue JsHeap Reify Literal Webpack.

(** ** The abstract settings *)

Record resolution := Resolution {
  res_fallback : option (gmap string val);
  res_others : gmap string val;
}.

#[export] Instance resolution_eq_dec : EqDecision resolution.
Proof. solve_decision. Defined.

(** The table the hook installs. *)
Definition disabled : gmap string val :=
  {["fs" := VBool false; "path" := VBool false]}.

Definition adjust_replace (r : resolution) (isServer : bool) : resolution :=
  if isServer then r
  else {| res_fallback := Some disabled; res_others := res_others r |}.

Definition adjust_merge (r : resolution) (isServer : bool) : resolution :=
  if isServer then r
  else {| res_fallback :=
            Some (<["fs" := VBool false]> (<["path" := VBool false]> (default ∅ (res_fallback r))));
          res_others := res_others r |}.

(** ** The abstraction function *)

(** The fallback table a [resolve] object refers to, if it refers to one. *)
Definition fallback_of (h : heap) (o_r : obj) : option (gmap string val) :=
  match obj_get o_r "fallback" with
  | VRef lf => obj_props <$> h !! lf
  | _ => None
  end.

Definition abs (h : heap) (lr : loc) : option resolution :=
  o_r ← h !! lr;
  Some {| res_fallback := fallback_of h o_r;
          res_others := delete "fallback" (obj_props o_r) |}.

(** ** The abstract operations *)

Section abstract.
Implicit Types (r : resolution) (b : bool).

Lemma adjust_replace_idempotent r b :
  adjust_replace (adjust_replace r b) b = adjust_replace r b.
Proof. by destruct b. Qed.

Lemma adjust_merge_idempotent r b :
  adjust_merge (adjust_merge r b) b = adjust_merge r b.
Proof.
  destruct b; [done|]. unfold adjust_merge. simpl. do 2 f_equal.
  rewrite (insert_insert_ne _ "path" "fs") by done.
  by rewrite !insert_insert_eq.
Qed.

Lemma adjust_others r b : res_others (adjust_replace r b) = res_others (adjust_merge r b).
Proof. by destruct b. Qed.

(** Overriding two keys of a table yields [disabled] exactly when the table
    has no other key. *)
Lemma merge_disabled_iff (m : gmap string val) :
  <["fs" := VBool false]> (<["path" := VBool false]> m) = disabled ↔
  dom m ⊆ {["fs"; "path"]}.
Proof.
  split.
  - intros Heq k Hk. apply elem_of_dom in Hk as [v Hk].
    destruct (decide (k = "fs")) as [->|Hfs]; [set_solver|].
    destruct (decide (k = "path")) as [->|Hpath]; [set_solver|].
    assert (disabled !! k = Some v) as Hd by by rewrite <-Heq, !lookup_insert_ne.
    unfold disabled in Hd. by rewrite lookup_insert_ne, lookup_singleton_ne in Hd.
  - intros Hdom. apply map_eq. intros k. unfold disabled.
    destruct (decide (k = "fs")) as [->|Hfs]; [by rewrite !lookup_insert_eq|].
    rewrite !(lookup_insert_ne _ "fs") by done.
    destruct (decide (k = "path")) as [->|Hpath];
      [by rewrite lookup_insert_eq, lookup_singleton_eq|].
    rewrite lookup_insert_ne, lookup_singleton_ne by done.
    apply not_elem_of_dom. set_solver.
Qed.

(** The two readings of the contract agree on a server target, and on a
    non-server target exactly when the existing table has no entry besides
    [fs] and [path]. *)
Lemma adjust_merge_replace_iff r b :
  adjust_merge r b = adjust_replace r b ↔
  b = true ∨ dom (default ∅ (res_fallback r)) ⊆ {["fs"; "path"]}.
Proof.
  destruct b; [naive_solver|]. unfold adjust_merge, adjust_replace.
  rewrite <-merge_disabled_iff. split.
  - intros [= Heq]. by right.
  - intros [|Heq]; [done|]. by rewrite Heq.
Qed.

End abstract.

(** The settings an object represents do not depend on the objects a
    well-formed heap does not hold yet. *)
Lemma abs_subseteq h h' lr r :
  heap_wf h → h ⊆ h' → abs h lr = Some r → abs h' lr = Some r.
Proof.
  unfold abs. intros Hh Hsub. destruct (h !! lr) as [o_r|] eqn:Hlr; [|done].
  rewrite (lookup_weaken _ _ _ _ Hlr Hsub). simpl. intros [= <-]. do 2 f_equal.
  unfold fallback_of. pose proof (obj_wf_get h "fallback" o_r (heap_wf_lookup _ _ _ Hh Hlr)) as Hw.
  destruct (obj_get o_r "fallback") as [| | | | |lf]; try done. destruct Hw as [o_f Hlf].
  by rewrite Hlf, (lookup_weaken _ _ _ _ Hlf Hsub).
Qed.

(** ** The abstraction after a run of the hook *)

Section refinement.
Context (h : heap) (lc lr : loc) (o_c o_r : obj) (opts : val).
Context (Hn : nullish opts = false) (Ho : val_wf h opts).
Context (Hc : h !! lc = Some o_c) (Hr : obj_get o_c "resolve" = VRef lr).
Context (Hlr : h !! lr = Some o_r).

Lemma abs_defined : abs h lr = Some (Resolution (fallback_of h o_r) (delete "fallback" (obj_props o_r))).
Proof using Hlr. unfold abs. by rewrite Hlr. Qed.

Lemma abs_install :
  abs (install h lr o_r) lr =
  Some (Resolution (Some disabled) (delete "fallback" (obj_props o_r))).
Proof using Hlr.
  unfold abs. rewrite install_lookup_resolve. simpl. f_equal.
  unfold fallback_of. rewrite obj_get_set_eq, install_lookup_fresh by done. simpl.
  by rewrite delete_insert_eq.
Qed.

Lemma webpack_abs :
  abs (webpack (VRef lc) opts h).2 lr =
  (λ r, adjust_replace r (is_server h opts)) <$> abs h lr.
Proof using Hn Ho Hc Hr Hlr.
  rewrite abs_defined. simpl. destruct (is_server h opts) eqn:Hs.
  - rewrite webpack_server_unchanged_aux by done. apply abs_defined.
  - erewrite webpack_client_installs_aux by done. apply abs_install.
Qed.

End refinement.

(** ** Theorems *)

(** C5: the hook refines [adjust_replace].  When [config.resolve] is an
    object that represents the settings [r], after a run of the hook it
    represents [adjust_replace r b], where [b] tells whether the options
    carried a truthy [isServer]: the in-place update of the heap implements
    the pure operation on settings. *)
Theorem webpack_refines_adjust_replace h lc lr o_c opts r :
  nullish opts = false → val_wf h opts →
  h !! lc = Some o_c → obj_get o_c "resolve" = VRef lr →
  abs h lr = Some r →
  abs (webpack (VRef lc) opts h).2 lr = Some (adjust_replace r (is_server h opts)).
Proof.
  intros Hn Ho Hc Hr Habs. destruct (h !! lr) as [o_r|] eqn:Hlr; [|by unfold abs in Habs; rewrite Hlr in Habs].
  erewrite webpack_abs by done. by rewrite Habs.
Qed.

Lemma webpack_refines_adjust_replace_witness :
  abs (webpack (VRef 1) (VRef 4) ex_heap).2 2 =
  Some (adjust_replace
          (Resolution (Some {["fs" := VBool true; "path" := VBool true; "other" := VBool true]}) ∅)
          (is_server ex_heap (VRef 4))).
Proof.
  apply (webpack_refines_adjust_replace ex_heap 1 2 (Obj ClsObject {["resolve" := VRef 2]}));
    first [reflexivity | by eexists].
Defined.

(** C6: the hook meets the contract as the specification words it
    ([adjust_merge]: only [fs] and [path] change) exactly on a server pass
    and on settings whose fallback table has no entry besides [fs] and
    [path]; on every other input its result differs from the specified
    one. *)
Theorem webpack_meets_merge_iff h lc lr o_c opts r :
  nullish opts = false → val_wf h opts →
  h !! lc = Some o_c → obj_get o_c "resolve" = VRef lr →
  abs h lr = Some r →
  abs (webpack (VRef lc) opts h).2 lr = Some (adjust_merge r (is_server h opts)) ↔
  is_server h opts = true ∨ dom (default ∅ (res_fallback r)) ⊆ {["fs"; "path"]}.
Proof.
  intros Hn Ho Hc Hr Habs. destruct (h !! lr) as [o_r|] eqn:Hlr; [|by unfold abs in Habs; rewrite Hlr in Habs].
  erewrite webpack_abs by done. rewrite Habs, <-adjust_merge_replace_iff. simpl.
  split; [by intros [= ->] | by intros ->].
Qed.

Lemma webpack_meets_merge_iff_witness :
  let r := Resolution (Some {["fs" := VBool true; "path" := VBool true; "other" := VBool true]}) ∅ in
  abs (webpack (VRef 1) (VRef 4) ex_heap).2 2 = Some (adjust_merge r (is_server ex_heap (VRef 4))) ↔
  is_server ex_heap (VRef 4) = true ∨ dom (default ∅ (res_fallback r)) ⊆ {["fs"; "path"]}.
Proof.
  apply (webpack_meets_merge_iff ex_heap 1 2 (Obj ClsObject {["resolve" := VRef 2]}));
    first [reflexivity | by eexists].
Defined.

(** The example of section 8.3 of the specification, run.  From the
    settings [{ fallback: { fs: true, path: true, other: true } }] a client
    pass leaves [{ fallback: { fs: false, path: false } }]: the entry
    [other], which the specification expects to pass through untouched, is
    gone. *)
Example spec_example_8_3 :
  abs ex_heap 2 =
    Some (Resolution (Some {["fs" := VBool true; "path" := VBool true; "other" := VBool true]}) ∅) ∧
  abs (webpack (VRef 1) (VRef 4) ex_heap).2 2 =
    Some (Resolution (Some {["fs" := VBool false; "path" := VBool false]}) ∅) ∧
  abs (webpack (VRef 1) (VRef 4) ex_heap).2 2 ≠
    Some (Resolution (Some {["fs" := VBool false; "path" := VBool false; "other" := VBool true]}) ∅).
Proof. split_and!; [reflexivity | reflexivity | by vm_compute]. Qed.
