(* ===== verification/Integrity.v ===== *)
(** * Integrity levels: where the assignment of line 17 takes effect

    [set_prop] of [JsHeap] writes the property unconditionally, which is
    what an assignment does to an extensible object.  JavaScript lets a
    caller restrict an object: [Object.preventExtensions] and
    [Object.seal] forbid new properties, [Object.freeze] forbids every
    write.  The module has no "use strict" directive, so an assignment
    that an object refuses is skipped without an exception.  This file
    gives the assignment that honours the restrictions and says what they
    do to the hook:

    - [integrity] is the level of an object and [integ] the level of each
      object that is restricted; [can_write] tells whether an object
      accepts the assignment of a key; [set_prop_in] is the statement
      [v.k = x] under the levels [integ];
    - when the object [config.resolve] refers to accepts the key
      [fallback], the hook with its reads along the prototype chain and
      its assignment under the levels is the hook of [Webpack]
      ([webpack_adequate]);
    - when it does not, a client pass completes normally and changes no
      object of the heap: the settings represent what they represented,
      not [adjust_replace] of it ([webpack_frozen_silent]).

    The levels are those of whole objects: a single property made
    non-writable by [Object.defineProperty], and a write refused because a
    prototype holds a non-writable property of the same key, are not
    represented. *)

From stdpp Require Import base option gmap fin_maps strings.
From S2P Require Import Prelude JsValue JsHeap Reify Literal Contract Webpack Proto Resolution.

(** ** Definitions *)

(** What an object accepts: every assignment, assignments to the
    properties it has ([Object.preventExtensions], [Object.seal]), or none
    ([Object.freeze]). *)
Inductive integrity :=
| Extensible
| NonExtensible
| Frozen.

#[export] Instance integrity_eq_dec : EqDecision integrity.
Proof. solve_decision. Defined.

(** The level of the object at [l]; an object is extensible until it is
    restricted. *)
Definition level (integ : gmap loc integrity) (l : loc) : integrity :=
  default Extensible (integ !! l).

(** Does an object of level [g] accept the assignment of the key [k]? *)
Definition can_write (g : integrity) (o : obj) (k : string) : bool :=
  match g with
  | Extensible => true
  | NonExtensible => bool_decide (is_Some (obj_props o !! k))
  | Frozen => false
  end.

(** [v.k = x] in sloppy mode, under the levels [integ]: as [set_prop], but
    an object that does not accept the key is left as it is. *)
Definition set_prop_in (integ : gmap loc integrity) (v : val) (k : string) (x : val) :
    JS unit :=
  λ h, match v with
       | VRef l =>
           match h !! l with
           | Some o =>
               if can_write (level integ l) o k then (inr tt, <[l := obj_set k x o]> h)
               else (inr tt, h)
           | None => (inl Stuck, h)
           end
       | _ => set_prop v k x h
       end.

(** The value [v], if it is an object, accepts the key [k]. *)
Definition writable (integ : gmap loc integrity) (h : heap) (k : string) (v : val) : Prop :=
  ∀ l o, v = VRef l → h !! l = Some o → can_write (level integ l) o k = true.

(** ** The assignment under the levels *)

Section assignment.
Context (integ : gmap loc integrity).
Implicit Types (h : heap) (v x : val) (k : string) (l : loc) (o : obj).

Lemma set_prop_in_writable v k x h :
  writable integ h k v → set_prop_in integ v k x h = set_prop v k x h.
Proof.
  intros Hw. destruct v as [| | | | |l]; try done. unfold set_prop_in, set_prop.
  destruct (h !! l) as [o|] eqn:Hl; [|done]. by rewrite (Hw l o).
Qed.

Lemma set_prop_in_refused l k x h o :
  h !! l = Some o → can_write (level integ l) o k = false →
  set_prop_in integ (VRef l) k x h = (inr tt, h).
Proof. intros Hl Hw. unfold set_prop_in. by rewrite Hl, Hw. Qed.

(** No level is recorded for an object that does not exist yet, so a new
    object is extensible. *)
Lemma level_fresh h : dom integ ⊆ dom h → level integ (fresh (dom h)) = Extensible.
Proof.
  intros Hdom. unfold level. rewrite (not_elem_of_dom_1 integ); [done|].
  intros Hin. by apply (is_fresh (dom h)), Hdom.
Qed.

Lemma writable_alloc h k v o :
  dom integ ⊆ dom h → writable integ h k v → writable integ (<[fresh (dom h) := o]> h) k v.
Proof.
  intros Hdom Hw l o' -> Hl. destruct (decide (l = fresh (dom h))) as [->|Hne].
  - by rewrite level_fresh.
  - rewrite lookup_insert_ne in Hl by done. eauto.
Qed.

Lemma level_empty l : level ∅ l = Extensible.
Proof. unfold level. by rewrite lookup_empty. Qed.

End assignment.

(** Without restricted objects the assignment is [set_prop]. *)
Lemma set_prop_in_empty v k x h : set_prop_in ∅ v k x h = set_prop v k x h.
Proof. apply set_prop_in_writable. intros l o _ _. by rewrite level_empty. Qed.

(** What a read answers when it completes. *)
Lemma get_prop_inr v k h r h' : get_prop v k h = (inr r, h') → r = peek h v k ∧ h' = h.
Proof. unfold get_prop, peek. intros; repeat case_match; by simplify_eq. Qed.

(** ** Theorems *)

(** C18: the hook as JavaScript runs it.  With its two reads along the
    prototype chain and its assignment under the integrity levels of the
    objects, the hook gives the result and the heap of [webpack] on every
    input, provided that the chains have no cycle, no prototype defines
    [isServer] or [resolve], the levels are those of objects of the heap,
    and the object [config.resolve] refers to accepts the key
    [fallback]. *)
Theorem webpack_adequate proto integ n h config opts :
  acyclic proto → size proto ≤ n →
  unpolluted proto h "isServer" → unpolluted proto h "resolve" →
  dom integ ⊆ dom h → writable integ h "fallback" (peek h config "resolve") →
  hook_gen (get_prop_chain proto n) (set_prop_in integ) config opts h = webpack config opts h.
Proof.
  intros Hacyclic Hn Hs Hr Hdom Hw.
  unfold hook_gen, webpack, destructure, webpack_body, se_bind.
  destruct (nullish opts); [done|]. rewrite (get_prop_chain_own proto h n) by done.
  destruct (get_prop opts "isServer" h) as [[e|s] h1] eqn:Hg; [done|].
  apply get_prop_heap in Hg as ->. destruct (negb (to_boolean s)); [|done].
  rewrite (get_prop_chain_own proto h n) by done.
  destruct (get_prop config "resolve" h) as [[e|r] h1] eqn:Hg; [done|].
  apply get_prop_inr in Hg as [-> ->]. rewrite fallback_literal_run.
  by rewrite set_prop_in_writable by by apply writable_alloc.
Qed.

Lemma webpack_adequate_witness :
  hook_gen (get_prop_chain {[ 1%positive := 3%positive ]} 1)
           (set_prop_in {[ 2%positive := NonExtensible ]}) (VRef 1) (VRef 4) ex_heap =
  webpack (VRef 1) (VRef 4) ex_heap.
Proof.
  apply (webpack_adequate {[ 1%positive := 3%positive ]} {[ 2%positive := NonExtensible ]} 1
           ex_heap (VRef 1) (VRef 4));
    [apply ex_proto_acyclic | by rewrite map_size_singleton
    | by apply ex_proto_unpolluted | by apply ex_proto_unpolluted
    | by apply (bool_decide_unpack _); vm_compute | intros l o [= <-] [= <-]; by vm_compute].
Defined.

(** C29: a client pass over settings that refuse the assignment.  When
    the object [config.resolve] refers to does not accept the key
    [fallback] (it is frozen, or it is not extensible and has no
    [fallback] yet), the hook allocates the table, completes normally and
    returns the configuration, but no object of the heap has changed: the
    settings still represent what they represented. *)
Theorem webpack_frozen_silent integ h lc lr o_c o_r opts r :
  heap_wf h → nullish opts = false → val_wf h opts → is_server h opts = false →
  h !! lc = Some o_c → obj_get o_c "resolve" = VRef lr → h !! lr = Some o_r →
  can_write (level integ lr) o_r "fallback" = false →
  abs h lr = Some r →
  hook_gen get_prop (set_prop_in integ) (VRef lc) opts h =
    (inr (VRef lc), <[fresh (dom h) := fallback_obj]> h) ∧
  abs (<[fresh (dom h) := fallback_obj]> h) lr = Some r.
Proof.
  intros Hh Hn Ho Hs Hc Hr Hlr Hw Habs. split; [|by eapply abs_subseteq; eauto with js].
  unfold hook_gen, se_bind. rewrite Hn, (get_prop_peek opts) by done.
  fold (is_server h opts). rewrite Hs. cbn [negb].
  rewrite (get_prop_ref lc "resolve" h o_c), Hr, fallback_literal_run by done.
  by rewrite (set_prop_in_refused integ lr _ _ _ o_r) by (done || by apply lookup_insert_fresh_old).
Qed.

Lemma webpack_frozen_silent_witness :
  hook_gen get_prop (set_prop_in {[ 2%positive := Frozen ]}) (VRef 1) (VRef 4) ex_heap =
    (inr (VRef 1), <[fresh (dom ex_heap) := fallback_obj]> ex_heap) ∧
  abs (<[fresh (dom ex_heap) := fallback_obj]> ex_heap) 2 =
    Some (Resolution (Some {["fs" := VBool true; "path" := VBool true; "other" := VBool true]}) ∅).
Proof.
  apply (webpack_frozen_silent {[ 2%positive := Frozen ]} ex_heap 1 2
           (Obj ClsObject {["resolve" := VRef 2]}) (Obj ClsObject {["fallback" := VRef 3]}));
    first [apply ex_heap_wf | reflexivity | by eexists].
Defined.
