(* ===== verification/Hostname.v ===== *)
(** * The syntax of host names

    The specification requires the entries of the image allow-list to be
    syntactically valid host names.  The program does not check this; the
    requirement is an invariant of its data.  This file holds the checker
    the invariant is stated with: the preferred name syntax of RFC 1123
    (labels of letters, digits and hyphens, separated by dots, each of 1 to
    63 characters and neither starting nor ending with a hyphen, 253
    characters in all). *)

From Stdlib Require Import Ascii.
From stdpp Require Import base list strings.
From S2P Require Import Prelude.

(** ** Characters *)

Definition is_digit (c : ascii) : bool :=
  let n := nat_of_ascii c in (48 <=? n) && (n <=? 57).

Definition is_letter (c : ascii) : bool :=
  let n := nat_of_ascii c in
  (65 <=? n) && (n <=? 90) || (97 <=? n) && (n <=? 122).

Definition is_hyphen (c : ascii) : bool := Ascii.eqb c "-".

Definition is_dot (c : ascii) : bool := Ascii.eqb c ".".

Definition is_ldh (c : ascii) : bool := is_letter c || is_digit c || is_hyphen c.

(** ** Labels *)

(** The labels of a name: the maximal runs of characters between dots.
    [cur] holds the label being read, last character first. *)
Fixpoint labels_from (cur : list ascii) (s : string) : list (list ascii) :=
  match s with
  | EmptyString => [reverse cur]
  | String c s' =>
      if is_dot c then reverse cur :: labels_from [] s'
      else labels_from (c :: cur) s'
  end.

Definition labels (s : string) : list (list ascii) := labels_from [] s.

Definition valid_label (l : list ascii) : bool :=
  match l, last l with
  | c :: _, Some c' =>
      negb (is_hyphen c) && negb (is_hyphen c') && forallb is_ldh l && (length l <=? 63)
  | _, _ => false
  end.

Definition valid_hostname (s : string) : bool :=
  (String.length s <=? 253) && forallb valid_label (labels s).

(** The name the labels [ls] spell, with [cur] (last character first) in
    front of the first of them. *)
Definition join_labels (ls : list (list ascii)) : list ascii :=
  match ls with
  | [] => []
  | l :: ls => l ++ mjoin ((λ l', "."%char :: l') <$> ls)
  end.

(** ** Lemmas *)

Section hostname.
Implicit Types (s : string) (c : ascii) (l cur : list ascii).

Lemma labels_from_nonempty cur s : labels_from cur s ≠ [].
Proof. revert cur. induction s as [|c s IH]; intros cur; simpl; [done|]. by destruct (is_dot c). Qed.

(** Splitting a name into labels loses nothing: joining them with dots
    gives the name back. *)
Lemma join_labels_from cur s :
  join_labels (labels_from cur s) = reverse cur ++ String.list_ascii_of_string s.
Proof.
  revert cur. induction s as [|c s IH]; intros cur; simpl.
  - by rewrite app_nil_r.
  - destruct (is_dot c) eqn:Hc.
    + apply Ascii.eqb_eq in Hc as ->. specialize (IH []).
      destruct (labels_from [] s) as [|l ls] eqn:Hl; [by apply labels_from_nonempty in Hl|].
      unfold join_labels in *. rewrite fmap_cons. f_equal.
      change (mjoin (?x :: ?xs)) with (x ++ mjoin xs). simpl. f_equal. exact IH.
    + rewrite IH, reverse_cons, <-app_assoc. done.
Qed.

Lemma join_labels_labels s : join_labels (labels s) = String.list_ascii_of_string s.
Proof. apply join_labels_from. Qed.

(** No label contains a dot. *)
Lemma labels_from_no_dot cur s :
  Forall (λ c, is_dot c = false) cur →
  Forall (Forall (λ c, is_dot c = false)) (labels_from cur s).
Proof.
  revert cur. induction s as [|c s IH]; intros cur Hcur; simpl.
  - repeat constructor. by apply Forall_reverse.
  - destruct (is_dot c) eqn:Hc.
    + constructor; [by apply Forall_reverse | by apply IH].
    + apply IH. by constructor.
Qed.

(** A valid name is made of letters, digits, hyphens and dots only: it
    carries no scheme, port, path or wildcard. *)
Lemma valid_hostname_chars s c :
  valid_hostname s = true → c ∈ String.list_ascii_of_string s → is_ldh c = true ∨ is_dot c = true.
Proof.
  unfold valid_hostname. intros [_ Hls]%andb_prop Hc.
  rewrite <-join_labels_labels in Hc. rewrite forallb_forall in Hls.
  assert (∀ l, l ∈ labels s → ∀ c', c' ∈ l → is_ldh c' = true) as Hldh.
  { intros l Hl c' Hc'. apply list_elem_of_In, Hls in Hl. unfold valid_label in Hl.
    destruct l as [|c0 l0]; [done|]. destruct (last (c0 :: l0)); [|done].
    apply andb_prop in Hl as [[[_ _]%andb_prop Hall]%andb_prop _].
    rewrite forallb_forall in Hall. by apply Hall, list_elem_of_In. }
  destruct (labels s) as [|l ls]; simpl in Hc; [by apply elem_of_nil in Hc|].
  apply elem_of_app in Hc as [Hc|Hc]; [left; eapply Hldh; [left|done]|].
  apply list_elem_of_join in Hc as (l' & Hc & Hl').
  apply list_elem_of_fmap in Hl' as (l'' & -> & Hl'').
  apply elem_of_cons in Hc as [->|Hc]; [by right|].
  left. eapply Hldh; [by right|done].
Qed.

Lemma valid_hostname_nonempty s : valid_hostname s = true → s ≠ "".
Proof. by intros Hs ->. Qed.

End hostname.
