(* ===== verification/Schema.v ===== *)
(** * The type of the configuration

    Line 1 of [next.config.js] annotates the constant with the type
    [NextConfig] of the framework.  The data model of the specification
    gives the part of that type the file uses: feature toggles that are
    booleans or structured, a list of compiler plugins that are pairs of a
    name and an options mapping, an ordered sequence of host names, and a
    hook that is a function.  This file holds a small language of structural
    types over trees, the checker [has_type], the type [NextConfig_ty],
    the annotation itself ([nextConfig_annotation], a reference to a type
    that a module exports) and the table [framework_type] that resolves
    such references. *)

From stdpp Require Import base option gmap fin_maps strings list.
From S2P Require Import Prelude JsValue JsHeap Reify.

(** ** Types *)

#[warnings="-register-all"]
Inductive ty :=
| TyBoolean
| TyString
| TyArray (τ : ty)
| TyTuple (τs : list ty)
| TyRecord
| TyFunction
| TyObject (fields : list (string * ty)).

(** [has_type τ t]: the tree [t] has the type [τ].  An object type lists
    optional properties; an object has it when each of its properties is
    listed and has the type listed for it (the check a literal undergoes).
    [TyRecord] is the type of the plain objects, whatever their
    properties. *)
Fixpoint has_type (τ : ty) (t : tree) {struct τ} : bool :=
  match τ with
  | TyBoolean => match t with TBool _ => true | _ => false end
  | TyString => match t with TStr _ => true | _ => false end
  | TyArray τ' =>
      match tree_elems t with
      | Some ts => forallb (has_type τ') ts
      | None => false
      end
  | TyTuple τs =>
      match tree_elems t with
      | Some ts =>
          (fix go (τs : list ty) (ts : list tree) : bool :=
             match τs, ts with
             | [], [] => true
             | τ' :: τs', t' :: ts' => has_type τ' t' && go τs' ts'
             | _, _ => false
             end) τs ts
      | None => false
      end
  | TyRecord => match t with TObject ClsObject _ => true | _ => false end
  | TyFunction => match t with TObject (ClsFunction _) _ => true | _ => false end
  | TyObject fields =>
      match t with
      | TObject ClsObject fs =>
          bool_decide (dom fs ⊆ list_to_set fields.*1) &&
          (fix go (fields : list (string * ty)) : bool :=
             match fields with
             | [] => true
             | (k, τ') :: fields' =>
                 match fs !! k with
                 | Some t' => has_type τ' t'
                 | None => true
                 end && go fields'
             end) fields
      | _ => false
      end
  end.

(** The part of [NextConfig] the file uses. *)
Definition NextConfig_ty : ty :=
  TyObject
    [("experimental",
      TyObject [("appDir", TyBoolean);
                ("swcPlugins", TyArray (TyTuple [TyString; TyRecord]))]);
     ("images", TyObject [("domains", TyArray TyString)]);
     ("webpack", TyFunction)].

(** A type named in an annotation: [import('m').T] is the type [T] that
    the module [m] exports. *)
Record type_ref := TypeRef {
  ref_module : string;
  ref_type : string;
}.

#[export] Instance type_ref_eq_dec : EqDecision type_ref.
Proof. solve_decision. Defined.

(** [@type {import('next').NextConfig}] (line 1) *)
Definition nextConfig_annotation : type_ref := TypeRef "next" "NextConfig".

(** The types the framework exports, as far as the data model of the
    specification gives them. *)
Definition framework_type (r : type_ref) : option ty :=
  if decide (r = TypeRef "next" "NextConfig") then Some NextConfig_ty else None.

(** ** What a type tells *)

Section has_type.
Implicit Types (τ : ty) (t : tree) (fs : gmap string tree).

Lemma has_type_array τ t :
  has_type (TyArray τ) t = true ↔
  ∃ ts, tree_elems t = Some ts ∧ Forall (λ t', has_type τ t' = true) ts.
Proof.
  simpl. destruct (tree_elems t) as [ts|]; [|naive_solver]. rewrite forallb_forall. split.
  - intros H. exists ts. split; [done|]. apply Forall_forall. intros x Hx. by apply H, list_elem_of_In.
  - intros (? & [= <-] & H) x Hx. rewrite Forall_forall in H. by apply H, list_elem_of_In.
Qed.

Lemma has_type_string t : has_type TyString t = true ↔ ∃ s, t = TStr s.
Proof. destruct t; naive_solver. Qed.

(** The properties an object type lists have the types it lists. *)
Lemma has_type_object_get fields c fs k τ :
  (k, τ) ∈ fields →
  has_type (TyObject fields) (TObject c fs) = true →
  ∀ t, fs !! k = Some t → has_type τ t = true.
Proof.
  intros Hk Ht t Hfs. simpl in Ht. destruct c; try done.
  apply andb_prop in Ht as [_ Ht].
  induction fields as [|[k' τ'] fields IH]; [by apply elem_of_nil in Hk|].
  apply andb_prop in Ht as [Hhd Htl].
  apply elem_of_cons in Hk as [[= <- <-]|Hk]; [by rewrite Hfs in Hhd | by apply IH].
Qed.

(** A value of an object type is a plain object. *)
Lemma has_type_object_inv fields t :
  has_type (TyObject fields) t = true → ∃ fs, t = TObject ClsObject fs.
Proof. destruct t as [| | | | |[] fs| |]; try done. by exists fs. Qed.

(** What is read under a property an object type lists is undefined or
    has the type listed. *)
Lemma has_type_tree_get fields t k τ :
  (k, τ) ∈ fields → has_type (TyObject fields) t = true →
  tree_get t k = TUndefined ∨ has_type τ (tree_get t k) = true.
Proof.
  intros Hk Ht. destruct (has_type_object_inv _ _ Ht) as [fs ->]. simpl.
  destruct (fs !! k) as [t'|] eqn:Hfs; [|by left]. right. by eapply has_type_object_get.
Qed.

(** An array of strings can be read as a list of strings. *)
Lemma has_type_strings t :
  has_type (TyArray TyString) t = true →
  ∃ ss, tree_elems t = Some (TStr <$> ss).
Proof.
  intros (ts & -> & Hts)%has_type_array.
  induction Hts as [|t' ts (s & ->)%has_type_string _ [ss IH]]; [by exists []|].
  exists (s :: ss). by simplify_eq/=.
Qed.

End has_type.
