(* ===== verification/NextConfig.v ===== *)
(** * The configuration object and the module that exports it

    Lines 2 to 21 of [next.config.js] initialise the constant [nextConfig]
    with an object literal; line 23 assigns it to [module.exports].  The
    literal is evaluated as ECMAScript prescribes: eight objects are
    allocated (the configuration, [experimental], the two arrays of
    [swcPlugins] and the empty options object, [images], the array
    [domains], and the closure of the hook) and linked by property
    definitions.  This file translates the literal and the assignment, gives
    the tree the configuration reads as ([nextConfig_tree]) and shows what
    the host reads from it. *)

From stdpp Require Import base option gmap fin_maps strings pretty list.
From S2P Require Import Prelude JsValue JsHeap Reify Literal Contract Webpack Hostname Schema.

(** ** The literal *)

(** Line 5: [[["next-superjson-plugin", {}]]] *)
Definition swcPlugins : JS val :=
  arr_lit [arr_lit [se_ret (VStr "next-superjson-plugin"); obj_lit []]].

(** Lines 3-6 *)
Definition experimental : JS val :=
  obj_lit [("appDir", se_ret (VBool true)); ("swcPlugins", swcPlugins)].

(** Lines 9-11: the host names of the allow-list, in order. *)
Definition allowed_hosts : list string :=
  ["res.cloudinary.com"; "avatars.githubusercontent.com"; "lh3.googleusercontent.com"].

(** Lines 8-12 *)
Definition domains : JS val :=
  arr_lit ((λ s, se_ret (VStr s)) <$> allowed_hosts).

(** Lines 7-13 *)
Definition images : JS val :=
  obj_lit [("domains", domains)].

(** Lines 14-20, the arrow function expression: a closure whose code is
    the hook. *)
Definition webpack_fn : JS val :=
  fun_lit "webpack".

(** Lines 2-21 *)
Definition nextConfig : JS val :=
  obj_lit [("experimental", experimental); ("images", images); ("webpack", webpack_fn)].

(** The module: the constant is initialised, then assigned to
    [module.exports] (line 23). *)
Definition module_body (module : val) : JS unit :=
  let* c := nextConfig in
  set_prop module "exports" c.

(** The code a closure runs when it is called with two arguments. *)
Definition code_body (code : string) : option (val → val → JS val) :=
  if decide (code = "webpack") then Some webpack else None.

(** ** What the configuration reads as *)

Definition plugin_tree : tree :=
  array_tree [TStr "next-superjson-plugin"; TObject ClsObject ∅].

Definition swcPlugins_tree : tree :=
  array_tree [plugin_tree].

Definition experimental_tree : tree :=
  TObject ClsObject {["appDir" := TBool true; "swcPlugins" := swcPlugins_tree]}.

Definition domains_tree : tree :=
  array_tree (TStr <$> allowed_hosts).

Definition images_tree : tree :=
  TObject ClsObject {["domains" := domains_tree]}.

Definition webpack_tree : tree :=
  TObject (ClsFunction "webpack") ∅.

Definition nextConfig_tree : tree :=
  TObject ClsObject
    {["experimental" := experimental_tree; "images" := images_tree; "webpack" := webpack_tree]}.

(** The strings of a list of trees, when all of them are strings. *)
Definition tree_strs (ts : list tree) : option (list string) :=
  mapM tree_str ts.

(** The allow-list a configuration tree carries. *)
Definition tree_domains (t : tree) : option (list string) :=
  tree_elems (tree_path t ["images"; "domains"]) ≫= tree_strs.

(** ** Lemmas *)

Lemma nextConfig_builds : builds nextConfig nextConfig_tree 5.
Proof.
  eapply (builds_weaken _ _ _ 5 5); [|shelve|done].
  unfold nextConfig, experimental, swcPlugins, images, domains, webpack_fn, allowed_hosts.
  cbn [fmap list_fmap]. solve_builds.
  Unshelve. by vm_compute.
Qed.

Lemma tree_strs_str (ss : list string) : tree_strs (TStr <$> ss) = Some ss.
Proof.
  unfold tree_strs. apply mapM_Some_2, Forall2_fmap_l. by induction ss; constructor.
Qed.

(** The allow-list can be read as soon as three levels of the
    configuration are. *)
Lemma nextConfig_tree_domains n :
  3 ≤ n → tree_domains (truncate n nextConfig_tree) = Some allowed_hosts.
Proof.
  intros Hn. destruct (decide (5 ≤ n)) as [H5|H5].
  - rewrite (builds_truncate _ _ _ _ nextConfig_builds H5). by vm_compute.
  - assert (n = 3 ∨ n = 4) as [-> | ->] by lia; by vm_compute.
Qed.

Lemma allowed_hosts_valid : Forall (λ s, valid_hostname s = true) allowed_hosts.
Proof. by repeat constructor. Qed.

Lemma allowed_hosts_NoDup : NoDup allowed_hosts.
Proof. by apply (bool_decide_unpack _). Qed.

(** A heap that assigns to an object of the heap in which the literal was
    evaluated keeps what the literal allocated. *)
Lemma keeps_new_insert_old (h h' : heap) l o o' :
  h !! l = Some o → keeps_new h h' (<[l := o']> h').
Proof.
  intros Hl l' o'' Hnone Hl'. rewrite lookup_insert_ne; [done|]. intros ->. by rewrite Hl in Hnone.
Qed.

Section runs.
Context (h h' : heap) (v : val) (Hrun : nextConfig h = (inr v, h')).

Lemma nextConfig_reify n : reify n h' v = truncate n nextConfig_tree.
Proof using Hrun. eapply builds_reify; eauto using nextConfig_builds, keeps_new_refl. Qed.

Lemma nextConfig_is_ref : is_ref v = true.
Proof using Hrun. eapply (reify_object_is_ref 1 h'). by rewrite nextConfig_reify. Qed.

Lemma nextConfig_domains n : 3 ≤ n → tree_domains (reify n h' v) = Some allowed_hosts.
Proof using Hrun. intros Hn. rewrite nextConfig_reify. by apply nextConfig_tree_domains. Qed.

End runs.

(** The run of the module with a module object of the heap. *)
Lemma module_body_ref h lm o :
  h !! lm = Some o →
  ∃ v h1, nextConfig h = (inr v, h1) ∧ h1 !! lm = Some o ∧
          module_body (VRef lm) h = (inr tt, <[lm := obj_set "exports" v o]> h1).
Proof.
  intros Hlm. destruct (nextConfig_builds h) as (v & h1 & Hrun & Hsub & _).
  pose proof (lookup_weaken _ _ _ _ Hlm Hsub) as Hlm1. exists v, h1. split_and!; try done.
  unfold module_body. erewrite se_bind_inr by done. by apply set_prop_ref.
Qed.

(** The table of the code of the closures the module creates keeps the
    contract of the host. *)
Lemma code_body_contract c body : code_body c = Some body → HookContract body.
Proof. unfold code_body. case_decide; [|done]. intros [= <-]. apply _. Qed.

(** The allow-list of a configuration of the type [NextConfig_ty] can be
    read whenever it is there: the reader of the host cannot fail on a
    configuration that is well typed. *)
Lemma has_type_tree_domains t :
  has_type NextConfig_ty t = true →
  tree_path t ["images"; "domains"] ≠ TUndefined → is_Some (tree_domains t).
Proof.
  unfold tree_domains, tree_path. cbn [foldl]. intros Ht Hd.
  assert (tree_get t "images" = TUndefined ∨
          has_type (TyObject [("domains", TyArray TyString)]) (tree_get t "images") = true) as [Hi|Hi].
  { eapply has_type_tree_get; [|exact Ht]. by repeat constructor. }
  { by rewrite Hi in Hd. }
  assert (tree_get (tree_get t "images") "domains" = TUndefined ∨
          has_type (TyArray TyString) (tree_get (tree_get t "images") "domains") = true) as [Hs|Hs].
  { eapply has_type_tree_get; [|exact Hi]. by repeat constructor. }
  { done. }
  destruct (has_type_strings _ Hs) as [ss ->]. simpl. rewrite tree_strs_str. by eexists.
Qed.

Lemma nextConfig_tree_has_type : has_type NextConfig_ty nextConfig_tree = true.
Proof. by vm_compute. Qed.

Lemma nextConfig_typed h v h' n :
  nextConfig h = (inr v, h') → 5 ≤ n → has_type NextConfig_ty (reify n h' v) = true.
Proof.
  intros Hrun Hn. erewrite nextConfig_reify by done.
  rewrite (builds_truncate _ _ _ _ nextConfig_builds Hn). apply nextConfig_tree_has_type.
Qed.

(** The annotation of line 1 holds of the constant it annotates: the
    type it refers to is one the framework exports, and what is read from
    the value of the literal has it. *)
Lemma nextConfig_annotated h v h' n :
  nextConfig h = (inr v, h') → 5 ≤ n →
  ∃ τ, framework_type nextConfig_annotation = Some τ ∧ has_type τ (reify n h' v) = true.
Proof. intros Hrun Hn. exists NextConfig_ty. eauto using nextConfig_typed. Qed.

Lemma nextConfig_allocs : allocs nextConfig 8.
Proof.
  eapply allocs_weaken.
  - unfold nextConfig, experimental, swcPlugins, images, domains, webpack_fn, allowed_hosts.
    cbn [fmap list_fmap]. solve_allocs.
  - reflexivity.
Qed.

(** The heap of the examples: evaluation starts in the empty heap. *)
Lemma nextConfig_empty : nextConfig ∅ = (inr (VRef 1), (nextConfig ∅).2).
Proof. by vm_compute. Qed.

(** ** Theorems *)

(** C7: in every heap the literal evaluates without throwing to a
    reference that reads, at every depth, as [nextConfig_tree] cut at that
    depth: the configuration holds exactly the fields of lines 2 to 21. *)
Theorem nextConfig_reads_as_tree h :
  ∃ v, (nextConfig h).1 = inr v ∧ is_ref v = true ∧
       ∀ n, reify n (nextConfig h).2 v = truncate n nextConfig_tree.
Proof.
  destruct (nextConfig_builds h) as (v & h' & Hrun & _). rewrite Hrun. exists v.
  eauto using nextConfig_reify, nextConfig_is_ref.
Qed.

(** C8: the image allow-list of the configuration is the three host
    names of lines 9 to 11, in that order and nothing else. *)
Theorem nextConfig_allow_list h v h' n :
  nextConfig h = (inr v, h') → 3 ≤ n →
  tree_domains (reify n h' v) =
    Some ["res.cloudinary.com"; "avatars.githubusercontent.com"; "lh3.googleusercontent.com"].
Proof. intros Hrun Hn. by apply (nextConfig_domains h h' v). Qed.

Lemma nextConfig_allow_list_witness :
  tree_domains (reify 3 (nextConfig ∅).2 (VRef 1)) =
    Some ["res.cloudinary.com"; "avatars.githubusercontent.com"; "lh3.googleusercontent.com"].
Proof. apply (nextConfig_allow_list ∅ (VRef 1) (nextConfig ∅).2 3); [exact nextConfig_empty | lia]. Defined.

(** C25: the allow-list invariant of the data model: the host names read
    from the configuration are syntactically valid (RFC 1123) and none
    occurs twice. *)
Theorem nextConfig_allow_list_valid h v h' n hosts :
  nextConfig h = (inr v, h') → 3 ≤ n →
  tree_domains (reify n h' v) = Some hosts →
  NoDup hosts ∧ Forall (λ s, valid_hostname s = true) hosts.
Proof.
  intros Hrun Hn. erewrite nextConfig_domains by done. intros [= <-].
  split; [apply allowed_hosts_NoDup | apply allowed_hosts_valid].
Qed.

Lemma nextConfig_allow_list_valid_witness :
  NoDup allowed_hosts ∧ Forall (λ s, valid_hostname s = true) allowed_hosts.
Proof.
  apply (nextConfig_allow_list_valid ∅ (VRef 1) (nextConfig ∅).2 3);
    [exact nextConfig_empty | lia | by vm_compute].
Defined.

(** C24: the experimental flags: [appDir] is [true], and [swcPlugins] is a
    sequence of one element, the pair of the plugin name
    ["next-superjson-plugin"] and an empty options object. *)
Theorem nextConfig_plugins h v h' n :
  nextConfig h = (inr v, h') → 5 ≤ n →
  tree_path (reify n h' v) ["experimental"; "appDir"] = TBool true ∧
  ∃ p, tree_elems (tree_path (reify n h' v) ["experimental"; "swcPlugins"]) = Some [p] ∧
       tree_elems p = Some [TStr "next-superjson-plugin"; TObject ClsObject ∅].
Proof.
  intros Hrun Hn. erewrite nextConfig_reify by done.
  rewrite (builds_truncate _ _ _ _ nextConfig_builds Hn).
  split; [reflexivity|]. exists plugin_tree. split; [|apply tree_elems_array_tree].
  apply (tree_elems_array_tree [plugin_tree]).
Qed.

Lemma nextConfig_plugins_witness :
  tree_path (reify 5 (nextConfig ∅).2 (VRef 1)) ["experimental"; "appDir"] = TBool true ∧
  ∃ p, tree_elems (tree_path (reify 5 (nextConfig ∅).2 (VRef 1)) ["experimental"; "swcPlugins"]) = Some [p] ∧
       tree_elems p = Some [TStr "next-superjson-plugin"; TObject ClsObject ∅].
Proof. apply (nextConfig_plugins ∅ (VRef 1) (nextConfig ∅).2 5); [exact nextConfig_empty | lia]. Defined.

(** C20: stability under repeated construction.  Evaluating the literal a
    second time yields another object that reads as the first one does at
    every depth, and leaves what is read from the first one unchanged. *)
Theorem nextConfig_repeatable h :
  ∃ v1 v2,
    (nextConfig h).1 = inr v1 ∧ (nextConfig (nextConfig h).2).1 = inr v2 ∧ v1 ≠ v2 ∧
    ((nextConfig (nextConfig h).2).2, v2) ≈ᵈ ((nextConfig (nextConfig h).2).2, v1) ∧
    ((nextConfig (nextConfig h).2).2, v1) ≈ᵈ ((nextConfig h).2, v1).
Proof.
  destruct (builds_twice _ _ _ h nextConfig_builds) as (v1 & h1 & v2 & h2 & Hr1 & Hr2 & Hsub & Heq & Hne).
  rewrite Hr1. simpl. rewrite Hr2. simpl. exists v1, v2. split_and!; try done.
  - eauto using nextConfig_is_ref.
  - intros n. simpl. rewrite (nextConfig_reify _ _ _ Hr1).
    eapply builds_reify; eauto using nextConfig_builds.
    intros l o _ Hl. by eapply lookup_weaken.
Qed.

(** C35: evaluating the literal only allocates: every object of the heap
    is kept as it is, the absence of dangling references is preserved, and
    the configuration is an object that the heap did not hold. *)
Theorem nextConfig_extends_heap h v h' :
  nextConfig h = (inr v, h') →
  h ⊆ h' ∧ (heap_wf h → heap_wf h') ∧ val_wf h' v ∧ ¬ val_wf h v.
Proof.
  intros Hrun. destruct (builds_inv _ _ _ _ _ _ nextConfig_builds Hrun) as (? & ? & ? & Hf & _).
  split_and!; try done. eapply Hf, nextConfig_is_ref, Hrun.
Qed.

Lemma nextConfig_extends_heap_witness :
  ∅ ⊆ (nextConfig ∅).2 ∧ (heap_wf ∅ → heap_wf (nextConfig ∅).2) ∧
  val_wf (nextConfig ∅).2 (VRef 1) ∧ ¬ val_wf ∅ (VRef 1).
Proof. apply (nextConfig_extends_heap ∅ (VRef 1) (nextConfig ∅).2), nextConfig_empty. Defined.

(** C21: the module exports the configuration.  Run with a module object
    of the heap, the module completes normally and leaves [module.exports]
    referring to a value that reads as [nextConfig_tree]; the other
    properties of the module object and the other objects of the heap are
    as they were. *)
Theorem module_body_exports h lm o :
  h !! lm = Some o →
  ∃ h', module_body (VRef lm) h = (inr tt, h') ∧
    (∀ n, reify n h' (peek h' (VRef lm) "exports") = truncate n nextConfig_tree) ∧
    (∀ k, k ≠ "exports" → peek h' (VRef lm) k = obj_get o k) ∧
    (∀ l o', l ≠ lm → h !! l = Some o' → h' !! l = Some o').
Proof.
  intros Hlm. destruct (module_body_ref h lm o Hlm) as (v & h1 & Hrun & Hlm1 & Hmod).
  destruct (builds_inv _ _ _ _ _ _ nextConfig_builds Hrun) as (Hsub & _).
  exists (<[lm := obj_set "exports" v o]> h1). split_and!; [done| | |].
  - intros n. simpl. rewrite lookup_insert_eq. simpl. rewrite obj_get_set_eq.
    eapply builds_reify; eauto using nextConfig_builds, keeps_new_insert_old.
  - intros k Hk. simpl. rewrite lookup_insert_eq. simpl. by rewrite obj_get_set_ne.
  - intros l o' Hne Hl. rewrite lookup_insert_ne by done. by eapply lookup_weaken.
Qed.

Lemma module_body_exports_witness :
  ∃ h', module_body (VRef 1) {[1%positive := Obj ClsObject ∅]} = (inr tt, h') ∧
    (∀ n, reify n h' (peek h' (VRef 1) "exports") = truncate n nextConfig_tree) ∧
    (∀ k, k ≠ "exports" → peek h' (VRef 1) k = obj_get (Obj ClsObject ∅) k) ∧
    (∀ l o', l ≠ 1%positive → ({[1%positive := Obj ClsObject ∅]} : heap) !! l = Some o' → h' !! l = Some o').
Proof. apply (module_body_exports {[1%positive := Obj ClsObject ∅]} 1 (Obj ClsObject ∅)). reflexivity. Defined.

(** C36: a module value that is undefined or null makes the assignment of
    line 23 throw a TypeError, after the literal has been evaluated: the
    heap then holds the configuration, and no object it held before has
    changed. *)
Theorem module_body_nullish module h :
  nullish module = true →
  ∃ h', module_body module h = (inl (TypeError (WriteOfNullish "exports")), h') ∧
        h' = (nextConfig h).2 ∧ h ⊆ h'.
Proof.
  intros Hm. destruct (nextConfig_builds h) as (v & h1 & Hrun & Hsub & _).
  exists h1. rewrite Hrun. split_and!; try done.
  unfold module_body. erewrite se_bind_inr by done. by apply set_prop_nullish.
Qed.

Lemma module_body_nullish_witness :
  ∃ h', module_body VUndefined ∅ = (inl (TypeError (WriteOfNullish "exports")), h') ∧
        h' = (nextConfig ∅).2 ∧ ∅ ⊆ h'.
Proof. apply (module_body_nullish VUndefined ∅). reflexivity. Defined.

(** C10: the configuration has the type its annotation names.  At every
    depth from 5 on, what is read from the value of the literal has the
    type [NextConfig_ty]: the toggles are booleans or structured, every
    plugin is a pair of a name and an options object, the allow-list is an
    array of strings and the hook is a function. *)
Theorem nextConfig_has_type h v h' n :
  nextConfig h = (inr v, h') → 5 ≤ n → has_type NextConfig_ty (reify n h' v) = true.
Proof. apply nextConfig_typed. Qed.

Lemma nextConfig_has_type_witness :
  has_type NextConfig_ty (reify 5 (nextConfig ∅).2 (VRef 1)) = true.
Proof. apply (nextConfig_has_type ∅ (VRef 1) (nextConfig ∅).2 5); [exact nextConfig_empty | lia]. Defined.

(** C34: the configuration is a finite tree of depth 5.  Reading deeper
    than five levels shows nothing that five levels do not show, so the
    structure has no cycle; four levels do not reach the options object of
    the plugin. *)
Theorem nextConfig_depth h v h' :
  nextConfig h = (inr v, h') →
  (∀ n, 5 ≤ n → reify n h' v = reify 5 h' v) ∧ reify 4 h' v ≠ reify 5 h' v.
Proof.
  intros Hrun. split.
  - intros n Hn. rewrite !(nextConfig_reify _ _ _ Hrun).
    by rewrite !(builds_truncate _ _ _ _ nextConfig_builds) by lia.
  - rewrite !(nextConfig_reify _ _ _ Hrun). by vm_compute.
Qed.

Lemma nextConfig_depth_witness :
  (∀ n, 5 ≤ n → reify n (nextConfig ∅).2 (VRef 1) = reify 5 (nextConfig ∅).2 (VRef 1)) ∧
  reify 4 (nextConfig ∅).2 (VRef 1) ≠ reify 5 (nextConfig ∅).2 (VRef 1).
Proof. apply (nextConfig_depth ∅ (VRef 1) (nextConfig ∅).2), nextConfig_empty. Defined.

(** C32: the literal allocates exactly eight objects, in every heap: the
    configuration, [experimental], the two arrays of [swcPlugins], the
    options object of the plugin, [images], [domains] and the closure of
    the hook. *)
Theorem nextConfig_allocates h : size (nextConfig h).2 = size h + 8.
Proof. destruct (nextConfig_allocs h) as (v & h' & Hrun & _ & Hsz). by rewrite Hrun. Qed.
