(* ===== verification/Host.v ===== *)
(** * The host: loading the module and running bundling passes

    The build tool is not part of the repository.  What the specification
    says of it (section 6) is modelled here so that the program can be
    followed from the load of the module to the settings the bundler ends
    with: the module is loaded once and its [exports] read; the function
    under [webpack] is then called once per bundling pass, with the
    settings of the pass and an options object that carries [isServer].

    The operations are parametric in the table that gives the code of a
    closure; the lemmas of the section hold for every table whose entries
    keep [HookContract]. *)

From stdpp Require Import base option gmap fin_maps strings list.
From S2P Require Import Prelude JsValue JsHeap Reify Literal Contract.

(** ** Operations *)

(** [f(a, b)] *)
Definition call2 (code : string → option (val → val → JS val)) (f a b : val) : JS val :=
  λ h, match f with
       | VRef l =>
           match h !! l with
           | Some o =>
               match obj_class_of o with
               | ClsFunction c =>
                   match code c with
                   | Some body => body a b h
                   | None => (inl Stuck, h)
                   end
               | _ => (inl (TypeError NotCallable), h)
               end
           | None => (inl Stuck, h)
           end
       | _ => (inl (TypeError NotCallable), h)
       end.

(** The options of a pass: [{ isServer }]. *)
Definition pass_options (isServer : bool) : JS val :=
  obj_lit [("isServer", se_ret (VBool isServer))].

(** One bundling pass: the hook of the configuration is called with the
    settings of the pass. *)
Definition bundler_pass (code : string → option (val → val → JS val))
    (cfg settings : val) (isServer : bool) : JS val :=
  let* hook := get_prop cfg "webpack" in
  let* opts := pass_options isServer in
  call2 code hook settings opts.

(** The passes of a build, in order; an exception ends the build. *)
Fixpoint run_passes (code : string → option (val → val → JS val))
    (cfg : val) (passes : list (val * bool)) : JS (list val) :=
  match passes with
  | [] => se_ret []
  | (settings, isServer) :: ps =>
      let* r := bundler_pass code cfg settings isServer in
      let* rs := run_passes code cfg ps in
      se_ret (r :: rs)
  end.

(** Loading a CommonJS module: the body runs with a new module object
    whose [exports] is a new empty object, and the load answers what
    [exports] refers to afterwards. *)
Definition load_module (body : val → JS unit) : JS val :=
  let* exports := obj_lit [] in
  let* module := obj_lit [("exports", se_ret exports)] in
  body module ;;;
  get_prop module "exports".

(** The object a pass hands to the hook. *)
Definition options_obj (isServer : bool) : obj :=
  Obj ClsObject {["isServer" := VBool isServer]}.

(** The code a value runs when called, if it is a closure of the heap with
    code in the table. *)
Definition closure_code (code : string → option (val → val → JS val))
    (h : heap) (f : val) : option (val → val → JS val) :=
  match f with
  | VRef l =>
      o ← h !! l;
      match obj_class_of o with
      | ClsFunction c => code c
      | _ => None
      end
  | _ => None
  end.

(** Settings that are not the resolution settings of one another. *)
Definition separate_settings (h : heap) (passes : list (val * bool)) : Prop :=
  ∀ p p', p ∈ passes → p' ∈ passes → val_wf h p.1 ∧ peek h p'.1 "resolve" ≠ p.1.

(** ** Runs *)

Section host.
Context (code : string → option (val → val → JS val)).
Implicit Types (h : heap) (cfg settings f a b : val) (isServer : bool).

Lemma pass_options_run isServer h :
  pass_options isServer h =
  (inr (VRef (fresh (dom h))), <[fresh (dom h) := options_obj isServer]> h).
Proof. apply (make_object_const ClsObject ∅ [("isServer", VBool isServer)]). Qed.

Lemma call2_closure f a b h body :
  closure_code code h f = Some body → call2 code f a b h = body a b h.
Proof.
  unfold closure_code, call2. destruct f as [| | | | |l]; try done.
  destruct (h !! l) as [o|]; [|done]. simpl. destruct (obj_class_of o); try done.
  by intros ->.
Qed.

(** A call that is not the call of a known closure fails without touching
    the heap. *)
Lemma call2_no_closure f a b h :
  closure_code code h f = None → ∃ e, call2 code f a b h = (inl e, h).
Proof.
  unfold closure_code, call2. destruct f as [| | | | |l]; eauto.
  destruct (h !! l) as [o|]; [|eauto]. simpl. destruct (obj_class_of o); eauto.
  intros ->. eauto.
Qed.

Lemma closure_code_insert_fresh h f o :
  val_wf h f → closure_code code (<[fresh (dom h) := o]> h) f = closure_code code h f.
Proof.
  destruct f as [| | | | |l]; try done. intros [o' Hl]. simpl.
  by rewrite (lookup_insert_fresh_old _ _ _ _ Hl), Hl.
Qed.

Lemma closure_code_reify n h f c fs :
  reify n h f = TObject (ClsFunction c) fs → closure_code code h f = code c.
Proof. intros (l & o & -> & Hl & Hc)%reify_object_inv. simpl. by rewrite Hl; simpl; rewrite Hc. Qed.

(** A pass over a configuration whose [webpack] is a known closure is the
    call of its code on the settings and a new options object. *)
Lemma bundler_pass_closure cfg settings isServer h body :
  heap_wf h → val_wf h cfg →
  closure_code code h (peek h cfg "webpack") = Some body →
  bundler_pass code cfg settings isServer h =
  body settings (VRef (fresh (dom h))) (<[fresh (dom h) := options_obj isServer]> h).
Proof.
  intros Hh Hcfg Hbody. unfold bundler_pass.
  assert (nullish cfg = false) as Hn by by destruct cfg.
  erewrite se_bind_inr by by apply get_prop_peek.
  erewrite se_bind_inr by apply pass_options_run.
  apply call2_closure. rewrite closure_code_insert_fresh; [done|]. by apply val_wf_peek.
Qed.

End host.

(** ** Separate settings *)

Lemma separate_settings_cons h p ps :
  separate_settings h (p :: ps) → val_wf h p.1 ∧ separate_settings h ps.
Proof.
  intros Hsep. split; [apply (Hsep p p); set_solver|].
  intros p1 p2 ? ?. apply Hsep; set_solver.
Qed.

(** Settings stay separate in a heap that keeps the objects of a
    well-formed one. *)
Lemma separate_settings_subseteq h h' passes :
  h ⊆ h' → separate_settings h passes → separate_settings h' passes.
Proof.
  intros Hsub Hsep p p' Hp Hp'. destruct (Hsep p p' Hp Hp') as [Hw Hne].
  destruct (Hsep p' p' Hp' Hp') as [Hw' _].
  split; [eapply val_wf_mono; [by apply subseteq_dom | done]|].
  destruct (p'.1) as [| | | | |l]; try done. destruct Hw' as [o Hl]. simpl in *.
  by rewrite (lookup_weaken _ _ _ _ Hl Hsub), <-Hl.
Qed.

(** ** What the host can rely on, for every table of hooks that keep the
    contract *)

Section contract.
Context (code : string → option (val → val → JS val)).
Context (Hcode : ∀ c body, code c = Some body → HookContract body).
Implicit Types (h : heap) (cfg settings f a b : val) (isServer : bool).

Lemma closure_code_contract h f body : closure_code code h f = Some body → HookContract body.
Proof using Hcode.
  unfold closure_code. destruct f as [| | | | |l]; try done.
  destruct (h !! l) as [o|]; [|done]. simpl. destruct (obj_class_of o); try done.
  apply Hcode.
Qed.

(** A call is the run of a hook that keeps the contract, or fails without
    touching the heap. *)
Lemma call2_cases f a b h :
  (∃ e, call2 code f a b h = (inl e, h)) ∨
  (∃ body, HookContract body ∧ call2 code f a b h = body a b h).
Proof using Hcode.
  destruct (closure_code code h f) as [body|] eqn:Hf.
  - right. exists body. eauto using closure_code_contract, call2_closure.
  - left. by apply call2_no_closure.
Qed.

Lemma call2_wf f a b : se_preserves heap_wf (call2 code f a b).
Proof using Hcode.
  intros h Hh. destruct (call2_cases f a b h) as [[e ->]|(body & ? & ->)]; [done|].
  by apply hook_preserves_wf.
Qed.

Lemma call2_dom f a b : se_grows dom_le (call2 code f a b).
Proof using Hcode.
  intros h. destruct (call2_cases f a b h) as [[e ->]|(body & ? & ->)]; [done|].
  by apply hook_keeps_dom.
Qed.

Lemma call2_returns f a b h v h' : call2 code f a b h = (inr v, h') → v = a.
Proof using Hcode.
  destruct (call2_cases f a b h) as [[e ->]|(body & ? & ->)]; [done|].
  apply hook_returns_config.
Qed.

Lemma pass_options_wf isServer : se_preserves heap_wf (pass_options isServer).
Proof.
  intros h Hh. rewrite pass_options_run. apply heap_wf_alloc; [done|].
  by apply map_Forall_singleton.
Qed.

Lemma pass_options_dom isServer : se_grows dom_le (pass_options isServer).
Proof. intros h. rewrite pass_options_run. unfold dom_le. simpl. rewrite dom_insert. set_solver. Qed.

Lemma get_prop_same v k h : (get_prop v k h).2 = h.
Proof. destruct (get_prop v k h) as [r h'] eqn:Hg. by apply get_prop_heap in Hg. Qed.

Lemma bundler_pass_wf cfg settings isServer :
  se_preserves heap_wf (bundler_pass code cfg settings isServer).
Proof using Hcode.
  apply se_preserves_bind; [intros h; by rewrite get_prop_same|]. intros hook.
  apply se_preserves_bind; [apply pass_options_wf|]. intros opts. apply call2_wf.
Qed.

Lemma bundler_pass_dom cfg settings isServer :
  se_grows dom_le (bundler_pass code cfg settings isServer).
Proof using Hcode.
  apply se_grows_bind; [apply _ | intros h; by rewrite get_prop_same|]. intros hook.
  apply se_grows_bind; [apply _ | apply pass_options_dom|]. intros opts. apply call2_dom.
Qed.

Lemma bundler_pass_returns cfg settings isServer h v h' :
  bundler_pass code cfg settings isServer h = (inr v, h') → v = settings.
Proof using Hcode.
  intros (hook & h1 & _ & (opts & h2 & _ & Hcall)%se_bind_inr_inv)%se_bind_inr_inv.
  by eapply call2_returns.
Qed.

(** The outcomes of a pass: the read of [webpack] fails, the call fails
    after the options object has been allocated, or a hook that keeps the
    contract runs on the settings and the options. *)
Lemma bundler_pass_cases cfg settings isServer h :
  let h1 := <[fresh (dom h) := options_obj isServer]> h in
  (∃ e, bundler_pass code cfg settings isServer h = (inl e, h)) ∨
  (∃ e, bundler_pass code cfg settings isServer h = (inl e, h1)) ∨
  (∃ body, HookContract body ∧
     bundler_pass code cfg settings isServer h = body settings (VRef (fresh (dom h))) h1).
Proof using Hcode.
  cbv zeta. unfold bundler_pass.
  destruct (get_prop cfg "webpack" h) as [[e|hook] h0] eqn:Hg;
    pose proof (get_prop_heap _ _ _ _ _ Hg) as ->.
  { left. exists e. by erewrite se_bind_inl. }
  right. erewrite se_bind_inr by done. erewrite se_bind_inr by apply pass_options_run.
  destruct (call2_cases hook settings (VRef (fresh (dom h)))
              (<[fresh (dom h) := options_obj isServer]> h)) as [[e ->]|(body & ? & ->)]; eauto.
Qed.

(** A pass changes no object but the resolution settings it is given. *)
Lemma bundler_pass_frame cfg settings isServer h l o :
  val_wf h settings → h !! l = Some o → peek h settings "resolve" ≠ VRef l →
  (bundler_pass code cfg settings isServer h).2 !! l = Some o.
Proof using Hcode.
  intros Hs Hl Hne.
  destruct (bundler_pass_cases cfg settings isServer h) as [[e ->]|[[e ->]|(body & ? & ->)]];
    [done | by apply lookup_insert_fresh_old |].
  apply hook_frame; [by apply lookup_insert_fresh_old | by rewrite peek_insert_fresh].
Qed.

(** A pass allocates at most two objects: its options and what the hook
    allocates. *)
Lemma bundler_pass_size cfg settings isServer h :
  size (bundler_pass code cfg settings isServer h).2 ≤ size h + 2.
Proof using Hcode.
  pose proof (map_size_insert_None (fresh (dom h)) (options_obj isServer) h (lookup_fresh h)).
  destruct (bundler_pass_cases cfg settings isServer h) as [[e ->]|[[e ->]|(body & ? & ->)]];
    simpl; [lia.. |].
  pose proof (hook_allocates (hook := body) settings (VRef (fresh (dom h)))
                (<[fresh (dom h) := options_obj isServer]> h)). lia.
Qed.

(** A pass over a configuration whose [webpack] is a closure of the table
    never reads or writes through a dangling reference. *)
Lemma bundler_pass_never_stuck cfg settings isServer h :
  heap_wf h → val_wf h cfg → val_wf h settings →
  is_Some (closure_code code h (peek h cfg "webpack")) →
  (bundler_pass code cfg settings isServer h).1 ≠ inl Stuck.
Proof using Hcode.
  intros Hh Hcfg Hs [body Hb]. rewrite (bundler_pass_closure _ _ _ _ _ body) by done.
  pose proof (closure_code_contract _ _ _ Hb).
  apply (pass_options_wf isServer) in Hh as Hh1. rewrite pass_options_run in Hh1.
  apply hook_never_stuck; [done | | apply val_wf_fresh].
  eapply val_wf_mono; [|done]. rewrite dom_insert. set_solver.
Qed.

(** The passes of a build keep the heap free of dangling references,
    never remove an object, and answer the settings they were given. *)
Lemma run_passes_wf cfg passes : se_preserves heap_wf (run_passes code cfg passes).
Proof using Hcode.
  induction passes as [|[s b] ps IH]; [apply se_preserves_ret|].
  apply se_preserves_bind; [apply bundler_pass_wf|]. intros r.
  apply se_preserves_bind; [apply IH|]. intros rs. apply se_preserves_ret.
Qed.

Lemma run_passes_dom cfg passes : se_grows dom_le (run_passes code cfg passes).
Proof using Hcode.
  induction passes as [|[s b] ps IH]; [apply (se_grows_ret dom_le)|].
  apply se_grows_bind; [apply _ | apply bundler_pass_dom|]. intros r.
  apply se_grows_bind; [apply _ | apply IH|]. intros rs. apply (se_grows_ret dom_le).
Qed.

Lemma run_passes_size cfg passes h :
  size (run_passes code cfg passes h).2 ≤ size h + 2 * length passes.
Proof using Hcode.
  revert h. induction passes as [|[s b] ps IH]; intros h; simpl; [lia|].
  pose proof (bundler_pass_size cfg s b h) as Hp. unfold se_bind at 1.
  destruct (bundler_pass code cfg s b h) as [[e|r] h1]; simpl in *; [lia|].
  rewrite se_bind_ret_r_snd. specialize (IH h1). lia.
Qed.

Lemma run_passes_returns cfg passes h rs h' :
  run_passes code cfg passes h = (inr rs, h') → rs = passes.*1.
Proof using Hcode.
  revert h rs. induction passes as [|[s b] ps IH]; intros h rs; simpl.
  { unfold se_ret. by intros [= <- _]. }
  intros (r & h1 & Hr & (rs' & h2 & Hrs & Hret)%se_bind_inr_inv)%se_bind_inr_inv.
  unfold se_ret in Hret. simplify_eq. f_equal; [by eapply bundler_pass_returns | by eapply IH].
Qed.

Lemma separate_settings_step cfg h s (b : bool) ps :
  separate_settings h ((s, b) :: ps) →
  separate_settings (bundler_pass code cfg s b h).2 ps ∧
  ∀ p, p ∈ ps → peek (bundler_pass code cfg s b h).2 p.1 "resolve" = peek h p.1 "resolve".
Proof using Hcode.
  intros Hsep.
  assert (∀ p, p ∈ ps → peek (bundler_pass code cfg s b h).2 p.1 "resolve" = peek h p.1 "resolve") as Hpeek.
  { intros [s' b'] Hp. destruct (Hsep (s', b') (s, b)) as [Hw Hne]; [set_solver..|].
    destruct s' as [| | | | |ls]; try done. destruct Hw as [o Hl]. simpl in *.
    assert (val_wf h s) as Hs by (apply (Hsep (s, b) (s, b)); set_solver).
    by rewrite (bundler_pass_frame cfg s b h ls o Hs Hl Hne), Hl. }
  split; [|done]. intros p p' Hp Hp'. destruct (Hsep p p') as [Hw Hne]; [set_solver..|].
  rewrite Hpeek by done. split; [|done].
  eapply val_wf_mono; [apply bundler_pass_dom | done].
Qed.

(** The passes of a build change no object but the resolution settings
    they are given. *)
Lemma run_passes_frame cfg passes h l o :
  separate_settings h passes → h !! l = Some o →
  (∀ p, p ∈ passes → peek h p.1 "resolve" ≠ VRef l) →
  (run_passes code cfg passes h).2 !! l = Some o.
Proof using Hcode.
  revert h. induction passes as [|[s b] ps IH]; intros h Hsep Hl Hne; [done|].
  destruct (separate_settings_step cfg h s b ps Hsep) as [Hsep' Hpeek].
  pose proof (bundler_pass_frame cfg s b h l o) as Hf. simpl. unfold se_bind at 1.
  destruct (bundler_pass code cfg s b h) as [[e|r] h1]; simpl in *;
    (ospecialize* Hf; [by eapply (Hsep (s, b) (s, b)); set_solver | done | by apply (Hne (s, b)); set_solver |]);
    [done|].
  specialize (IH h1 Hsep' Hf). rewrite se_bind_ret_r_snd. apply IH.
  intros p Hp. rewrite Hpeek by done. apply Hne. set_solver.
Qed.

End contract.
