(* ===== verification/Build.v ===== *)
(** * A build, from the load of the module to the settings of the bundler

    The pieces are put together: the host loads the module of
    [next.config.js] ([load_config]), then runs its bundling passes with
    the hook it finds under [webpack] in the exported configuration
    ([build]).  The theorems follow the program end to end: what the load
    yields, that the hook the host calls is the function of lines 14 to 20,
    what a build does to the settings of a pass, and what it throws when
    the settings have no [resolve]. *)

From stdpp Require Import base option gmap fin_maps strings list.
From S2P Require Import Prelude JsValue JsHeap Reify Literal Contract Webpack Resolution.
From S2P Require Import NextConfig Host.

(** ** Operations *)

(** The load of [next.config.js]. *)
Definition load_config : JS val :=
  load_module module_body.

(** A build: the load, then the passes. *)
Definition build (passes : list (val * bool)) : JS (list val) :=
  let* cfg := load_config in
  run_passes code_body cfg passes.

(** ** The load *)

Lemma load_config_builds : builds load_config nextConfig_tree 5.
Proof.
  intros h. set (l1 := fresh (dom h)). set (h1 := <[l1 := Obj ClsObject ∅]> h).
  set (l2 := fresh (dom h1)). set (o2 := obj_set "exports" (VRef l1) (Obj ClsObject ∅)).
  set (h2 := <[l2 := o2]> h1).
  assert (h ⊆ h2) as Hsub2 by (etrans; apply insert_fresh_subseteq).
  destruct (module_body_ref h2 l2 o2) as (v & h3 & Hrun & Hl2 & Hmod); [apply lookup_insert_eq|].
  destruct (builds_inv _ _ _ _ _ _ nextConfig_builds Hrun) as (Hsub & Hwf & Hv & Hfresh & Hre).
  assert (h !! l2 = None) as Hnone.
  { destruct (h !! l2) as [o|] eqn:Hl; [|done].
    apply (lookup_weaken _ h1) in Hl; [|apply insert_fresh_subseteq].
    unfold l2 in Hl. by rewrite lookup_fresh in Hl. }
  exists v, (<[l2 := obj_set "exports" v o2]> h3). split_and!.
  - unfold load_config, load_module.
    erewrite se_bind_inr by apply (make_object_const ClsObject ∅ []).
    erewrite se_bind_inr by apply (make_object_const ClsObject ∅ [("exports", VRef l1)]).
    erewrite se_bind_inr by exact Hmod.
    erewrite get_prop_ref by apply lookup_insert_eq. by rewrite obj_get_set_eq.
  - apply insert_subseteq_r; [done | by etrans].
  - intros Hh. apply heap_wf_set; [|done..]. apply Hwf.
    apply heap_wf_alloc; [apply heap_wf_alloc; [done | apply map_Forall_empty]|].
    apply map_Forall_singleton, val_wf_fresh.
  - eapply val_wf_mono; [|done]. rewrite dom_insert. set_solver.
  - intros Hr Hw. apply Hfresh; [done|]. eapply val_wf_mono; [by apply subseteq_dom | done].
  - intros h'' n Hn Hk. apply Hre; [done|]. intros l o Hl Hl3. apply Hk.
    + destruct (h !! l) as [o'|] eqn:Hl0; [|done]. by rewrite (lookup_weaken _ _ _ _ Hl0 Hsub2) in Hl.
    + rewrite lookup_insert_ne; [done|]. intros <-. unfold h2 in Hl. by rewrite lookup_insert_eq in Hl.
Qed.

Lemma options_is_server h (b : bool) :
  is_server (<[fresh (dom h) := options_obj b]> h) (VRef (fresh (dom h))) = b.
Proof.
  unfold is_server. simpl. rewrite lookup_insert_eq. simpl.
  unfold obj_get, options_obj. simpl. rewrite lookup_singleton_eq. by destruct b.
Qed.

(** The load allocates ten objects: the module object, its first
    [exports], and the eight objects of the literal. *)
Lemma load_config_size h : size (load_config h).2 = size h + 10.
Proof.
  set (h1 := <[fresh (dom h) := Obj ClsObject ∅]> h).
  set (o2 := obj_set "exports" (VRef (fresh (dom h))) (Obj ClsObject ∅)).
  set (h2 := <[fresh (dom h1) := o2]> h1).
  destruct (module_body_ref h2 (fresh (dom h1)) o2) as (v & h3 & Hrun & Hl2 & Hmod);
    [apply lookup_insert_eq|].
  destruct (nextConfig_allocs h2) as (v' & h3' & Hrun' & _ & Hsz).
  rewrite Hrun in Hrun'. injection Hrun' as <- <-.
  unfold load_config, load_module.
  erewrite se_bind_inr by apply (make_object_const ClsObject ∅ []).
  erewrite se_bind_inr by apply (make_object_const ClsObject ∅ [("exports", VRef (fresh (dom h)))]).
  erewrite se_bind_inr by exact Hmod. erewrite get_prop_ref by apply lookup_insert_eq. simpl.
  rewrite map_size_insert_Some, Hsz by eauto. unfold h2, h1.
  rewrite !map_size_insert_None by apply lookup_fresh. lia.
Qed.

(** What the host finds in the configuration it loaded, in every heap that
    keeps the objects of the load. *)
Section loaded.
Context (h h' h'' : heap) (cfg : val).
Context (Hload : load_config h = (inr cfg, h')) (Hk : keeps_new h h' h'').

Lemma loaded_reify n : reify n h'' cfg = truncate n nextConfig_tree.
Proof using Hload Hk. eapply builds_reify; eauto using load_config_builds. Qed.

Lemma loaded_val_wf : val_wf h'' cfg.
Proof using Hload Hk.
  destruct (reify_object_inv 1 h'' cfg ClsObject (truncate 0 <$> _) (loaded_reify 1))
    as (l & o & -> & Hl & _).
  by eexists.
Qed.

(** The hook the host calls is the function of lines 14 to 20. *)
Lemma loaded_hook : closure_code code_body h'' (peek h'' cfg "webpack") = Some webpack.
Proof using Hload Hk.
  rewrite (closure_code_reify code_body 1 _ _ "webpack" ∅); [done|].
  rewrite <-tree_get_reify_peek by apply loaded_val_wf. by rewrite loaded_reify.
Qed.

Lemma loaded_pass settings isServer :
  heap_wf h'' →
  bundler_pass code_body cfg settings isServer h'' =
  webpack settings (VRef (fresh (dom h''))) (<[fresh (dom h'') := options_obj isServer]> h'').
Proof using Hload Hk.
  intros Hh. apply bundler_pass_closure; [done | apply loaded_val_wf | apply loaded_hook].
Qed.

(** A pass over settings whose [resolve] is an object adjusts them as the
    contract says, hands them back and touches nothing else. *)
Lemma pass_adjusts ls o_s lr r isServer :
  heap_wf h'' → h'' !! ls = Some o_s → obj_get o_s "resolve" = VRef lr →
  abs h'' lr = Some r →
  ∃ h3, bundler_pass code_body cfg (VRef ls) isServer h'' = (inr (VRef ls), h3) ∧
        abs h3 lr = Some (adjust_replace r isServer) ∧
        ∀ l o, h'' !! l = Some o → l ≠ lr → h3 !! l = Some o.
Proof using Hload Hk.
  intros Hh Hs Hr Habs. rewrite loaded_pass by done.
  set (lo := fresh (dom h'')). set (h2 := <[lo := options_obj isServer]> h'').
  assert (h'' ⊆ h2) as Hsub by apply insert_fresh_subseteq.
  assert (heap_wf h2) as Hh2 by (apply heap_wf_alloc; [done | by apply map_Forall_singleton]).
  pose proof (lookup_weaken _ _ _ _ Hs Hsub) as Hs2.
  destruct (h'' !! lr) as [o_r|] eqn:Hlr; [|by unfold abs in Habs; rewrite Hlr in Habs].
  pose proof (webpack_ok h2 ls lr o_s (VRef lo) Hh2 eq_refl (val_wf_fresh _ _) Hs2 Hr) as Hok.
  pose proof (webpack_abs h2 ls lr o_s o_r (VRef lo) eq_refl (val_wf_fresh _ _) Hs2 Hr
                (lookup_weaken _ _ _ _ Hlr Hsub)) as Hab.
  pose proof (λ l o, webpack_frame_aux h2 (VRef ls) (VRef lo) l o) as Hf.
  destruct (webpack (VRef ls) (VRef lo) h2) as [res h3]. cbn [fst snd] in *. subst res.
  exists h3. split_and!; [done| |].
  - rewrite Hab, (abs_subseteq _ _ _ _ Hh Hsub Habs). unfold h2, lo. by rewrite options_is_server.
  - intros l o Hl Hne. apply Hf; [by eapply lookup_weaken|]. rewrite (peek_ref _ _ _ _ Hs2), Hr. congruence.
Qed.

(** A server pass hands back whatever settings it is given and changes no
    object. *)
Lemma pass_server settings :
  heap_wf h'' →
  bundler_pass code_body cfg settings true h'' =
  (inr settings, <[fresh (dom h'') := options_obj true]> h'').
Proof using Hload Hk.
  intros Hh. rewrite loaded_pass by done.
  apply webpack_server_unchanged_aux; [done | apply val_wf_fresh | apply options_is_server].
Qed.

(** A client pass over settings whose [resolve] is an object: the heap it
    leaves. *)
Lemma pass_client ls o_s lr o_r :
  heap_wf h'' → h'' !! ls = Some o_s → obj_get o_s "resolve" = VRef lr →
  h'' !! lr = Some o_r →
  bundler_pass code_body cfg (VRef ls) false h'' =
  (inr (VRef ls), install (<[fresh (dom h'') := options_obj false]> h'') lr o_r).
Proof using Hload Hk.
  intros Hh Hs Hr Hlr. rewrite loaded_pass by done.
  apply (webpack_client_installs_aux _ ls lr o_s o_r);
    [done | apply val_wf_fresh | apply options_is_server | by apply lookup_insert_fresh_old
    | done | by apply lookup_insert_fresh_old].
Qed.

(** A pass over settings whose [resolve] is the object [o_r] at [lr]
    completes, hands the settings back and changes no object but [o_r],
    which a server pass keeps too and in which a client pass puts a new
    table. *)
Lemma pass_ready ls o_s lr o_r isServer :
  heap_wf h'' → h'' !! ls = Some o_s → obj_get o_s "resolve" = VRef lr →
  h'' !! lr = Some o_r →
  ∃ h3, bundler_pass code_body cfg (VRef ls) isServer h'' = (inr (VRef ls), h3) ∧
        (∀ l o, h'' !! l = Some o → l ≠ lr → h3 !! l = Some o) ∧
        if isServer then h3 !! lr = Some o_r
        else ∃ lf, h'' !! lf = None ∧ h3 !! lf = Some fallback_obj ∧
                   h3 !! lr = Some (obj_set "fallback" (VRef lf) o_r).
Proof using Hload Hk.
  intros Hh Hs Hr Hlr. set (h2 := <[fresh (dom h'') := options_obj isServer]> h'').
  assert (∀ l o, h'' !! l = Some o → h2 !! l = Some o) as Hold
    by (intros l o Hl; by apply lookup_insert_fresh_old).
  destruct isServer.
  - rewrite pass_server by done. eexists. split_and!; [done | by eauto..].
  - rewrite (pass_client ls o_s lr o_r) by done. fold h2. eexists. split_and!; [done| |].
    + intros l o Hl Hne. rewrite install_lookup_ne by eauto. eauto.
    + exists (fresh (dom h2)). rewrite install_lookup_resolve.
      rewrite (install_lookup_fresh h2 lr o_r) by eauto. split; [|done].
      apply (not_elem_of_dom (D := gset loc)). intros Hin. apply (is_fresh (dom h2)).
      unfold h2 at 2. rewrite dom_insert. by apply elem_of_union_r.
Qed.

(** A client pass over settings that have no [resolve] throws, and changes
    no object. *)
Lemma pass_throws ls o_s :
  heap_wf h'' → h'' !! ls = Some o_s → nullish (obj_get o_s "resolve") = true →
  ∃ h3, bundler_pass code_body cfg (VRef ls) false h'' =
          (inl (TypeError (WriteOfNullish "fallback")), h3) ∧ h'' ⊆ h3.
Proof using Hload Hk.
  intros Hh Hs Hr. rewrite loaded_pass by done.
  set (lo := fresh (dom h'')). set (h2 := <[lo := options_obj false]> h'').
  assert (h'' ⊆ h2) as Hsub by apply insert_fresh_subseteq.
  pose proof (lookup_weaken _ _ _ _ Hs Hsub) as Hs2.
  rewrite webpack_bound by (done || apply val_wf_fresh).
  rewrite webpack_body_client; [|apply (options_is_server h'' false) | done | by eexists].
  rewrite (peek_ref _ _ _ _ Hs2).
  erewrite se_bind_inl by by apply set_prop_nullish. eexists. split; [done|].
  etrans; [done | apply insert_fresh_subseteq].
Qed.

End loaded.

(** The heaps of the examples: the load runs in the empty heap and in the
    heap of section 8.3 of the specification. *)
Lemma load_config_empty : load_config ∅ = (inr (VRef 3), (load_config ∅).2).
Proof. by vm_compute. Qed.

(** ** Theorems *)

(** C23: the load.  In every heap the load of the module completes
    normally and answers a reference that reads as [nextConfig_tree] at
    every depth, in a heap that keeps every object it started with. *)
Theorem load_config_exports h :
  ∃ cfg, (load_config h).1 = inr cfg ∧ h ⊆ (load_config h).2 ∧
         ∀ n, reify n (load_config h).2 cfg = truncate n nextConfig_tree.
Proof.
  destruct (load_config_builds h) as (cfg & h' & Hload & Hsub & _). rewrite Hload. exists cfg.
  split_and!; [done..|]. intros n. eapply loaded_reify; eauto using keeps_new_refl.
Qed.

(** C22: the hook the host calls is the function of lines 14 to 20.  After
    the load, a pass over any settings is the run of [webpack] on those
    settings and a new options object [{ isServer }]. *)
Theorem build_pass_runs_webpack h cfg h' settings isServer :
  heap_wf h → load_config h = (inr cfg, h') →
  bundler_pass code_body cfg settings isServer h' =
  webpack settings (VRef (fresh (dom h'))) (<[fresh (dom h') := options_obj isServer]> h').
Proof.
  intros Hh Hload. destruct (builds_inv _ _ _ _ _ _ load_config_builds Hload) as (_ & Hwf & _).
  eapply loaded_pass; eauto using keeps_new_refl.
Qed.

Lemma build_pass_runs_webpack_witness :
  bundler_pass code_body (VRef 3) (VRef 1) false (load_config ∅).2 =
  webpack (VRef 1) (VRef (fresh (dom (load_config ∅).2)))
    (<[fresh (dom (load_config ∅).2) := options_obj false]> (load_config ∅).2).
Proof.
  apply (build_pass_runs_webpack ∅ (VRef 3) (load_config ∅).2 (VRef 1) false);
    [apply heap_wf_empty | exact load_config_empty].
Defined.

(** A build with one pass, end to end.  When the settings of the pass
    are an object whose [resolve] represents the resolution settings [r],
    the build completes, hands the settings object back, leaves [resolve]
    representing [adjust_replace r isServer], and changes no other object
    of the heap it started in. *)
Theorem build_one_pass h ls o_s lr r isServer :
  heap_wf h → h !! ls = Some o_s → obj_get o_s "resolve" = VRef lr → abs h lr = Some r →
  ∃ h', build [(VRef ls, isServer)] h = (inr [VRef ls], h') ∧
        abs h' lr = Some (adjust_replace r isServer) ∧
        ∀ l o, h !! l = Some o → l ≠ lr → h' !! l = Some o.
Proof.
  intros Hh Hs Hr Habs. destruct (load_config_builds h) as (cfg & h1 & Hload & Hsub & Hwf & _).
  destruct (pass_adjusts h h1 h1 cfg Hload (keeps_new_refl _ _) ls o_s lr r isServer)
    as (h3 & Hp & Hab & Hf);
    [by apply Hwf | by eapply lookup_weaken | done | by eapply abs_subseteq|].
  exists h3. split_and!; [|done|].
  - unfold build. erewrite se_bind_inr by done. simpl. by erewrite se_bind_inr by done.
  - intros l o Hl Hne. apply Hf; [by eapply lookup_weaken | done].
Qed.

Lemma build_one_pass_witness :
  ∃ h', build [(VRef 1, false)] ex_heap = (inr [VRef 1], h') ∧
        abs h' 2 = Some (adjust_replace
          (Resolution (Some {["fs" := VBool true; "path" := VBool true; "other" := VBool true]}) ∅)
          false) ∧
        ∀ l o, ex_heap !! l = Some o → l ≠ 2%positive → h' !! l = Some o.
Proof.
  apply (build_one_pass ex_heap 1 (Obj ClsObject {["resolve" := VRef 2]}) 2);
    [apply ex_heap_wf | reflexivity..].
Defined.

(** A server pass followed by a client pass.  The build completes and
    hands both settings objects back in order; the settings of the client
    pass end up adjusted, and no other object of the initial heap has
    changed, the settings of the server pass included. *)
Theorem build_server_then_client h ls1 o1 ls2 o2 lr r :
  heap_wf h → h !! ls1 = Some o1 → h !! ls2 = Some o2 →
  obj_get o2 "resolve" = VRef lr → abs h lr = Some r →
  ∃ h', build [(VRef ls1, true); (VRef ls2, false)] h = (inr [VRef ls1; VRef ls2], h') ∧
        abs h' lr = Some (adjust_replace r false) ∧
        ∀ l o, h !! l = Some o → l ≠ lr → h' !! l = Some o.
Proof.
  intros Hh Hs1 Hs2 Hr Habs.
  destruct (load_config_builds h) as (cfg & h1 & Hload & Hsub & Hwf & _).
  set (h2 := <[fresh (dom h1) := options_obj true]> h1).
  assert (h ⊆ h2) as Hsub2 by (etrans; [done | apply insert_fresh_subseteq]).
  assert (heap_wf h2) as Hwf2 by (apply heap_wf_alloc; [by apply Hwf | by apply map_Forall_singleton]).
  assert (keeps_new h h1 h2) as Hk by (intros l o _ Hl; by apply lookup_insert_fresh_old).
  destruct (pass_adjusts h h1 h2 cfg Hload Hk ls2 o2 lr r false) as (h3 & Hp & Hab & Hf);
    [done | by eapply lookup_weaken | done | exact (abs_subseteq _ _ _ _ Hh Hsub2 Habs)|].
  exists h3. split_and!; [|done|].
  - unfold build. erewrite se_bind_inr by done. simpl.
    erewrite se_bind_inr by (eapply pass_server; eauto using keeps_new_refl).
    rewrite se_bind_assoc. by erewrite se_bind_inr by exact Hp.
  - intros l o Hl Hne. apply Hf; [by eapply lookup_weaken | done].
Qed.

Lemma build_server_then_client_witness :
  ∃ h', build [(VRef 1, true); (VRef 1, false)] ex_heap = (inr [VRef 1; VRef 1], h') ∧
        abs h' 2 = Some (adjust_replace
          (Resolution (Some {["fs" := VBool true; "path" := VBool true; "other" := VBool true]}) ∅)
          false) ∧
        ∀ l o, ex_heap !! l = Some o → l ≠ 2%positive → h' !! l = Some o.
Proof.
  apply (build_server_then_client ex_heap 1 (Obj ClsObject {["resolve" := VRef 2]})
           1 (Obj ClsObject {["resolve" := VRef 2]}) 2);
    [apply ex_heap_wf | reflexivity..].
Defined.

(** A client pass over settings that have no [resolve] aborts the
    build with the TypeError of the assignment of line 17; the passes that
    follow are not run, and no object of the initial heap has changed. *)
Theorem build_aborts_without_resolve h ls o_s passes :
  heap_wf h → h !! ls = Some o_s → nullish (obj_get o_s "resolve") = true →
  ∃ h', build ((VRef ls, false) :: passes) h =
          (inl (TypeError (WriteOfNullish "fallback")), h') ∧ h ⊆ h'.
Proof.
  intros Hh Hs Hr. destruct (load_config_builds h) as (cfg & h1 & Hload & Hsub & Hwf & _).
  destruct (pass_throws h h1 h1 cfg Hload (keeps_new_refl _ _) ls o_s) as (h3 & Hp & Hsub3);
    [by apply Hwf | by eapply lookup_weaken | done|].
  exists h3. split; [|by etrans].
  unfold build. erewrite se_bind_inr by done. simpl. by erewrite se_bind_inl by done.
Qed.

Lemma build_aborts_without_resolve_witness :
  ∃ h', build [(VRef 2, false); (VRef 1, false)] ex_heap =
          (inl (TypeError (WriteOfNullish "fallback")), h') ∧ ex_heap ⊆ h'.
Proof.
  apply (build_aborts_without_resolve ex_heap 2 (Obj ClsObject {["fallback" := VRef 3]}));
    [apply ex_heap_wf | reflexivity..].
Defined.

(** C33: the memory a build takes is linear in the number of passes: the
    load allocates ten objects and each pass at most two (its options
    object and the table of the hook), on every heap and whatever the
    outcome. *)
Theorem build_allocates h passes :
  size (build passes h).2 ≤ size h + 10 + 2 * length passes.
Proof.
  pose proof (load_config_size h) as Hl. unfold build, se_bind.
  destruct (load_config h) as [[e|cfg] h1]; simpl in *; [lia|].
  pose proof (run_passes_size _ code_body_contract cfg passes h1). lia.
Qed.
