(* ===== verification/Completion.v ===== *)
(** * Builds from pass to pass

    The hook of this repository writes one key of one object: the
    [fallback] of the [resolve] of the settings it is given.  The settings
    of the passes may therefore share objects in any way (the same
    settings twice, one [resolve] for two settings, settings that are
    their own [resolve]) and a build can still be followed from pass to
    pass.  This file does so:

    - [between] is what holds of the heap between two passes: the objects
      of the load are untouched, no reference dangles, and the objects of
      the initial heap are as they were but for their [fallback];
    - [written] is the object a pass writes to and [adjusted] what the
      pass does to the heap;
    - [pass_error] and [first_error] give the outcome of a pass and of a
      build as functions of the initial heap;
    - [disabled_at] says the table of a client pass is in place, and it
      stays in place whatever the passes that follow. *)

From stdpp Require Import base option gmap fin_maps strings list.
From S2P Require Import Prelude JsValue JsHeap Reify Literal Contract Webpack Resolution.
From S2P Require Import NextConfig Host Build.

(** ** Definitions *)

(** The settings of a client pass are a value of the heap. *)
Definition known (h : heap) (p : val * bool) : Prop :=
  p.2 = false → val_wf h p.1.

(** The settings of a client pass are an object whose [resolve] is an
    object. *)
Definition ready (h : heap) (p : val * bool) : Prop :=
  p.2 = false → is_ref (peek h p.1 "resolve") = true.

(** What a pass throws, if it throws: a server pass nothing; a client
    pass fails to read [resolve] from undefined or null settings and to
    store into a [resolve] that is undefined or null. *)
Definition pass_error (h : heap) (p : val * bool) : option reason :=
  if p.2 then None
  else if nullish p.1 then Some (ReadOfNullish "resolve")
  else if nullish (peek h p.1 "resolve") then Some (WriteOfNullish "fallback")
  else None.

(** What a build throws: what its first failing pass throws. *)
Definition first_error (h : heap) (passes : list (val * bool)) : option reason :=
  head (omap (pass_error h) passes).

(** The result of a build. *)
Definition build_result (h : heap) (passes : list (val * bool)) : exn + list val :=
  match first_error h passes with
  | Some r => inl (TypeError r)
  | None => inr passes.*1
  end.

(** [v.resolve.fallback] is a table [{ fs: false, path: false }]. *)
Definition disabled_in (h : heap) (v : val) : bool :=
  match peek h (peek h v "resolve") "fallback" with
  | VRef lf => bool_decide (h !! lf = Some fallback_obj)
  | _ => false
  end.

(** The fallback of the object at [lr] is a table
    [{ fs: false, path: false }] that [h0] did not hold. *)
Definition disabled_at (h0 h : heap) (lr : loc) : Prop :=
  ∃ o lf, h !! lr = Some o ∧ obj_get o "fallback" = VRef lf ∧
          h !! lf = Some fallback_obj ∧ h0 !! lf = None.

(** [o'] is [o] but for its [fallback]. *)
Definition same_but_fallback (o o' : obj) : Prop :=
  obj_class_of o' = obj_class_of o ∧
  delete "fallback" (obj_props o') = delete "fallback" (obj_props o).

(** The object the pass writes to: the [resolve] of the settings of a
    client pass. *)
Definition written (h : heap) (p : val * bool) (l : loc) : Prop :=
  p.2 = false ∧ peek h p.1 "resolve" = VRef l.

(** What a pass that writes to the objects [W] does to the heap [h]: it
    keeps an object, or the object is one of [W] and gets a new table as
    its [fallback]. *)
Definition adjusted (W : loc → Prop) (h h' : heap) : Prop :=
  ∀ l o, h !! l = Some o →
    h' !! l = Some o ∨
    (W l ∧ ∃ lf, h !! lf = None ∧ h' !! lf = Some fallback_obj ∧
                 h' !! l = Some (obj_set "fallback" (VRef lf) o)).

(** What holds of the heap between two passes of a build that started in
    [h0] and loaded the configuration into [h1]. *)
Definition between (h0 h1 h : heap) : Prop :=
  keeps_new h0 h1 h ∧ heap_wf h ∧
  ∀ l o, h0 !! l = Some o → ∃ o', h !! l = Some o' ∧ same_but_fallback o o'.

#[export] Instance known_dec h p : Decision (known h p).
Proof. unfold known. apply _. Defined.

#[export] Instance ready_dec h p : Decision (ready h p).
Proof. unfold ready. apply _. Defined.

(** ** The settings of a pass *)

Lemma ready_known h p : ready h p → known h p.
Proof.
  intros Hr Hc. specialize (Hr Hc). destruct p as [[| | | | |l] b]; try done.
  simpl in *. by destruct (h !! l); [eexists|].
Qed.

Lemma ready_pass_error h p : ready h p → pass_error h p = None.
Proof.
  unfold ready, pass_error. destruct p as [s [|]]; [done|]. cbn [fst snd].
  intros Hr. specialize (Hr eq_refl). destruct s; try done.
  by destruct (peek _ _ _).
Qed.

Lemma ready_first_error h passes : Forall (ready h) passes → first_error h passes = None.
Proof.
  unfold first_error. induction 1 as [|p ps Hp _ IH]; [done|].
  simpl. by rewrite (ready_pass_error _ _ Hp).
Qed.

Lemma first_error_cons h p ps :
  first_error h (p :: ps) = from_option Some (first_error h ps) (pass_error h p).
Proof. unfold first_error. simpl. by destruct (pass_error h p). Qed.

Lemma disabled_at_in h0 h v lr :
  peek h v "resolve" = VRef lr → disabled_at h0 h lr → disabled_in h v = true.
Proof.
  intros Hr (o & lf & Hl & Hf & Ht & _). unfold disabled_in. rewrite Hr. simpl.
  rewrite Hl. simpl. rewrite Hf. by apply bool_decide_eq_true_2.
Qed.

Lemma written_old h p l : heap_wf h → written h p l → is_Some (h !! l).
Proof.
  intros Hh [_ Hr]. pose proof (val_wf_peek h p.1 "resolve" Hh) as Hw. by rewrite Hr in Hw.
Qed.

Lemma written_ready h p l : written h p l → ready h p.
Proof. intros [_ Hr] _. by rewrite Hr. Qed.

Lemma same_but_fallback_get o o' k :
  same_but_fallback o o' → k ≠ "fallback" → obj_get o' k = obj_get o k.
Proof.
  intros [_ Hp] Hk. unfold obj_get.
  by rewrite <-(lookup_delete_ne (obj_props o') "fallback" k), Hp, lookup_delete_ne.
Qed.

Lemma same_but_fallback_set o o' v :
  same_but_fallback o o' → same_but_fallback o (obj_set "fallback" v o').
Proof. intros [Hc Hp]. split; [done|]. simpl. by rewrite delete_insert_eq. Qed.

(** ** What the hook does to the heap *)

Section adjusted.
Context (W : loc → Prop).

Lemma adjusted_keeps h h' l o : adjusted W h h' → h !! l = Some o → ¬ W l → h' !! l = Some o.
Proof using Type. intros Ha Hl Hn. by destruct (Ha l o Hl) as [?|[? _]]. Qed.

Lemma adjusted_subseteq h h' : h ⊆ h' → adjusted W h h'.
Proof using Type. intros Hsub l o Hl. left. by eapply lookup_weaken. Qed.

Lemma adjusted_weaken h h2 h' : h ⊆ h2 → adjusted W h2 h' → adjusted W h h'.
Proof using Type.
  intros Hsub Ha l o Hl.
  destruct (Ha l o (lookup_weaken _ _ _ _ Hl Hsub)) as [?|(? & lf & Hlf & ?)]; [by left|].
  right. split; [done|]. exists lf. split; [|done]. by eapply lookup_weaken_None.
Qed.

Lemma adjusted_install h lr o_r :
  W lr → h !! lr = Some o_r → adjusted W h (install h lr o_r).
Proof using Type.
  intros H0 Hlr l o Hl. destruct (decide (l = lr)) as [->|Hne].
  - right. split; [done|]. exists (fresh (dom h)). simplify_eq.
    split_and!; [apply lookup_fresh | by eapply install_lookup_fresh | apply install_lookup_resolve].
  - left. rewrite install_lookup_ne; eauto.
Qed.

(** The heap the hook leaves, when the [resolve] it writes to is in
    [W]. *)
Lemma final_heap_adjusted h config opts :
  (is_server h opts = false → ∀ lr, peek h config "resolve" = VRef lr → W lr) →
  adjusted W h (final_heap h config opts).
Proof using Type.
  intros Hold. unfold final_heap. destruct (nullish opts); [by apply adjusted_subseteq|].
  destruct (is_server h opts); [by apply adjusted_subseteq|].
  destruct (nullish config); [by apply adjusted_subseteq|]. simpl.
  destruct (peek h config "resolve") as [| | | | |lr] eqn:Hr;
    try apply adjusted_subseteq, insert_fresh_subseteq.
  destruct (h !! lr) as [o_r|] eqn:Hlr; [|by apply adjusted_subseteq].
  apply adjusted_install; eauto.
Qed.

End adjusted.

Lemma install_disabled h0 h lr o_r :
  dom h0 ⊆ dom h → h !! lr = Some o_r → disabled_at h0 (install h lr o_r) lr.
Proof.
  intros Hdom Hlr. exists (obj_set "fallback" (VRef (fresh (dom h))) o_r), (fresh (dom h)).
  split_and!; [apply install_lookup_resolve | apply obj_get_set_eq | by eapply install_lookup_fresh |].
  apply not_elem_of_dom. intros Hin%Hdom. by apply is_fresh in Hin.
Qed.

(** ** From pass to pass *)

Section completion.
Context (h0 h1 : heap) (cfg : val).
Context (Hh0 : heap_wf h0) (Hload : load_config h0 = (inr cfg, h1)).
Implicit Types (h : heap) (p : val * bool).

Lemma between_load : between h0 h1 h1.
Proof using Hh0 Hload.
  destruct (builds_inv _ _ _ _ _ _ load_config_builds Hload) as (Hsub & Hwf & _).
  split_and!; [apply keeps_new_refl | by apply Hwf |].
  intros l o Hl. exists o. split; [by eapply lookup_weaken | done].
Qed.

Lemma between_dom h : between h0 h1 h → dom h0 ⊆ dom h.
Proof using Type.
  intros (_ & _ & Hold) l [o Hl]%elem_of_dom. destruct (Hold l o Hl) as (o' & Hl' & _).
  by apply elem_of_dom.
Qed.

Lemma between_val_wf h v : between h0 h1 h → val_wf h0 v → val_wf h v.
Proof using Type. intros Hb. apply val_wf_mono. by apply between_dom. Qed.

Lemma between_peek h v k :
  between h0 h1 h → val_wf h0 v → k ≠ "fallback" → peek h v k = peek h0 v k.
Proof using Type.
  intros (_ & _ & Hold) Hv Hk. destruct v as [| | | | |l]; try done.
  destruct Hv as [o Hl]. destruct (Hold l o Hl) as (o' & Hl' & Hsame).
  simpl. rewrite Hl, Hl'. by apply same_but_fallback_get.
Qed.

Section step.
Context (W : loc → Prop) (HW : ∀ l, W l → is_Some (h0 !! l)).

Lemma between_step h h' : between h0 h1 h → adjusted W h h' → heap_wf h' → between h0 h1 h'.
Proof using HW.
  intros (Hk & _ & Hold) Ha Hw. split_and!; [|done|].
  - intros l o Hl0 Hl1. apply (adjusted_keeps W h); [done | by apply Hk|].
    intros [? ?]%HW. congruence.
  - intros l o Hl. destruct (Hold l o Hl) as (o' & Hl' & Hsame).
    destruct (Ha l o' Hl') as [?|(_ & lf & _ & _ & Hset)]; [by exists o'|].
    eexists. split; [done|]. by apply same_but_fallback_set.
Qed.

Lemma disabled_step h h' lr :
  between h0 h1 h → adjusted W h h' → disabled_at h0 h lr → disabled_at h0 h' lr.
Proof using HW.
  intros Hb Ha (o & lf & Hl & Hf & Ht & Hn).
  assert (h' !! lf = Some fallback_obj) as Ht'.
  { apply (adjusted_keeps W h); [done..|]. intros [? ?]%HW. congruence. }
  destruct (Ha lr o Hl) as [?|(_ & lf' & Hlf' & Ht'' & Hset)]; [by exists o, lf|].
  eexists _, lf'. rewrite obj_get_set_eq. split_and!; try done.
  apply not_elem_of_dom. intros Hin%(between_dom h Hb). by apply not_elem_of_dom in Hlf'.
Qed.

End step.

(** What an object a client pass has written to represents. *)
Lemma disabled_abs h lr r :
  between h0 h1 h → disabled_at h0 h lr → abs h0 lr = Some r →
  abs h lr = Some (adjust_replace r false).
Proof using Type.
  intros (_ & _ & Hold) (o & lf & Hl & Hf & Ht & _). unfold abs.
  destruct (h0 !! lr) as [o0|] eqn:Hl0; [|done]. intros [= <-].
  destruct (Hold lr o0 Hl0) as (o' & Hl' & _ & Hsame). rewrite Hl. simplify_eq.
  unfold adjust_replace, fallback_of. cbn. by rewrite Hf, Ht, Hsame.
Qed.

(** *** One pass *)

(** The run of a pass, between two passes: its result is a function of
    the initial heap, the heap it leaves is the one the hook leaves. *)
Lemma pass_run p h :
  between h0 h1 h → known h0 p →
  bundler_pass code_body cfg p.1 p.2 h =
  (from_option (inl ∘ TypeError) (inr p.1) (pass_error h0 p),
   final_heap (<[fresh (dom h) := options_obj p.2]> h) p.1 (VRef (fresh (dom h)))).
Proof using Hh0 Hload.
  intros Hb Hp. pose proof Hb as (Hk & Hw & _). destruct p as [s b]. cbn [fst snd] in *.
  rewrite (loaded_pass h0 h1 h cfg Hload Hk) by done.
  pose proof (options_is_server h b) as Hs. unfold pass_error, final_heap. cbn [fst snd].
  destruct b.
  { rewrite webpack_server_unchanged_aux by (done || apply val_wf_fresh). by rewrite Hs. }
  assert (val_wf h s) as Hv by (apply between_val_wf; [done | by apply Hp]).
  pose proof (pass_options_wf false h Hw) as Hw2. rewrite pass_options_run in Hw2.
  rewrite webpack_run_wf; [|done| |apply val_wf_fresh].
  - unfold throw_reason, final_heap. rewrite Hs. cbn [nullish orb].
    rewrite peek_insert_fresh, (between_peek h s) by (done || by apply Hp).
    by destruct (nullish s), (nullish (peek h0 s "resolve")).
  - eapply val_wf_mono; [|done]. rewrite dom_insert. set_solver.
Qed.

Lemma pass_adjusted p h :
  between h0 h1 h → known h0 p →
  adjusted (written h0 p) h (bundler_pass code_body cfg p.1 p.2 h).2.
Proof using Hh0 Hload.
  intros Hb Hp. rewrite pass_run by done. cbn [snd].
  eapply adjusted_weaken; [apply insert_fresh_subseteq|].
  apply final_heap_adjusted. rewrite options_is_server. intros Hc lr.
  rewrite peek_insert_fresh, (between_peek h p.1) by
    (done || by apply Hp || (apply between_val_wf; [done | by apply Hp])).
  by split.
Qed.

Lemma pass_between p h :
  between h0 h1 h → known h0 p → between h0 h1 (bundler_pass code_body cfg p.1 p.2 h).2.
Proof using Hh0 Hload.
  intros Hb Hp. eapply (between_step (written h0 p)); [by eauto using written_old | done | |].
  - by apply pass_adjusted.
  - apply (bundler_pass_wf _ code_body_contract), Hb.
Qed.

(** A client pass over ready settings puts a new table in place. *)
Lemma pass_installs p h lr :
  between h0 h1 h → written h0 p lr →
  disabled_at h0 (bundler_pass code_body cfg p.1 p.2 h).2 lr.
Proof using Hh0 Hload.
  intros Hb Hwr. assert (known h0 p) as Hp by by eapply ready_known, written_ready.
  destruct p as [s b], Hwr as [Hc Hr]. cbn [fst snd] in *. subst b.
  assert (val_wf h0 s) as Hv0 by by apply Hp.
  assert (val_wf h s) as Hv by by apply between_val_wf.
  assert (is_Some (h !! lr)) as [o_r Hlr].
  { apply elem_of_dom, (between_dom h Hb), elem_of_dom.
    pose proof (val_wf_peek h0 s "resolve" Hh0) as Hw. by rewrite Hr in Hw. }
  rewrite (pass_run (s, false)) by done. cbn [fst snd]. unfold final_heap.
  rewrite options_is_server, peek_insert_fresh, (between_peek h s), Hr by done.
  destruct s; try done. cbn [nullish orb].
  rewrite (lookup_insert_fresh_old _ _ _ _ Hlr). cbn [from_option].
  apply install_disabled; [|by apply lookup_insert_fresh_old].
  etrans; [by apply between_dom|]. apply subseteq_dom, insert_fresh_subseteq.
Qed.

(** *** The passes that remain *)

Lemma run_passes_spec todo h :
  between h0 h1 h → Forall (known h0) todo →
  let r := run_passes code_body cfg todo h in
  r.1 = build_result h0 todo ∧ between h0 h1 r.2 ∧
  (∀ lr, disabled_at h0 h lr → disabled_at h0 r.2 lr) ∧
  (∀ l o, h !! l = Some o → (∀ p, p ∈ todo → ¬ written h0 p l) → r.2 !! l = Some o) ∧
  (first_error h0 todo = None → ∀ p lr, p ∈ todo → written h0 p lr → disabled_at h0 r.2 lr).
Proof using Hh0 Hload.
  intros Hb Hknown. cbv zeta. revert h Hb.
  induction Hknown as [|[s b] ps Hp _ IH]; intros h Hb.
  { split_and!; try done. intros _ p lr Hin. by apply elem_of_nil in Hin. }
  pose proof (pass_run (s, b) h Hb Hp) as Hrun.
  pose proof (pass_between (s, b) h Hb Hp) as Hb3.
  pose proof (pass_adjusted (s, b) h Hb Hp) as Ha.
  pose proof (λ lr, pass_installs (s, b) h lr Hb) as Hinst.
  pose proof (λ lr, disabled_step _ (λ l, written_old h0 (s, b) l Hh0) h _ lr Hb Ha) as Hstep.
  assert (∀ l o, h !! l = Some o → (∀ p, p ∈ (s, b) :: ps → ¬ written h0 p l) →
                 (bundler_pass code_body cfg s b h).2 !! l = Some o) as Hframe.
  { intros l o Hl Hno. apply (adjusted_keeps _ _ _ _ _ Ha Hl), Hno. set_solver. }
  unfold build_result in *. rewrite first_error_cons. cbn [fst snd run_passes] in *.
  rewrite Hrun in Hb3, Hinst, Hstep, Hframe. cbn [snd] in Hb3, Hinst, Hstep, Hframe.
  destruct (pass_error h0 (s, b)) as [e|]; cbn [from_option compose] in *.
  { by rewrite (se_bind_inl _ _ _ _ _ Hrun). }
  destruct (IH _ Hb3) as (Hres & Hb' & Hkeep & Hsame & Hnew).
  rewrite (se_bind_inr _ _ _ _ _ Hrun), se_bind_ret_r_fst, se_bind_ret_r_snd.
  split_and!; [|done|by eauto| |].
  - rewrite Hres. by destruct (first_error h0 ps).
  - intros l o Hl Hno. apply Hsame; [by apply Hframe|]. intros p Hin. apply Hno. set_solver.
  - intros Hnone p lr [->|Hin]%elem_of_cons Hwr; [by apply Hkeep, Hinst | by eapply Hnew].
Qed.

End completion.

(** ** Builds *)

(** A build, from the heap [h]: the heap it leaves is between two passes,
    with what the passes have done. *)
Lemma build_spec_aux h passes :
  heap_wf h → Forall (known h) passes →
  (build passes h).1 = build_result h passes ∧
  (∃ h1, between h h1 (build passes h).2) ∧
  (∀ l o, h !! l = Some o → (∀ p, p ∈ passes → ¬ written h p l) →
          (build passes h).2 !! l = Some o) ∧
  (first_error h passes = None → ∀ p lr, p ∈ passes → written h p lr →
     disabled_at h (build passes h).2 lr).
Proof.
  intros Hh Hknown. destruct (load_config_builds h) as (cfg & h1 & Hload & Hsub & _).
  pose proof (between_load h h1 cfg Hh Hload) as Hb1.
  destruct (run_passes_spec h h1 cfg Hh Hload passes h1 Hb1 Hknown)
    as (Hres & Hb & _ & Hsame & Hdis).
  unfold build. rewrite (se_bind_inr _ _ _ _ _ Hload). split_and!; [done | by exists h1 | | done].
  intros l o Hl. apply Hsame. by eapply lookup_weaken.
Qed.

(** A build over ready settings completes and hands every settings object
    back. *)
Lemma build_ready_aux h passes :
  heap_wf h → Forall (ready h) passes →
  (build passes h).1 = inr passes.*1 ∧ Forall (known h) passes ∧ first_error h passes = None.
Proof.
  intros Hh Hready. pose proof (ready_first_error h passes Hready) as Hnone.
  assert (Forall (known h) passes) as Hknown by by eapply Forall_impl, ready_known.
  split_and!; [|done..]. rewrite (proj1 (build_spec_aux h passes Hh Hknown)).
  unfold build_result. by rewrite Hnone.
Qed.

(** The fallback of every client pass is then disabled in the heap the
    build leaves. *)
Lemma build_completes_aux h passes :
  heap_wf h → Forall (ready h) passes →
  ∃ h', build passes h = (inr passes.*1, h') ∧ heap_wf h' ∧
        ∀ p, p ∈ passes → p.2 = false → disabled_in h' p.1 = true.
Proof.
  intros Hh Hready. destruct (build_ready_aux h passes Hh Hready) as (Hres & Hknown & Hnone).
  destruct (build_spec_aux h passes Hh Hknown) as (_ & [h1 Hb] & _ & Hdis).
  exists (build passes h).2. split_and!; [by rewrite <-Hres, <-surjective_pairing | apply Hb |].
  intros p Hin Hc. pose proof (proj1 (Forall_forall _ _) Hready p Hin Hc) as Hr.
  destruct (peek h p.1 "resolve") as [| | | | |lr] eqn:Hpeek; try done.
  apply (disabled_at_in h _ _ lr); [|by eapply Hdis].
  rewrite (between_peek h h1 _ p.1 "resolve" Hb); [done | | done].
  by apply (proj1 (Forall_forall _ _) Hknown p).
Qed.

(** The settings of the examples: the configuration object of the heap of
    section 8.3 of the specification, in a server pass and in two client
    passes, and its [resolve], which has no [resolve] of its own. *)
Lemma ex_heap_ready : Forall (ready ex_heap) [(VRef 1, true); (VRef 1, false); (VRef 1, false)].
Proof. by apply (bool_decide_unpack _); vm_compute. Qed.

Lemma ex_heap_known : Forall (known ex_heap) [(VRef 1, true); (VRef 1, false); (VRef 2, false)].
Proof. by apply (bool_decide_unpack _); vm_compute. Qed.

(** ** Theorems *)

(** C9: a build, end to end.  Over settings whose [resolve] is an object,
    whatever objects they share, the build completes and hands every
    settings object back in order; the [resolve] of every client pass then
    represents [adjust_replace] of the resolution settings it represented
    at the start; and no object of the initial heap has changed but the
    [resolve] objects of the client passes. *)
Theorem build_adjusts_settings h passes :
  heap_wf h → Forall (ready h) passes →
  ∃ h', build passes h = (inr passes.*1, h') ∧
        (∀ p lr r, p ∈ passes → written h p lr → abs h lr = Some r →
                   abs h' lr = Some (adjust_replace r false)) ∧
        (∀ l o, h !! l = Some o → (∀ p, p ∈ passes → ¬ written h p l) → h' !! l = Some o).
Proof.
  intros Hh Hready. destruct (build_ready_aux h passes Hh Hready) as (Hres & Hknown & Hnone).
  destruct (build_spec_aux h passes Hh Hknown) as (_ & [h1 Hb] & Hsame & Hdis).
  exists (build passes h).2. split_and!; [by rewrite <-Hres, <-surjective_pairing | | done].
  intros p lr r Hin Hwr Habs. eapply disabled_abs; eauto.
Qed.

Lemma build_adjusts_settings_witness :
  ∃ h', build [(VRef 1, true); (VRef 1, false); (VRef 1, false)] ex_heap =
          (inr [VRef 1; VRef 1; VRef 1], h') ∧
        (∀ p lr r, p ∈ [(VRef 1, true); (VRef 1, false); (VRef 1, false)] →
                   written ex_heap p lr → abs ex_heap lr = Some r →
                   abs h' lr = Some (adjust_replace r false)) ∧
        (∀ l o, ex_heap !! l = Some o →
                (∀ p, p ∈ [(VRef 1, true); (VRef 1, false); (VRef 1, false)] →
                      ¬ written ex_heap p l) → h' !! l = Some o).
Proof.
  apply (build_adjusts_settings ex_heap [(VRef 1, true); (VRef 1, false); (VRef 1, false)]);
    [apply ex_heap_wf | apply ex_heap_ready].
Defined.

(** C11: the result of a build is a function of the heap it starts in.
    When the settings of the client passes are values of that heap, the
    build hands every settings object back, in order, unless a client
    pass has settings that are undefined or null, or whose [resolve] is;
    it then throws the TypeError of the first such pass.  How the settings
    share objects does not matter. *)
Theorem build_outcome h passes :
  heap_wf h → Forall (known h) passes → (build passes h).1 = build_result h passes.
Proof. intros Hh Hknown. by apply build_spec_aux. Qed.

Lemma build_outcome_witness :
  (build [(VRef 1, true); (VRef 1, false); (VRef 2, false)] ex_heap).1 =
  inl (TypeError (WriteOfNullish "fallback")).
Proof.
  apply (build_outcome ex_heap [(VRef 1, true); (VRef 1, false); (VRef 2, false)]);
    [apply ex_heap_wf | apply ex_heap_known].
Defined.

(** C14: no pass touches the configuration.  After the load and any
    sequence of passes whose client settings are values of the initial
    heap, the heap has no dangling reference and the configuration still
    reads as [nextConfig_tree] at every depth. *)
Theorem build_keeps_configuration h cfg h' passes :
  heap_wf h → Forall (known h) passes → load_config h = (inr cfg, h') →
  heap_wf (run_passes code_body cfg passes h').2 ∧
  ∀ n, reify n (run_passes code_body cfg passes h').2 cfg = truncate n nextConfig_tree.
Proof.
  intros Hh Hknown Hload. pose proof (between_load h h' cfg Hh Hload) as Hb1.
  destruct (run_passes_spec h h' cfg Hh Hload passes h' Hb1 Hknown) as (_ & (Hk & Hw & _) & _).
  split; [done|]. intros n. by eapply loaded_reify.
Qed.

Lemma build_keeps_configuration_witness :
  heap_wf (run_passes code_body (VRef 8) [(VRef 1, true); (VRef 1, false); (VRef 2, false)]
             (load_config ex_heap).2).2 ∧
  ∀ n, reify n (run_passes code_body (VRef 8) [(VRef 1, true); (VRef 1, false); (VRef 2, false)]
                  (load_config ex_heap).2).2
         (VRef 8) = truncate n nextConfig_tree.
Proof.
  apply (build_keeps_configuration ex_heap (VRef 8) (load_config ex_heap).2);
    [apply ex_heap_wf | apply ex_heap_known | by vm_compute].
Defined.
