(* ===== verification/Lifecycle.v ===== *)
(** * The lifecycle of a build, one step at a time

    [Build.build] runs a whole build as one function.  This file gives the
    same lifecycle as a machine that takes one step for the load of the
    module and one step per bundling pass, so that what holds between two
    passes, that the build stops, and that it ends where it should can be
    stated of the steps themselves:

    - [phase] and [mstate] are the states of the host, [next] its step
      function and [step] the same steps as a relation;
    - [run] iterates [next]; [measure] bounds the steps that remain;
    - [eventually] is the property that every run reaches a state.

    The theorems: [step] is the graph of [next] and is deterministic; each
    step lowers [measure], so every state is strongly normalising and
    [run] with fuel [measure] ends in a final state; the final state is
    the outcome of [Build.build]; the heap stays well formed and the
    results handed back so far are the settings of the passes that ran;
    under the hypotheses of [Completion] every run ends with all settings
    handed back and the fallback of every client pass disabled. *)

From stdpp Require Import base option gmap fin_maps strings list relations.
From S2P Require Import Prelude JsValue JsHeap Reify Literal Contract Webpack Resolution.
From S2P Require Import NextConfig Host Build Completion.

(** ** The machine *)

(** Where a build is: before the load, between two passes (with the
    configuration, the passes still to run and the settings handed back so
    far), finished, or aborted by an exception. *)
Inductive phase : Type :=
  | Loading (passes : list (val * bool))
  | Bundling (cfg : val) (todo : list (val * bool)) (results : list val)
  | Finished (results : list val)
  | Aborted (e : exn).

Definition mstate : Type := heap * phase.

(** The state after an operation of the host: it goes on with the value, or
    the exception ends the build. *)
Definition outcome {A} (k : A → phase) (r : (exn + A) * heap) : mstate :=
  match r.1 with
  | inr x => (r.2, k x)
  | inl e => (r.2, Aborted e)
  end.

(** One step of the host. *)
Definition next (s : mstate) : option mstate :=
  match s.2 with
  | Loading passes =>
      Some (outcome (λ cfg, Bundling cfg passes []) (load_config s.1))
  | Bundling cfg ((settings, isServer) :: todo) results =>
      Some (outcome (λ r, Bundling cfg todo (results ++ [r]))
                    (bundler_pass code_body cfg settings isServer s.1))
  | Bundling cfg [] results => Some (s.1, Finished results)
  | Finished _ | Aborted _ => None
  end.

Inductive step : relation mstate :=
  | step_load h passes cfg h' :
      load_config h = (inr cfg, h') →
      step (h, Loading passes) (h', Bundling cfg passes [])
  | step_load_throw h passes e h' :
      load_config h = (inl e, h') →
      step (h, Loading passes) (h', Aborted e)
  | step_pass h cfg settings isServer todo results r h' :
      bundler_pass code_body cfg settings isServer h = (inr r, h') →
      step (h, Bundling cfg ((settings, isServer) :: todo) results)
           (h', Bundling cfg todo (results ++ [r]))
  | step_pass_throw h cfg settings isServer todo results e h' :
      bundler_pass code_body cfg settings isServer h = (inl e, h') →
      step (h, Bundling cfg ((settings, isServer) :: todo) results) (h', Aborted e)
  | step_finish h cfg results :
      step (h, Bundling cfg [] results) (h, Finished results).

(** At most [n] steps. *)
Fixpoint run (n : nat) (s : mstate) : mstate :=
  match n with
  | 0 => s
  | S n => match next s with Some s' => run n s' | None => s end
  end.

(** The steps a state has left, at most. *)
Definition measure (s : mstate) : nat :=
  match s.2 with
  | Loading passes => length passes + 2
  | Bundling _ todo _ => length todo + 1
  | Finished _ | Aborted _ => 0
  end.

Definition final (s : mstate) : bool :=
  match s.2 with
  | Finished _ | Aborted _ => true
  | Loading _ | Bundling _ _ _ => false
  end.

(** What has been handed back, with the passes to come, is the build that
    was asked for. *)
Definition progress (passes : list (val * bool)) (s : mstate) : Prop :=
  match s.2 with
  | Loading ps => ps = passes
  | Bundling _ todo results => results ++ todo.*1 = passes.*1
  | Finished results => results = passes.*1
  | Aborted _ => True
  end.

(** On every run, [P] comes to hold. *)
Inductive eventually (P : mstate → Prop) : mstate → Prop :=
  | eventually_now s : P s → eventually P s
  | eventually_step s :
      red step s → (∀ s', step s s' → eventually P s') → eventually P s.

(** ** The steps *)

Lemma outcome_inr {A} (k : A → phase) r x h : r = (inr x, h) → outcome k r = (h, k x).
Proof. by intros ->. Qed.

Lemma outcome_inl {A} (k : A → phase) r e h : r = (inl e, h) → outcome k r = (h, Aborted e).
Proof. by intros ->. Qed.

Lemma outcome_final {A} (k : A → phase) r :
  (∀ x, final (r.2, k x) = true) → final (outcome k r) = true.
Proof. intros Hk. unfold outcome. destruct r.1; [done | apply Hk]. Qed.

(** [step] is the graph of [next]. *)
Lemma step_next s s' : step s s' ↔ next s = Some s'.
Proof.
  split.
  - destruct 1; unfold next; cbn [fst snd];
      by rewrite ?(outcome_inr _ _ _ _ H), ?(outcome_inl _ _ _ _ H).
  - destruct s as [h [passes|cfg [|[v b] todo] acc|rs|e]]; unfold next, outcome; cbn [fst snd];
      intros [= <-]; try constructor.
    + destruct (load_config h) as [[e|cfg] h'] eqn:Hl; by constructor.
    + destruct (bundler_pass code_body cfg v b h) as [[e|r] h'] eqn:Hp; by constructor.
Qed.

Lemma step_deterministic : deterministic step.
Proof. intros s s1 s2 H1%step_next H2%step_next. congruence. Qed.

Lemma step_measure s s' : step s s' → measure s' < measure s.
Proof. destruct 1; unfold measure; cbn [snd length]; lia. Qed.

Lemma final_next s : final s = true ↔ next s = None.
Proof. by destruct s as [h [passes|cfg [|[v b] todo] acc|rs|e]]. Qed.

Lemma final_nf s : final s = true ↔ nf step s.
Proof.
  rewrite final_next. split.
  - intros Hn [s' Hs%step_next]. congruence.
  - intros Hnf. destruct (next s) as [s'|] eqn:Hs; [|done].
    destruct Hnf. exists s'. by apply step_next.
Qed.

Lemma measure_final s : measure s = 0 → final s = true.
Proof. destruct s as [h [passes|cfg todo acc|rs|e]]; unfold measure; cbn [snd]; [lia..|done|done]. Qed.

(** ** Termination *)

Lemma step_sn s : sn step s.
Proof.
  remember (measure s) as n eqn:Hn. revert s Hn.
  induction (lt_wf n) as [n _ IH]. intros s ->.
  constructor. intros s' Hs. eapply IH; [exact (step_measure _ _ Hs) | done].
Qed.

Lemma run_final n s : measure s ≤ n → final (run n s) = true.
Proof.
  revert s. induction n as [|n IH]; intros s Hn; [apply measure_final; simpl; lia|].
  simpl. destruct (next s) as [s'|] eqn:Hs; [|by apply final_next].
  apply IH. apply step_next, step_measure in Hs. lia.
Qed.

Lemma run_nsteps n s : ∃ k, k ≤ n ∧ nsteps step k s (run n s).
Proof.
  revert s. induction n as [|n IH]; intros s; [exists 0; split; [done | constructor]|].
  simpl. destruct (next s) as [s'|] eqn:Hs; [|exists 0; split; [lia | constructor]].
  destruct (IH s') as (k & Hk & Hrun). exists (S k). split; [lia|].
  econstructor; [by apply step_next | done].
Qed.

Lemma run_rtc n s : rtc step s (run n s).
Proof. destruct (run_nsteps n s) as (k & _ & Hk). by eapply rtc_nsteps_2. Qed.

(** A run that has ended ended where [run] ends. *)
Lemma run_unique n s s' : measure s ≤ n → rtc step s s' → nf step s' → run n s = s'.
Proof.
  intros Hn Hsteps Hnf. revert n Hn.
  induction Hsteps as [s|s s1 s' Hs _ IH]; intros n Hn.
  - apply final_nf, final_next in Hnf. destruct n; simpl; by rewrite ?Hnf.
  - pose proof (step_measure _ _ Hs). destruct n as [|n]; [lia|].
    simpl. apply step_next in Hs as ->. apply IH; [done | lia].
Qed.

(** In a deterministic machine, what a run reaches is reached on every
    run. *)
Lemma rtc_eventually P s s' : rtc step s s' → P s' → eventually P s.
Proof.
  induction 1 as [s|s s1 s' Hs _ IH]; intros HP; [by apply eventually_now|].
  apply eventually_step; [by exists s1|].
  intros s2 Hs2. rewrite (step_deterministic _ _ _ Hs2 Hs). by apply IH.
Qed.

Lemma eventually_rtc P s : eventually P s → ∃ s', rtc step s s' ∧ P s'.
Proof.
  induction 1 as [s HP|s [s1 Hs] _ IH]; [by exists s|].
  destruct (IH s1 Hs) as (s' & Hsteps & HP). exists s'. split; [by eapply rtc_l | done].
Qed.

(** ** The machine and the build *)

(** The passes that remain, run by steps, end as [Host.run_passes] does. *)
Lemma run_passes_steps cfg todo results h :
  rtc step (h, Bundling cfg todo results)
      (outcome (λ rs, Finished (results ++ rs)) (run_passes code_body cfg todo h)).
Proof.
  revert results h. induction todo as [|[v b] ps IH]; intros results h.
  { apply rtc_once. unfold outcome. cbn [run_passes se_ret fst snd].
    rewrite app_nil_r. constructor. }
  cbn [run_passes]. destruct (bundler_pass code_body cfg v b h) as [[e|r] h1] eqn:Hp.
  { rewrite (se_bind_inl _ _ _ _ _ Hp). apply rtc_once. by constructor. }
  rewrite (se_bind_inr _ _ _ _ _ Hp). eapply rtc_l; [by constructor|].
  specialize (IH (results ++ [r]) h1). revert IH. unfold outcome.
  destruct (run_passes code_body cfg ps h1) as [[e|rs] h2] eqn:Hps.
  - by rewrite (se_bind_inl _ _ _ _ _ Hps).
  - rewrite (se_bind_inr _ _ _ _ _ Hps). cbn [se_ret fst snd]. by rewrite <-app_assoc.
Qed.

Lemma build_steps passes h :
  rtc step (h, Loading passes) (outcome Finished (build passes h)).
Proof.
  unfold build. destruct (load_config h) as [[e|cfg] h1] eqn:Hl.
  { rewrite (se_bind_inl _ _ _ _ _ Hl). apply rtc_once. by constructor. }
  rewrite (se_bind_inr _ _ _ _ _ Hl). eapply rtc_l; [by constructor|].
  apply (run_passes_steps cfg passes []).
Qed.

Lemma build_outcome_final passes h : final (outcome Finished (build passes h)) = true.
Proof. by apply outcome_final. Qed.

(** ** What holds between two steps *)

Lemma step_wf s s' : step s s' → heap_wf s.1 → heap_wf s'.1.
Proof.
  destruct 1 as [h ps cfg h' H|h ps e h' H|h cfg v b todo acc r h' H|h cfg v b todo acc e h' H|];
    cbn [fst]; intros Hh; try done.
  1,2: destruct (load_config_builds h) as (v' & h1 & Hl & _ & Hw & _);
       rewrite Hl in H; simplify_eq; by apply Hw.
  all: pose proof (bundler_pass_wf code_body code_body_contract cfg v b h Hh) as Hw;
       by rewrite H in Hw.
Qed.

Lemma step_dom s s' : step s s' → dom s.1 ⊆ dom s'.1.
Proof.
  destruct 1 as [h ps cfg h' H|h ps e h' H|h cfg v b todo acc r h' H|h cfg v b todo acc e h' H|];
    cbn [fst]; try done.
  1,2: destruct (load_config_builds h) as (v' & h1 & Hl & Hsub & _);
       rewrite Hl in H; simplify_eq; by apply subseteq_dom.
  all: pose proof (bundler_pass_dom code_body code_body_contract cfg v b h) as Hd;
       by rewrite H in Hd.
Qed.

Lemma step_progress passes s s' : step s s' → progress passes s → progress passes s'.
Proof.
  destruct 1 as [| |h cfg v b todo acc r h' H| |]; unfold progress; cbn [fst snd];
    try done.
  - by intros ->.
  - apply (bundler_pass_returns code_body code_body_contract) in H as ->.
    by rewrite <-app_assoc.
  - by rewrite app_nil_r.
Qed.

(** The states a build goes through. *)
Lemma reachable_invariant passes h s :
  heap_wf h → rtc step (h, Loading passes) s →
  heap_wf s.1 ∧ dom h ⊆ dom s.1 ∧ progress passes s.
Proof.
  intros Hh. revert s.
  apply (rtc_ind_r (λ s, heap_wf s.1 ∧ dom h ⊆ dom s.1 ∧ progress passes s)); [done|].
  intros s s' _ Hs (Hw & Hd & Hp).
  split_and!; [by eapply step_wf | etrans; [done | by apply step_dom] | by eapply step_progress].
Qed.

(** The machine runs: a server pass and a client pass over the
    configuration of section 8.3 of the specification, then a client pass
    over its [resolve], which has no [resolve] of its own. *)
Example run_example :
  (run 5 (ex_heap, Loading [(VRef 1, true); (VRef 1, false); (VRef 2, false)])).2 =
  Aborted (TypeError (WriteOfNullish "fallback")).
Proof. by vm_compute. Qed.

(** ** The lifecycle *)

(** Every build stops: from every state of the host no infinite
    sequence of steps exists, and at most as many steps as one for the
    load, one per pass that remains and one to finish lead to a state that
    has no step. *)
Theorem machine_terminates s :
  sn step s ∧
  ∃ n, n ≤ measure s ∧ nsteps step n s (run (measure s) s) ∧ nf step (run (measure s) s).
Proof.
  split; [apply step_sn|]. destruct (run_nsteps (measure s) s) as (k & Hk & Hrun).
  exists k. split_and!; [done..|]. by apply final_nf, run_final.
Qed.

(** The machine and the function agree: the runs of the machine from
    the start of a build end in one state only, the outcome of
    [build] (its results and heap, or its exception), and [run] computes
    it. *)
Theorem machine_build passes h s :
  rtc step (h, Loading passes) s ∧ nf step s ↔
  s = outcome Finished (build passes h) ∧ s = run (length passes + 2) (h, Loading passes).
Proof.
  pose proof (build_steps passes h) as Hb.
  pose proof (proj1 (final_nf _) (build_outcome_final passes h)) as Hnf.
  split.
  - intros [Hs Hn].
    pose proof (run_unique (length passes + 2) (h, Loading passes) s (le_n _) Hs Hn) as <-.
    split; [|done]. exact (run_unique _ (h, Loading passes) _ (le_n _) Hb Hnf).
  - by intros [-> _].
Qed.

(** C12: a build over ready settings of a well-formed heap completes on
    every run: the machine reaches the state in which every settings
    object has been handed back, in order, and the fallback of every
    client pass is the table that disables fs and path.  The settings may
    share objects in any way. *)
Theorem machine_completes h passes :
  heap_wf h → Forall (ready h) passes →
  eventually (λ s, s.2 = Finished passes.*1 ∧
                   ∀ p, p ∈ passes → p.2 = false → disabled_in s.1 p.1 = true)
             (h, Loading passes).
Proof.
  intros Hh Hready.
  destruct (build_completes_aux h passes Hh Hready) as (h' & Hb & _ & Hdis).
  eapply rtc_eventually; [apply build_steps|]. by rewrite (outcome_inr _ _ _ _ Hb).
Qed.

Lemma machine_completes_witness :
  eventually (λ s, s.2 = Finished [VRef 1; VRef 1; VRef 1] ∧
                   ∀ p, p ∈ [(VRef 1, true); (VRef 1, false); (VRef 1, false)] → p.2 = false →
                        disabled_in s.1 p.1 = true)
             (ex_heap, Loading [(VRef 1, true); (VRef 1, false); (VRef 1, false)]).
Proof.
  apply (machine_completes ex_heap [(VRef 1, true); (VRef 1, false); (VRef 1, false)]);
    [apply ex_heap_wf | apply ex_heap_ready].
Defined.
